(** * ms2rescore: spectrum path resolution, update check and precursor extraction

    A shallow embedding of [ms2rescore/utils.py]: [infer_spectrum_path] and
    [_is_minitdf] over a model of the POSIX file system as Python's [os.path],
    [glob] and [pathlib] observe it, and the version comparison and update
    check ([_strip_v], [_normalize_for_tuple], [_compare_versions],
    [check_for_update]) over the interpreter and the network as parameters.
    The precursor extraction and enrichment of [ms2rescore/parse_spectra.py]
    are modelled from the spec and checked against the fixtures of the
    tests. *)

From Stdlib Require Import Ascii String Floats.PrimFloat.
From Equations Require Import Equations.
From stdpp Require Import gmap strings list pretty.

Local Open Scope stdpp_scope.

(** ** Python [str] *)

Module PyStr.

Definition chars (s : string) : list ascii := list_ascii_of_string s.
Definition of_chars (l : list ascii) : string := string_of_list_ascii l.

(** Truth value of a [str]: the empty string is falsy. *)
Definition truthy (s : string) : bool :=
  match s with EmptyString => false | String _ _ => true end.

Fixpoint prefixb (p l : list ascii) : bool :=
  match p, l with
  | [], _ => true
  | _ :: _, [] => false
  | a :: p', b :: l' => if decide (a = b) then prefixb p' l' else false
  end.

(** [s.startswith(p)] and [s.endswith(p)]. *)
Definition startswith (s p : string) : bool := prefixb (chars p) (chars s).
Definition endswith (s p : string) : bool :=
  prefixb (reverse (chars p)) (reverse (chars s)).

(** Longest leading run of characters satisfying [f], and the rest. *)
Fixpoint take_run (f : ascii → bool) (l : list ascii) : list ascii :=
  match l with
  | [] => []
  | a :: l' => if f a then a :: take_run f l' else []
  end.
Fixpoint drop_run (f : ascii → bool) (l : list ascii) : list ascii :=
  match l with
  | [] => []
  | a :: l' => if f a then drop_run f l' else l
  end.

Definition is_sep (a : ascii) : bool := bool_decide (a = "/"%char).

(** [s.rstrip("/")]. *)
Definition rstrip_sep (l : list ascii) : list ascii :=
  reverse (drop_run is_sep (reverse l)).

(** [s.split("/")]: never empty, the pieces hold no separator. *)
Fixpoint split_sep_go (cur : list ascii) (l : list ascii) : list string :=
  match l with
  | [] => [of_chars (reverse cur)]
  | a :: l' =>
      if is_sep a then of_chars (reverse cur) :: split_sep_go [] l'
      else split_sep_go (a :: cur) l'
  end.
Definition split_sep (s : string) : list string := split_sep_go [] (chars s).

(** [s.rfind(".")], as an index from the left. *)
Fixpoint rfind_dot_go (i : nat) (best : option nat) (l : list ascii) : option nat :=
  match l with
  | [] => best
  | a :: l' => rfind_dot_go (S i) (if decide (a = "."%char) then Some i else best) l'
  end.
Definition rfind_dot (s : string) : option nat := rfind_dot_go 0 None (chars s).

End PyStr.

(** ** [posixpath] *)

Module posixpath.
Import PyStr.

(** [os.path.join(a, b)] for two segments. *)
Definition join (a b : string) : string :=
  if startswith b "/" then b
  else if negb (truthy a) || endswith a "/" then a +:+ b
  else a +:+ "/" +:+ b.

(** [os.path.split(p)]: the head loses its trailing separators unless it
    consists of separators only. *)
Definition split (p : string) : string * string :=
  let r := reverse (chars p) in
  let tail := reverse (take_run (λ a, negb (is_sep a)) r) in
  let head := reverse (drop_run (λ a, negb (is_sep a)) r) in
  let head' := if forallb is_sep head then head else rstrip_sep head in
  (of_chars head', of_chars tail).

End posixpath.

(** ** [pathlib.PurePosixPath] *)

Record PurePath := mkPath { anchor : string; parts : list string }.

Global Instance PurePath_eq_dec : EqDecision PurePath.
Proof. solve_decision. Defined.

Global Instance PurePath_countable : Countable PurePath.
Proof.
  refine (inj_countable' (λ p, (anchor p, parts p)) (λ '(a, l), mkPath a l) _).
  by intros [].
Defined.

Module pathlib.
Import PyStr.

(** The root of a POSIX path: exactly two leading slashes are kept apart. *)
Definition splitroot (s : string) : string :=
  match take_run is_sep (chars s) with
  | [] => ""
  | [_; _] => "//"
  | _ => "/"
  end.

(** [Path(s)]: empty and [.] components are dropped. *)
Definition Path (s : string) : PurePath :=
  mkPath (splitroot s)
    (filter (λ c, c ≠ "" ∧ c ≠ ".") (split_sep s)).

(** [p / name] for a directory entry [name]. *)
Definition child (p : PurePath) (name : string) : PurePath :=
  mkPath (anchor p) (parts p ++ [name]).

(** [p.name]: the final component, if any. *)
Definition name (p : PurePath) : string := default "" (last (parts p)).

(** [str(p)]. *)
Definition to_str (p : PurePath) : string :=
  match parts p with
  | [] => if PyStr.truthy (anchor p) then anchor p else "."
  | c :: cs => anchor p +:+ foldl (λ acc x, acc +:+ "/" +:+ x) c cs
  end.

(** [p.stem]: the final component without its last suffix. *)
Definition stem (p : PurePath) : string :=
  let n := name p in
  match rfind_dot n with
  | Some i =>
      if bool_decide (0 < i ∧ i < String.length n - 1)
      then String.substring 0 i n else n
  | None => n
  end.

End pathlib.

(** ** The file system

    A tree of directories and regular files. A directory keeps its entries in
    the order in which the operating system lists them; the working directory
    is given by its components from the root. The tree has no symbolic links,
    no permissions and no limits on the length of names: [os.stat] fails on a
    path exactly when a component is missing or is looked up in a file
    ([ENOENT], [ENOTDIR]), and a name that a directory lists is never a link
    without a target. The properties that depend on this say so, by the
    hypotheses [entries_exist] and [within_limits] below. *)

#[local] Set Warnings "-register-all,-inexact-float,-clear-no-such-hyp".

Inductive node : Type :=
  | File
  | Dir (entries : list (string * node)).

Record FileSystem := mkFS { root : node; cwd : list string }.

(** What the program consumes from outside the repository: the reader's
    supported-format predicate ([ms2rescore_rs.is_supported_file_type]) and the
    shell-pattern matcher behind [glob] and [Path.glob]
    ([fnmatch.fnmatchcase name pattern]). *)
Class Externals := {
  is_supported_file_type : string → bool;
  fnmatchcase : string → string → bool;
}.

Module os.
Import PyStr.

Fixpoint entry {A} (name : string) (es : list (string * A)) : option A :=
  match es with
  | [] => None
  | (k, v) :: es' => if decide (k = name) then Some v else entry name es'
  end.

(** Path resolution over a stack of nodes: the current node first, then its
    ancestors up to the root. Every component, also an empty one or [.],
    needs a directory to be looked up in. *)
Fixpoint walk (stack : list node) (comps : list string) : option (list node) :=
  match comps with
  | [] => Some stack
  | c :: cs =>
      match stack with
      | Dir es :: up =>
          if decide (c = "" ∨ c = ".") then walk stack cs
          else if decide (c = "..") then
            walk (match up with [] => stack | _ => up end) cs
          else match entry c es with
               | Some n => walk (n :: stack) cs
               | None => None
               end
      | _ => None
      end
  end.

(** [os.stat(p)], with [None] for every [OSError]. *)
Definition stat (fs : FileSystem) (p : string) : option node :=
  if truthy p then
    start ← (if startswith p "/" then Some [root fs] else walk [root fs] (cwd fs));
    walk start (split_sep p) ≫= head
  else None.

Module path.
Definition exists_ (fs : FileSystem) (p : string) : bool :=
  bool_decide (is_Some (stat fs p)).
Definition isdir (fs : FileSystem) (p : string) : bool :=
  match stat fs p with Some (Dir _) => true | _ => false end.
Definition isfile (fs : FileSystem) (p : string) : bool :=
  match stat fs p with Some File => true | _ => false end.
End path.

Definition is_dir_node (n : node) : bool :=
  match n with Dir _ => true | File => false end.

(** [os.scandir(p)]: names and nodes in listing order, [None] for [OSError]. *)
Definition scandir (fs : FileSystem) (p : string) : option (list (string * node)) :=
  match stat fs p with
  | Some (Dir es) => Some es
  | _ => None
  end.

End os.

(** ** [glob.glob] (not recursive, hidden names not included) *)

Module glob_.
Import PyStr.

Definition has_magic (s : string) : bool :=
  existsb (λ a, bool_decide (a = "*"%char ∨ a = "?"%char ∨ a = "["%char)) (chars s).

Definition ishidden (name : string) : bool := startswith name ".".

Definition listdir (fs : FileSystem) (dirname : string) (dironly : bool) : list string :=
  match os.scandir fs (if truthy dirname then dirname else ".") with
  | Some es =>
      (filter (λ e, dironly = false ∨ os.is_dir_node e.2 = true) es).*1
  | None => []
  end.

Definition join_ (dirname basename : string) : string :=
  if negb (truthy dirname) || negb (truthy basename)
  then (if truthy dirname then dirname else basename)
  else posixpath.join dirname basename.

Section Glob.
Context `{Externals}.

Definition glob1 (fs : FileSystem) (dirname pattern : string) (dironly : bool)
  : list string :=
  let names := listdir fs dirname dironly in
  let names := if ishidden pattern then names
               else filter (λ x, ishidden x = false) names in
  filter (λ x, fnmatchcase x pattern = true) names.

Definition glob0 (fs : FileSystem) (dirname basename : string) (dironly : bool)
  : list string :=
  if truthy basename then
    (if os.path.exists_ fs (join_ dirname basename) then [basename] else [])
  else
    (if os.path.isdir fs dirname then [basename] else []).

(** [_iglob]: the directory part is expanded first when it holds a pattern
    itself. The recursion is on a strictly shorter path name; [fuel] bounds
    it (see [iglob_fuel_enough] below). *)
Fixpoint iglob (fuel : nat) (fs : FileSystem) (pathname : string) (dironly : bool)
  : list string :=
  match fuel with
  | 0 => []
  | S fuel' =>
      let '(dirname, basename) := posixpath.split pathname in
      if negb (has_magic pathname) then
        if truthy basename then
          (if os.path.exists_ fs pathname then [pathname] else [])
        else
          (if os.path.isdir fs dirname then [pathname] else [])
      else if negb (truthy dirname) then
        glob1 fs "" basename dironly
      else
        let dirs :=
          if bool_decide (dirname ≠ pathname) && has_magic dirname
          then iglob fuel' fs dirname true
          else [dirname] in
        let glob_in_dir := if has_magic basename then glob1 else glob0 in
        d ← dirs;
        posixpath.join d <$> glob_in_dir fs d basename dironly
  end.

Definition glob (fs : FileSystem) (pathname : string) : list string :=
  iglob (S (String.length pathname)) fs pathname false.

End Glob.
End glob_.

(** ** Exceptions, log records and the effect of a call *)

Inductive exn : Type :=
  | MS2RescoreConfigurationError (msg : string)
  | SpectrumParsingError (msg : string)
  | AttributeError (msg : string).

(** [logger.warning(fmt, *args)]. *)
Record LogRecord := Warning { log_fmt : string; log_args : list string }.

Inductive result (A : Type) : Type :=
  | Return (a : A)
  | Raise (e : exn).
Arguments Return {A} a.
Arguments Raise {A} e.

(** A call logs records and then returns or raises; what was logged before an
    exception stays logged. *)
Record M (A : Type) := mkM { logged : list LogRecord; outcome : result A }.
Arguments mkM {A} logged outcome.
Arguments logged {A} m.
Arguments outcome {A} m.

Definition raise {A} (e : exn) : M A := mkM [] (Raise e).
Definition warning (fmt : string) (args : list string) : M unit :=
  mkM [Warning fmt args] (Return ()).

Global Instance M_ret : MRet M := λ A a, mkM [] (Return a).
Global Instance M_bind : MBind M := λ A B f m,
  match outcome m with
  | Return a => mkM (logged m ++ logged (f a)) (outcome (f a))
  | Raise e => mkM (logged m) (Raise e)
  end.
Global Arguments M_ret : simpl never.
Global Arguments M_bind : simpl never.

(** ** Arguments that may be a [str], a [Path] or [None] *)

Inductive path_like : Type :=
  | PyNone
  | PyStr (s : string)
  | PyPath (p : PurePath).

Module PyObj.

(** Truth value: [None] and the empty string are falsy; a [Path] defines
    neither [__bool__] nor [__len__] and is always truthy. *)
Definition truthy (o : path_like) : bool :=
  match o with
  | PyNone => false
  | PyStr s => PyStr.truthy s
  | PyPath _ => true
  end.

Definition truthy_opt (o : option string) : bool :=
  match o with
  | None => false
  | Some s => PyStr.truthy s
  end.

(** [o.endswith(suffix)]: the attribute exists on [str] only. *)
Definition endswith (o : path_like) (suffix : string) : M bool :=
  match o with
  | PyStr s => mret (PyStr.endswith s suffix)
  | PyPath _ => raise (AttributeError "'PosixPath' object has no attribute 'endswith'")
  | PyNone => raise (AttributeError "'NoneType' object has no attribute 'endswith'")
  end.

(** [os.fspath(o)]. *)
Definition fspath (o : path_like) : string :=
  match o with
  | PyNone => ""
  | PyStr s => s
  | PyPath p => pathlib.to_str p
  end.

End PyObj.

(** ** [ms2rescore/utils.py] *)

Section Utils.
Context `{Externals}.

(** [Path(p).glob(pattern)] for a pattern of one component: the entries of
    the directory whose names match, hidden ones included, and nothing when
    [p] is no directory. [Path.is_dir], which decides that, ignores the
    [ENOENT] and [ENOTDIR] of [os.stat] and passes every other [OSError] on;
    on the trees of this model [os.stat] fails in no other way. A path beyond
    the limits of the operating system ([ENAMETOOLONG]) or below a directory
    that cannot be searched ([EACCES]), for which the real call raises, is
    outside the model (see [within_limits]). *)
Definition Path_glob (fs : FileSystem) (p : PurePath) (pattern : string)
  : list PurePath :=
  match os.scandir fs (pathlib.to_str p) with
  | Some es =>
      pathlib.child p <$> filter (λ x, fnmatchcase x pattern = true) es.*1
  | None => []
  end.

(** utils.py, lines 90-99. *)
Definition _is_minitdf (fs : FileSystem) (spectrum_file : string) : bool :=
  let files : gset PurePath :=
    list_to_set (Path_glob fs (pathlib.Path spectrum_file) "*ms2spectrum.bin") in
  let files :=
    files ∪ list_to_set (Path_glob fs (pathlib.Path spectrum_file) "*ms2spectrum.parquet") in
  bool_decide (2 ≤ size files).

Definition no_path_no_run_msg : string :=
  "Could not resolve spectrum file name: No spectrum path configured and no run name in PSM file found.".
Definition dir_no_run_msg : string :=
  "Could not resolve spectrum file name: Spectrum path is directory but no run name in PSM file found.".
Definition stem_mismatch_fmt : string :=
  "Passed spectrum path (`%s`) does not match run name found in PSM file (`%s`). Continuing with passed spectrum path.".
Definition not_existing_msg : string :=
  "Configured `spectrum_path` must be `None` or a path to an existing file or directory. If `None` or path to directory, spectrum run information should be present in the PSM file.".
Definition no_extension_msg (resolved_path : string) : string :=
  "Resolved spectrum filename ('" +:+ resolved_path +:+
  "') does not contain a supported file extension (mzML, MGF, or .d) and could not find any matching existing files.".

(** utils.py, lines 34-72: the value of [resolved_path] before the
    extension is matched. *)
Definition candidate (fs : FileSystem) (configured_path : path_like)
    (run_name : option string) : M string :=
  if negb (PyObj.truthy configured_path) then
    if PyObj.truthy_opt run_name then
      mret (posixpath.join "." (default "" run_name))
    else raise (MS2RescoreConfigurationError no_path_no_run_msg)
  else
    ends_d ← PyObj.endswith configured_path ".d";
    let configured_path := PyObj.fspath configured_path in
    let is_bruker_dir := ends_d || _is_minitdf fs configured_path in
    if os.path.isdir fs configured_path && negb is_bruker_dir then
      if PyObj.truthy_opt run_name then
        mret (posixpath.join configured_path (default "" run_name))
      else raise (MS2RescoreConfigurationError dir_no_run_msg)
    else if os.path.isfile fs configured_path
            || (os.path.isdir fs configured_path && is_bruker_dir) then
      (if PyObj.truthy_opt run_name
          && bool_decide (pathlib.stem (pathlib.Path configured_path)
                          ≠ pathlib.stem (pathlib.Path (default "" run_name)))
       then warning stem_mismatch_fmt [configured_path; default "" run_name]
       else mret ());;
      mret configured_path
    else raise (MS2RescoreConfigurationError not_existing_msg).

(** utils.py, lines 76-85: the [for ... else] loop over the glob matches.
    [resolved_path] is rebound only when the loop breaks. *)
Fixpoint first_supported (resolved_path : string) (filenames : list string)
  : M string :=
  match filenames with
  | [] => raise (MS2RescoreConfigurationError (no_extension_msg resolved_path))
  | filename :: rest =>
      if is_supported_file_type filename then mret filename
      else first_supported resolved_path rest
  end.

(** utils.py, lines 74-87. *)
Definition match_extension (fs : FileSystem) (resolved_path : string) : M PurePath :=
  resolved_path ←
    (if negb (is_supported_file_type resolved_path)
        || negb (os.path.exists_ fs resolved_path)
     then first_supported resolved_path (glob_.glob fs (resolved_path +:+ "*"))
     else mret resolved_path);
  mret (pathlib.Path resolved_path).

(** utils.py, lines 19-87. *)
Definition infer_spectrum_path (fs : FileSystem) (configured_path : path_like)
    (run_name : option string) : M PurePath :=
  resolved_path ← candidate fs configured_path run_name;
  match_extension fs resolved_path.

End Utils.

(** What the properties below use of [fnmatch]: a pattern made of a literal
    (no [*], [?] or bracket) followed or preceded by one star matches exactly
    the names that start, respectively end, with the literal. *)
Class FnmatchLaws `{Externals} : Prop := {
  fnmatch_literal_star name lit :
    glob_.has_magic lit = false →
    fnmatchcase name (lit +:+ "*") = PyStr.startswith name lit;
  fnmatch_star_literal name lit :
    glob_.has_magic lit = false →
    fnmatchcase name ("*" +:+ lit) = PyStr.endswith name lit;
}.

(** ** A concrete instance of the externals

    A matcher for patterns of literals, [?] and [*] (bracket expressions are
    not interpreted), and a reader that supports the extensions named in the
    error message of [infer_spectrum_path]. *)

Module Sample.
Import PyStr.

Fixpoint wildcard (pat : list ascii) : list ascii → bool :=
  match pat with
  | [] => λ name, match name with [] => true | _ => false end
  | c :: pat' =>
      if decide (c = "*"%char) then
        fix star (name : list ascii) : bool :=
          wildcard pat' name
          || match name with [] => false | _ :: name' => star name' end
      else if decide (c = "?"%char) then
        λ name, match name with [] => false | _ :: name' => wildcard pat' name' end
      else
        λ name, match name with
                | [] => false
                | a :: name' => bool_decide (a = c) && wildcard pat' name'
                end
  end.

Definition supported (path : string) : bool :=
  endswith path ".mzML" || endswith path ".mgf" || endswith path ".d".

Definition externals : Externals := {|
  is_supported_file_type := supported;
  fnmatchcase name pattern := wildcard (chars pattern) (chars name);
|}.

End Sample.

(** ** [ms2rescore/parse_spectra.py]

    The module is not among the sources; its tests are. What follows is
    modelled from the spec (sections 3, 4.3 and 4.4) and named as the tests
    name it. *)

(** Modelled from the spec: the enumeration [MSDataType] of
    [parse_spectra.py] (section 3). *)
Module MSDataType.
Inductive t : Type := retention_time | ion_mobility | precursor_mz | ms2_spectra.

Global Instance eq_dec : EqDecision t.
Proof. solve_decision. Defined.

Global Instance countable : Countable t.
Proof.
  refine (inj_countable'
    (λ x, match x with
          | retention_time => 0 | ion_mobility => 1
          | precursor_mz => 2 | ms2_spectra => 3
          end)
    (λ n, match n with
          | 0 => retention_time | 1 => ion_mobility
          | 2 => precursor_mz | _ => ms2_spectra
          end) _).
  by intros [].
Defined.
End MSDataType.

(** Modelled from the spec: the fields of a PSM that [parse_spectra.py]
    reads and writes (section 3); null is [None]. *)
Record PSM := mkPSM {
  run : string;
  spectrum_id : string;
  retention_time : option float;
  ion_mobility : option float;
  precursor_mz : option float;
}.

(** Modelled from the spec: the precursor record that the reader gives for a
    spectrum (section 3). *)
Record Precursor := mkPrecursor { mz : float; rt : float; im : float }.

(** Modelled from the spec: the external reader that [parse_spectra.py]
    calls ([get_precursor_info], section 6): for a resolved source and a run,
    the precursor record of each spectrum identifier. *)
Class Reader := {
  get_precursor_info : PurePath → string → gmap string Precursor;
}.

(** Modelled from the spec: the order in which [parse_spectra.py] visits the
    distinct runs of a batch. Section 4.3 leaves it open; only the set of
    runs is fixed. *)
Class Grouping := {
  run_order : list string → list string;
  run_order_elem runs r : r ∈ run_order runs ↔ r ∈ runs;
}.

(** Modelled from the spec: the three arrays of [_get_precursor_values]
    (section 4.3). *)
Record arrays := mkArrays { mzs : list float; rts : list float; ims : list float }.

Section ParseSpectra.
Context `{Externals} `{Reader} `{Grouping}.

(** Modelled from the spec: the sentinel of [parse_spectra.py] (section 3):
    ion mobility [0.0] means not measured. The comparison is the one of
    binary64 floats. *)
Definition sentinel : float := 0%float.
Definition is_sentinel (x : float) : bool := PrimFloat.eqb x sentinel.

(** Modelled from the spec: the message of the error for an identifier that
    the source lacks; the spec fixes that it names the identifier and the
    run, not its wording. *)
Definition missing_spectrum_msg (spectrum_id run_name : string) : string :=
  "Spectrum '" +:+ spectrum_id +:+ "' not found in run '" +:+ run_name +:+ "'".

(** Modelled from the spec: the message of the error for a batch that needs
    extraction without a spectrum path. *)
Definition path_required_msg : string := "Spectrum path must be provided".

(** Modelled from the spec: (section 4.3) the record of a PSM written at the
    PSM's position. *)
Definition store (i : nat) (p : Precursor) (a : arrays) : arrays :=
  mkArrays (<[i := mz p]> (mzs a)) (<[i := rt p]> (rts a)) (<[i := im p]> (ims a)).

(** Modelled from the spec: (section 4.3) the look-ups of one run. The PSMs
    of the run are visited in batch order, [i] is the position of the next
    one; the first identifier that the map lacks raises. *)
Fixpoint lookup_run (precursors : gmap string Precursor) (run_name : string)
    (i : nat) (psms : list PSM) (a : arrays) : M arrays :=
  match psms with
  | [] => mret a
  | psm :: rest =>
      if decide (run psm = run_name) then
        match precursors !! spectrum_id psm with
        | Some p => lookup_run precursors run_name (S i) rest (store i p a)
        | None =>
            raise (SpectrumParsingError
                     (missing_spectrum_msg (spectrum_id psm) run_name))
        end
      else lookup_run precursors run_name (S i) rest a
  end.

(** Modelled from the spec: (section 4.3) one run after the other: resolve
    its source, read its precursor map, look its PSMs up. *)
Fixpoint extract_runs (fs : FileSystem) (psm_list : list PSM)
    (spectrum_root : path_like) (runs : list string) (a : arrays) : M arrays :=
  match runs with
  | [] => mret a
  | run_name :: rest =>
      source ← infer_spectrum_path fs spectrum_root (Some run_name);
      a ← lookup_run (get_precursor_info source run_name) run_name 0 psm_list a;
      extract_runs fs psm_list spectrum_root rest a
  end.

(** Modelled from the spec: [parse_spectra._get_precursor_values] (section
    4.3), which is not among the sources. The third argument of the
    contract takes no part in the algorithm the spec gives. *)
Definition _get_precursor_values (fs : FileSystem) (psm_list : list PSM)
    (spectrum_root : path_like) (override : option string)
  : M (list float * list float * list float) :=
  let blank := replicate (length psm_list) nan in
  a ← extract_runs fs psm_list spectrum_root
        (run_order (run <$> psm_list)) (mkArrays blank blank blank);
  mret (mzs a, rts a, ims a).

(** Modelled from the spec: (section 4.4, step 1) a value that is not null,
    and one that is neither null nor the sentinel. *)
Definition present (v : option float) : bool :=
  match v with Some _ => true | None => false end.
Definition measured (v : option float) : bool :=
  match v with Some x => negb (is_sentinel x) | None => false end.

Definition only_if (b : bool) (c : MSDataType.t) : gset MSDataType.t :=
  if b then {[ c ]} else ∅.

(** Modelled from the spec: (section 4.4, step 1). *)
Definition already_available (psm_list : list PSM) : gset MSDataType.t :=
  only_if (forallb (λ psm, present (retention_time psm)) psm_list)
          MSDataType.retention_time
  ∪ only_if (forallb (λ psm, measured (ion_mobility psm)) psm_list)
            MSDataType.ion_mobility
  ∪ only_if (forallb (λ psm, present (precursor_mz psm)) psm_list)
            MSDataType.precursor_mz.

(** Modelled from the spec: (section 4.4, steps 2 and 4) the optional
    spectrum path was given. *)
Definition supplied (spectrum_path : path_like) : bool :=
  match spectrum_path with PyNone => false | _ => true end.

(** Modelled from the spec: (section 4.4, step 5) the values written onto
    each PSM at its position. *)
Fixpoint assign (psm_list : list PSM) (mzs rts ims : list float) : list PSM :=
  match psm_list, mzs, rts, ims with
  | psm :: psms, m :: mzs', r :: rts', i :: ims' =>
      mkPSM (run psm) (spectrum_id psm) (Some r) (Some i) (Some m)
      :: assign psms mzs' rts' ims'
  | _, _, _, _ => psm_list
  end.

(** Modelled from the spec: (section 4.4, step 6) the ion mobility of a PSM
    set to null. *)
Definition clear_ion_mobility (psm : PSM) : PSM :=
  mkPSM (run psm) (spectrum_id psm) (retention_time psm) None (precursor_mz psm).

(** Modelled from the spec: [parse_spectra.add_precursor_values] (section
    4.4), which is not among the sources. The batch is mutated in place;
    here the call returns it beside the set of available categories. *)
Definition add_precursor_values (fs : FileSystem) (psm_list : list PSM)
    (required : gset MSDataType.t) (spectrum_path : path_like)
  : M (gset MSDataType.t * list PSM) :=
  let available := already_available psm_list in
  let ms2 := only_if (supplied spectrum_path) MSDataType.ms2_spectra in
  if bool_decide (required ⊆ available) then
    mret (available ∪ ms2, psm_list)
  else if negb (supplied spectrum_path) then
    raise (SpectrumParsingError path_required_msg)
  else
    '(mzs, rts, ims) ← _get_precursor_values fs psm_list spectrum_path None;
    let psm_list := assign psm_list mzs rts ims in
    let extracted : gset MSDataType.t :=
      {[ MSDataType.retention_time; MSDataType.precursor_mz ]} ∪ ms2 in
    if forallb is_sentinel ims then
      mret (extracted, clear_ion_mobility <$> psm_list)
    else
      mret (extracted ∪ {[ MSDataType.ion_mobility ]}, psm_list).

End ParseSpectra.

(** The fixtures of [tests/test_parse_spectra.py]. *)

Module Fixtures.

Definition mock_psm_list : list PSM :=
  [ mkPSM "run1" "spectrum1" None None None;
    mkPSM "run1" "spectrum2" None None None ].

Definition mock_precursor_info : gmap string Precursor :=
  {[ "spectrum1" := mkPrecursor 529.7935187324%float 10.5%float 1.0%float;
     "spectrum2" := mkPrecursor 651.83%float 12.3%float 1.2%float ]}.

Definition mock_precursor_info_missing_im : gmap string Precursor :=
  {[ "spectrum1" := mkPrecursor 529.7935187324%float 10.5%float 0.0%float;
     "spectrum2" := mkPrecursor 651.83%float 12.3%float 0.0%float ]}.

Definition mock_precursor_info_incomplete : gmap string Precursor :=
  {[ "spectrum1" := mkPrecursor 529.7935187324%float 10.5%float 1.0%float ]}.

(** A working directory in which [test_data] holds the spectrum file of
    [run1], next to a plain directory, an instrument directory and a
    miniTDF folder. *)
Definition fs : FileSystem :=
  mkFS
    (Dir [("work", Dir [
       ("test_data", Dir [("notes.txt", File); ("run1.mgf", File)]);
       ("run1.mgf", File);
       ("dir", Dir [("run1.txt", File); ("run1.mzML", File)]);
       ("sample.d", Dir [("analysis.tdf", File)]);
       ("data.txt", File);
       ("tdf", Dir [("a.ms2spectrum.bin", File); ("a.ms2spectrum.parquet", File)]);
       ("half", Dir [("a.ms2spectrum.bin", File); ("readme", File)]);
       ("twice", Dir [("a.ms2spectrum.bin", File); ("b.ms2spectrum.bin", File)])
     ])])
    ["work"].

(** The batch of the tests that need no extraction. *)
Definition populated_psm_list : list PSM :=
  [ mkPSM "run1" "spectrum1" (Some 10.5%float) (Some 1.0%float) (Some 529.79%float) ].

(** The categories that the tests require. *)
Definition all_precursor_types : gset MSDataType.t :=
  {[ MSDataType.retention_time; MSDataType.ion_mobility; MSDataType.precursor_mz ]}.

Definition reader (info : gmap string Precursor) : Reader :=
  {| get_precursor_info _ _ := info |}.

Program Definition grouping : Grouping :=
  {| run_order := remove_dups |}.
Next Obligation. intros. apply elem_of_remove_dups. Qed.

End Fixtures.

(** ** The vocabulary of the properties *)

Section Vocabulary.
Context `{Externals} `{Reader}.
Import PyStr.

(** utils.py, line 45: what the call takes for an instrument directory. *)
Definition is_bruker_dir (fs : FileSystem) (configured_path : string) : bool :=
  endswith configured_path ".d" || _is_minitdf fs configured_path.

(** The record that lines 60-65 log. *)
Definition stem_warning (configured_path run_name : string) : LogRecord :=
  Warning stem_mismatch_fmt [configured_path; run_name].


(** A string without a separator. *)
Definition no_sep (s : string) : bool := forallb (λ a, negb (is_sep a)) (chars s).

(** Characters that no pattern syntax reads. *)
Definition literal (l : list ascii) : Prop :=
  Forall (λ a, a ≠ "*"%char ∧ a ≠ "?"%char ∧ a ≠ "["%char) l.

(** The names that [Path(d)] lists: those of the directory it denotes, none
    when it denotes no directory. *)
Definition dir_names (fs : FileSystem) (d : string) : list string :=
  match os.scandir fs (pathlib.to_str (pathlib.Path d)) with
  | Some es => es.*1
  | None => []
  end.

(** A name that one of the two patterns of [_is_minitdf] matches. *)
Definition minitdf_name (x : string) : Prop :=
  fnmatchcase x "*ms2spectrum.bin" = true ∨ fnmatchcase x "*ms2spectrum.parquet" = true.

(** The set [files] of [_is_minitdf]. *)
Definition minitdf_files (fs : FileSystem) (d : string) : gset PurePath :=
  list_to_set (Path_glob fs (pathlib.Path d) "*ms2spectrum.bin")
  ∪ list_to_set (Path_glob fs (pathlib.Path d) "*ms2spectrum.parquet").


(** The source of the run resolves. *)
Definition resolves (fs : FileSystem) (spectrum_root : path_like) (run_name : string) : Prop :=
  ∃ source, outcome (infer_spectrum_path fs spectrum_root (Some run_name)) = Return source.

(** The source of the PSM's run resolves and its map lacks the PSM's
    spectrum identifier. *)
Definition lacks (fs : FileSystem) (spectrum_root : path_like) (psm : PSM) : Prop :=
  ∃ source,
    outcome (infer_spectrum_path fs spectrum_root (Some (run psm))) = Return source
    ∧ get_precursor_info source (run psm) !! spectrum_id psm = None.

(** A name that a directory entry can have. *)
Definition valid_name (k : string) : bool :=
  truthy k && no_sep k && bool_decide (k ≠ "." ∧ k ≠ "..").

(** A tree all of whose entries have such names. *)
Fixpoint wf_entries (wf : node → bool) (es : list (string * node)) : bool :=
  match es with
  | [] => true
  | (k, v) :: es' => valid_name k && wf v && wf_entries wf es'
  end.

Fixpoint wf_node (n : node) : bool :=
  match n with
  | File => true
  | Dir es =>
      (fix go (es : list (string * node)) : bool :=
         match es with
         | [] => true
         | (k, v) :: es' => valid_name k && wf_node v && go es'
         end) es
  end.

Definition wf_fs (fs : FileSystem) : bool := wf_node (root fs).

(** Every name that a directory lists exists for [os.path.exists] under the
    name that [glob] gives it: no entry is a symbolic link without a target.
    A tree whose entries have proper names is of this kind
    ([wf_entries_exist] below); a real directory with a dangling link is
    not. *)
Definition entries_exist (fs : FileSystem) : Prop :=
  ∀ d x, x ∈ glob_.listdir fs d false →
    os.path.exists_ fs (if truthy d then posixpath.join d x else x) = true.

(** The bytes that the file system sees of a name, which Python encodes in
    UTF-8: one for a character below 128, two for one below 256. *)
Definition utf8_length (s : string) : nat :=
  sum_list ((λ a, if nat_of_ascii a <? 128 then 1 else 2) <$> chars s).

(** The limits of Linux on names: 255 bytes for a component, 4096 for a
    path with its terminator. *)
Definition NAME_MAX : nat := 255.
Definition PATH_MAX : nat := 4096.

(** A path that [os.stat] does not refuse for its length. When it fails on
    such a path, below directories that can all be searched, a component is
    missing or is looked up in a file. *)
Definition within_limits (p : string) : bool :=
  (utf8_length p <? PATH_MAX)
  && forallb (λ c, utf8_length c <=? NAME_MAX) (split_sep p).

(** A configured path that [glob] reads as it is spelled and that [os.stat]
    does not refuse for its length: a [str] without a pattern character that
    ends in [.d], which line 45 does not look up, or keeps within the limits.
    [None] and a [Path] object never reach the file system. *)
Definition spelled_out (configured_path : path_like) : bool :=
  match configured_path with
  | PyStr s => negb (glob_.has_magic s) && (endswith s ".d" || within_limits s)
  | _ => true
  end.

(** A run name that names no directory. *)
Definition file_name (run_name : option string) : bool :=
  match run_name with
  | Some r => no_sep r
  | None => true
  end.


(** Where the walk of a path starts, and the stack it ends with. *)
Definition start (fs : FileSystem) (p : string) : option (list node) :=
  if startswith p "/" then Some [root fs] else os.walk [root fs] (cwd fs).

Definition locate (fs : FileSystem) (p : string) : option (list node) :=
  if truthy p then start fs p ≫= λ st, os.walk st (split_sep p) else None.

(** The three values at one position, as a record. *)
Definition row (a : arrays) (i : nat) : option Precursor :=
  m ← mzs a !! i; r ← rts a !! i; k ← ims a !! i; Some (mkPrecursor m r k).

(** Position [i] holds the record of its PSM. *)
Definition filled (fs : FileSystem) (spectrum_root : path_like) (a : arrays)
    (i : nat) (psm : PSM) : Prop :=
  ∃ source p,
    outcome (infer_spectrum_path fs spectrum_root (Some (run psm))) = Return source
    ∧ get_precursor_info source (run psm) !! spectrum_id psm = Some p
    ∧ row a i = Some p.

(** Arrays of the length of the batch. *)
Definition aligned (n : nat) (a : arrays) : Prop :=
  length (mzs a) = n ∧ length (rts a) = n ∧ length (ims a) = n.

End Vocabulary.

(** A working directory in which a directory named [a*] lies next to the
    directory [ab], which holds a spectrum file. *)
Module Patterns.

Definition fs : FileSystem :=
  mkFS
    (Dir [("work", Dir [
       ("a*", Dir []);
       ("ab", Dir [("run1.mzML", File)])
     ])])
    ["work"].

End Patterns.

(** ** The update check of [ms2rescore/utils.py]

    From here on a character of a [str] is a code point below 256, one per
    character of [string]. On these code points [\d] and [0-9] match the same
    characters, and [str] values compare as [String.compare] does. *)

Module builtins.

(** The exceptions that the update check meets. [ValueError] stands for the
    class and its subclasses other than [JSONDecodeError], [OtherException]
    for every other subclass of [Exception]; [KeyboardInterrupt] and
    [SystemExit] are no instances of [Exception]. *)
Inductive exception : Type :=
  | HTTPError (code : Z)
  | URLError
  | socket_timeout
  | JSONDecodeError
  | ValueError
  | TypeError
  | AttributeError
  | ImportError
  | OtherException (name : string)
  | KeyboardInterrupt
  | SystemExit.

(** The classes that an [except] clause of [utils.py] names. *)
Module cls.
Inductive t : Type :=
  | HTTPError | URLError | socket_timeout | JSONDecodeError | ValueError | Exception.
End cls.

Definition isinstance (e : exception) (c : cls.t) : bool :=
  match c, e with
  | cls.HTTPError, HTTPError _ => true
  | cls.URLError, (HTTPError _ | URLError) => true
  | cls.socket_timeout, socket_timeout => true
  | cls.JSONDecodeError, JSONDecodeError => true
  | cls.ValueError, (JSONDecodeError | ValueError) => true
  | cls.Exception, (KeyboardInterrupt | SystemExit) => false
  | cls.Exception, _ => true
  | _, _ => false
  end.

(** How an expression completes. *)
Inductive completion (A : Type) : Type :=
  | Returns (a : A)
  | Raises (e : exception).
Arguments Returns {A} a.
Arguments Raises {A} e.

Global Instance completion_ret : MRet completion := λ A a, Returns a.
Global Instance completion_bind : MBind completion := λ A B f m,
  match m with
  | Returns a => f a
  | Raises e => Raises e
  end.

(** [try: body / except c: handler]. *)
Definition try_except {A} (body : completion A) (c : cls.t) (handler : completion A)
  : completion A :=
  match body with
  | Returns a => Returns a
  | Raises e => if isinstance e c then handler else Raises e
  end.

(** The values that [json.loads] builds. A [dict] lists its keys once. *)
Inductive object : Type :=
  | ONone
  | OBool (b : bool)
  | OInt (z : Z)
  | OFloat (f : float)
  | OStr (s : string)
  | OList (l : list object)
  | ODict (d : list (string * object)).

Definition truthy (o : object) : bool :=
  match o with
  | ONone => false
  | OBool b => b
  | OInt z => negb (z =? 0)%Z
  | OFloat f => negb (PrimFloat.eqb f 0)
  | OStr s => PyStr.truthy s
  | OList l => match l with [] => false | _ => true end
  | ODict d => match d with [] => false | _ => true end
  end.

(** [a or b]: [b] is evaluated only when [a] is falsy. *)
Definition or_else (a : object) (b : completion object) : completion object :=
  if truthy a then Returns a else b.

(** [data.get(key)]: only a [dict] has the method. *)
Definition get (data : object) (key : string) : completion object :=
  match data with
  | ODict d => Returns (default ONone (os.entry key d))
  | _ => Raises AttributeError
  end.

(** Character classes of code points below 256. *)
Definition code (a : ascii) : N := N_of_ascii a.
Definition between (lo hi : N) (a : ascii) : bool :=
  (lo <=? code a)%N && (code a <=? hi)%N.

(** [str.isspace], [str.isdecimal] and [str.isdigit] of one character: the
    superscripts one, two and three are digits without a decimal value. *)
Definition isspace (a : ascii) : bool :=
  between 9 13 a || between 28 32 a || (code a =? 133)%N || (code a =? 160)%N.
Definition isdecimal (a : ascii) : bool := between 48 57 a.
Definition isdigit_char (a : ascii) : bool :=
  isdecimal a || (code a =? 178)%N || (code a =? 179)%N || (code a =? 185)%N.

(** [c.isdigit()]. *)
Definition isdigit (c : string) : bool :=
  PyStr.truthy c && forallb isdigit_char (PyStr.chars c).

(** The characters that [lstrip(set)] removes. *)
Definition one_of (set : string) (a : ascii) : bool :=
  bool_decide (a ∈ PyStr.chars set).

(** [s.lstrip(...)], [s.rstrip(...)] and [s.strip(...)] for the characters
    that satisfy [f]. *)
Definition lstrip (f : ascii → bool) (l : list ascii) : list ascii :=
  PyStr.drop_run f l.
Definition rstrip (f : ascii → bool) (l : list ascii) : list ascii :=
  reverse (PyStr.drop_run f (reverse l)).
Definition strip (f : ascii → bool) (l : list ascii) : list ascii :=
  rstrip f (lstrip f l).

(** The value of a run of decimal digits. *)
Definition decimal_value (l : list ascii) : N :=
  foldl (λ acc a, 10 * acc + (code a - 48))%N 0%N l.

(** The length from which [int] looks at the limit of the interpreter
    ([_PY_LONG_MAX_STR_DIGITS_THRESHOLD]). *)
Definition max_str_digits_threshold : nat := 640.

End builtins.

(** What the version comparison consumes from the interpreter: the limit of
    [sys.get_int_max_str_digits()], [0] for none, and the optional package
    [packaging]: whether it can be imported, the parser [Version] ([None]
    for [InvalidVersion]) and the two comparisons of parsed versions. *)
Class Interpreter := {
  int_max_str_digits : nat;
  packaging_installed : bool;
  Version_key : Type;
  Version : string → option Version_key;
  Version_gt : Version_key → Version_key → bool;
  Version_lt : Version_key → Version_key → bool;
}.

(** [Request(url, headers=..., method=...)]. *)
Record Request := mkRequest {
  full_url : string;
  headers : list (string * string);
  method : string;
}.

(** What the update check consumes from the network and the standard
    library: the body that [urlopen(req, timeout=...)] gives when read inside
    the [with] block, [bytes.decode("utf-8", errors="replace")] and
    [json.loads]. *)
Class Http := {
  urlopen_read : Request → float → builtins.completion (list Byte.byte);
  decode_utf8_replace : list Byte.byte → string;
  json_loads : string → builtins.completion builtins.object;
}.

Module re.
Import PyStr builtins.

(** The three alternatives of the pattern
    [\d+|[A-Za-z]+|[^A-Za-z0-9]+], each a character class repeated. *)
Definition digit (a : ascii) : bool := isdecimal a.
Definition alpha (a : ascii) : bool := between 65 90 a || between 97 122 a.
Definition other (a : ascii) : bool := negb (alpha a || between 48 57 a).
Definition alternatives : list (ascii → bool) := [digit; alpha; other].

(** [re.findall] for an alternation of repeated classes: at each position the
    first alternative that matches the character takes the longest run of
    its class; a character that no alternative matches is skipped. *)
Equations? findall_chars (l : list ascii) : list string by wf (length l) lt :=
findall_chars [] := [];
findall_chars (a :: l') with List.find (λ f, f a) alternatives := {
  | Some f => of_chars (a :: take_run f l') :: findall_chars (drop_run f l');
  | None => findall_chars l' }.
Proof.
  all: simpl; try lia.
  enough (length (drop_run f l') ≤ length l') by lia.
  clear. induction l' as [|b l IH]; simpl; [lia|].
  destruct (f b); simpl; lia.
Defined.

Definition findall (s : string) : list string := findall_chars (chars s).

(** [re.search(r"[A-Za-z]", c)] as a truth value. *)
Definition search_alpha (c : string) : bool := existsb alpha (chars c).

End re.

(** ** [ms2rescore/utils.py], lines 102-221 *)

(** The values inside the tuples of [_normalize_for_tuple]. *)
Inductive atom : Type :=
  | AInt (n : Z)
  | AStr (s : string).

Module compare.
Import builtins.

(** [x == y]: values of different types are unequal. *)
Definition atom_eq (x y : atom) : bool :=
  match x, y with
  | AInt a, AInt b => (a =? b)%Z
  | AStr s, AStr t => String.eqb s t
  | _, _ => false
  end.

(** [x < y] and [x > y]: not supported between an [int] and a [str]. *)
Definition atom_lt (x y : atom) : completion bool :=
  match x, y with
  | AInt a, AInt b => Returns (a <? b)%Z
  | AStr s, AStr t => Returns (String.ltb s t)
  | _, _ => Raises TypeError
  end.
Definition atom_gt (x y : atom) : completion bool :=
  match x, y with
  | AInt a, AInt b => Returns (a >? b)%Z
  | AStr s, AStr t => Returns (String.ltb t s)
  | _, _ => Raises TypeError
  end.

(** Comparison of tuples: equality item by item; for an order the first
    pair of unequal items decides, and the lengths when there is none. *)
Fixpoint tuple_eq {A} (eq : A → A → bool) (x y : list A) : bool :=
  match x, y with
  | [], [] => true
  | a :: x', b :: y' => eq a b && tuple_eq eq x' y'
  | _, _ => false
  end.
Fixpoint tuple_lt {A} (eq : A → A → bool) (lt : A → A → completion bool)
    (x y : list A) : completion bool :=
  match x, y with
  | a :: x', b :: y' => if eq a b then tuple_lt eq lt x' y' else lt a b
  | [], _ :: _ => Returns true
  | _, [] => Returns false
  end.
Fixpoint tuple_gt {A} (eq : A → A → bool) (gt : A → A → completion bool)
    (x y : list A) : completion bool :=
  match x, y with
  | a :: x', b :: y' => if eq a b then tuple_gt eq gt x' y' else gt a b
  | _ :: _, [] => Returns true
  | [], _ => Returns false
  end.

(** The tuples of [_normalize_for_tuple] hold tuples of two values. *)
Definition item : Type := list atom.
Definition lt (x y : list item) : completion bool :=
  tuple_lt (tuple_eq atom_eq) (tuple_lt atom_eq atom_lt) x y.
Definition gt (x y : list item) : completion bool :=
  tuple_gt (tuple_eq atom_eq) (tuple_gt atom_eq atom_gt) x y.

End compare.

Section Version.
Context `{Interpreter}.
Import builtins.

(** [int(c)] for a [c] that passed [isdigit]: a character without a decimal
    value is no literal, and neither is a run longer than the limit. *)
Definition int (c : string) : completion Z :=
  let l := PyStr.chars c in
  if PyStr.truthy c && forallb isdecimal l then
    if bool_decide (max_str_digits_threshold < length l
                    ∧ 0 < int_max_str_digits ∧ int_max_str_digits < length l)
    then Raises ValueError
    else Returns (Z.of_N (decimal_value l))
  else Raises ValueError.

(** utils.py, lines 102-103. *)
Definition _strip_v (s : object) : object :=
  match s with
  | OStr s =>
      OStr (PyStr.of_chars (strip isspace (lstrip (one_of "vV") (PyStr.chars s))))
  | _ => s
  end.

(** utils.py, lines 116-123: the loop over the chunks, [norm] being the list
    built so far. *)
Fixpoint normalize_chunks (chunks : list string) (norm : list compare.item)
  : completion (list compare.item) :=
  match chunks with
  | [] => Returns norm
  | c :: rest =>
      if isdigit c then
        n ← int c;
        normalize_chunks rest (norm ++ [[AInt 0; AInt n]])
      else
        let txt := if re.search_alpha c then c else "." in
        normalize_chunks rest (norm ++ [[AInt 1; AStr txt]])
  end.

(** utils.py, lines 106-124. [re.findall] takes a [str] only. *)
Definition _normalize_for_tuple (v : object) : completion (list compare.item) :=
  match _strip_v v with
  | OStr v => normalize_chunks (re.findall v) []
  | _ => Raises TypeError
  end.

(** [Version(a)]: the parser searches its argument with a pattern, which
    takes a [str] only; [InvalidVersion] is a [ValueError]. *)
Definition Version_of (a : object) : completion Version_key :=
  match a with
  | OStr a =>
      match Version a with
      | Some v => Returns v
      | None => Raises ValueError
      end
  | _ => Raises TypeError
  end.

(** utils.py, lines 127-141. *)
Definition _compare_versions (a b : object) : completion Z :=
  let a := _strip_v a in
  let b := _strip_v b in
  try_except
    (if packaging_installed then
       va ← Version_of a;
       vb ← Version_of b;
       Returns (Z.b2z (Version_gt va vb) - Z.b2z (Version_lt va vb))%Z
     else Raises ImportError)
    cls.Exception
    (ta ← _normalize_for_tuple a;
     tb ← _normalize_for_tuple b;
     above ← compare.gt ta tb;
     below ← compare.lt ta tb;
     Returns (Z.b2z above - Z.b2z below)%Z).

End Version.

(** The dictionary that [check_for_update] returns, by its six keys. *)
Record update_info := mkInfo {
  ok : bool;
  is_update : bool;
  current_version : string;
  latest_version : builtins.object;
  html_url : builtins.object;
  error : option string;
}.

Section UpdateCheck.
Context `{Interpreter} `{Http}.
Import builtins.

Definition set_error (msg : string) (result : update_info) : update_info :=
  mkInfo (ok result) (is_update result) (current_version result)
         (latest_version result) (html_url result) (Some msg).

Definition default_repo : string := "CompOmics/ms2rescore".
Definition default_timeout_seconds : float := 2.5%float.
Definition default_user_agent : string := "ms2rescore-update-checker".

Definition no_tag_msg : string := "Latest release tag not found in API response.".
Definition network_msg : string := "Network unavailable or timed out".
Definition parse_msg : string := "Failed to parse API response".
Definition unexpected_msg : string := "Unexpected error".
Definition http_error_msg (code : Z) : string := "HTTPError " +:+ pretty code.

(** utils.py, lines 178-186. *)
Definition release_request (repo user_agent : string) : Request :=
  mkRequest ("https://api.github.com/repos/" +:+ repo +:+ "/releases/latest")
    [("Accept", "application/vnd.github+json"); ("User-Agent", user_agent)]
    "GET".

(** utils.py, lines 189-195: the tag and the page of the latest release. *)
Definition latest_release (req : Request) (timeout_seconds : float)
  : completion (object * object) :=
  raw ← urlopen_read req timeout_seconds;
  data ← (match raw with
          | [] => Returns (ODict [])
          | _ => json_loads (decode_utf8_replace raw)
          end);
  tag_name ← get data "tag_name";
  tag ← or_else tag_name (name ← get data "name"; or_else name (Returns (OStr "")));
  let latest := _strip_v tag in
  url ← get data "html_url";
  html_url ← or_else url (get data "url");
  Returns (latest, html_url).

(** utils.py, lines 201-203 and 206: the keys written after the tag was
    found. *)
Definition set_release (latest url : object) (result : update_info) : update_info :=
  mkInfo true (is_update result) (current_version result) latest url (error result).
Definition set_is_update (b : bool) (result : update_info) : update_info :=
  mkInfo (ok result) b (current_version result)
         (latest_version result) (html_url result) (error result).

(** utils.py, lines 188-207: the [try] block. The dictionary is updated in
    place, so that what was written before an exception stays written; the
    block is left by [return result] or by the exception. *)
Definition try_block (result : update_info) (req : Request) (timeout_seconds : float)
  : update_info * completion unit :=
  match latest_release req timeout_seconds with
  | Raises e => (result, Raises e)
  | Returns (latest, url) =>
      if negb (truthy latest) then (set_error no_tag_msg result, Returns ())
      else
        let result := set_release latest url result in
        match _compare_versions latest (OStr (current_version result)) with
        | Raises e => (result, Raises e)
        | Returns cmp => (set_is_update (bool_decide (cmp = 1%Z)) result, Returns ())
        end
  end.

(** utils.py, lines 209-221: the first [except] clause whose class the
    exception is an instance of. *)
Definition handle (result : update_info) (e : exception) : completion update_info :=
  if isinstance e cls.HTTPError then
    Returns (set_error (http_error_msg (match e with HTTPError code => code | _ => 0%Z end))
               result)
  else if isinstance e cls.URLError || isinstance e cls.socket_timeout then
    Returns (set_error network_msg result)
  else if isinstance e cls.JSONDecodeError || isinstance e cls.ValueError then
    Returns (set_error parse_msg result)
  else if isinstance e cls.Exception then
    Returns (set_error unexpected_msg result)
  else Raises e.

(** utils.py, lines 144-221. *)
Definition check_for_update (current_version repo : string)
    (timeout_seconds : float) (user_agent : string) : completion update_info :=
  let result := mkInfo false false current_version ONone ONone None in
  let req := release_request repo user_agent in
  let '(result, how) := try_block result req timeout_seconds in
  match how with
  | Returns _ => Returns result
  | Raises e => handle result e
  end.

End UpdateCheck.

(** Interpreters and network answers for the examples: the default limit of
    [int], without [packaging] and with a stand-in for it; an answer of the
    API with a given document, and a request that fails. *)
Module Releases.
Import builtins.

Definition no_packaging : Interpreter := {|
  int_max_str_digits := 4300;
  packaging_installed := false;
  Version_key := unit;
  Version _ := None;
  Version_gt _ _ := false;
  Version_lt _ _ := false;
|}.

(** A stand-in for [packaging] that parses plain decimal numbers only. *)
Definition plain_numbers : Interpreter := {|
  int_max_str_digits := 4300;
  packaging_installed := true;
  Version_key := N;
  Version s :=
    if PyStr.truthy s && forallb isdecimal (PyStr.chars s)
    then Some (decimal_value (PyStr.chars s)) else None;
  Version_gt x y := (y <? x)%N;
  Version_lt x y := (x <? y)%N;
|}.

Definition answer (data : object) : Http := {|
  urlopen_read _ _ := Returns [Byte.x7b; Byte.x7d];
  decode_utf8_replace _ := "{}";
  json_loads _ := Returns data;
|}.

Definition failing (e : exception) : Http := {|
  urlopen_read _ _ := Raises e;
  decode_utf8_replace _ := "";
  json_loads _ := Raises JSONDecodeError;
|}.

Definition release_999 : object :=
  ODict [("tag_name", OStr "v999.0.0");
         ("html_url", OStr "https://example.org/release/999")].

End Releases.

(** ** The vocabulary of the properties of the update check *)

Section VersionVocabulary.
Import PyStr builtins.

(** A chunk of [re.findall]: a run of characters of one alternative. *)
Definition chunk_ok (c : string) : Prop :=
  PyStr.truthy c = true
  ∧ ∃ f, f ∈ re.alternatives ∧ forallb f (chars c) = true.

(** The alternative that matches a character, and whether one alternative
    matches two characters. *)
Definition class_of (a : ascii) : ascii → bool :=
  if re.digit a then re.digit else if re.alpha a then re.alpha else re.other.
Definition same_class (a b : ascii) : bool :=
  existsb (λ f, f a && f b) re.alternatives.

(** What an item of a normalised version stands for: a number, or a text. *)
Inductive part : Type :=
  | Number (n : N)
  | Text (s : string).

Global Instance part_eq_dec : EqDecision part.
Proof. solve_decision. Defined.

Definition item_of (p : part) : compare.item :=
  match p with
  | Number n => [AInt 0; AInt (Z.of_N n)]
  | Text s => [AInt 1; AStr s]
  end.

(** The texts of a normalised version: letters only, or the separator. *)
Definition text_ok (s : string) : bool :=
  bool_decide (s = ".") || (PyStr.truthy s && forallb re.alpha (chars s)).
Definition part_ok (p : part) : bool :=
  match p with
  | Number _ => true
  | Text s => text_ok s
  end.

(** Numbers before texts, numbers by value, texts as [str] values. *)
Definition part_compare (p q : part) : comparison :=
  match p, q with
  | Number a, Number b => (a ?= b)%N
  | Number _, Text _ => Lt
  | Text _, Number _ => Gt
  | Text s, Text t => String.compare s t
  end.

Definition sign (c : comparison) : Z :=
  match c with
  | Lt => -1
  | Eq => 0
  | Gt => 1
  end.

(** The [str] that [_strip_v] gives for a [str]. *)
Definition stripped (s : string) : string :=
  of_chars (strip isspace (lstrip (one_of "vV") (chars s))).

(** The part that a chunk stands for, if [int] reads it, and the parts of a
    version. *)
Definition part_of_chunk `{Interpreter} (c : string) : option part :=
  if isdigit c then
    match int c with
    | Returns n => Some (Number (Z.to_N n))
    | Raises _ => None
    end
  else Some (Text (if re.search_alpha c then c else ".")).
Definition normal_form `{Interpreter} (s : string) : option (list part) :=
  mapM part_of_chunk (re.findall (stripped s)).

(** A run of decimal digits that [int] reads. *)
Definition numeral `{Interpreter} (d : string) : Prop :=
  PyStr.truthy d = true ∧ forallb isdecimal (chars d) = true
  ∧ (int_max_str_digits = 0 ∨ String.length d ≤ int_max_str_digits).

(** Numerals joined by dots. *)
Definition dotted (ds : list string) : string := String.concat "." ds.

(** The value of a numeral. *)
Definition value (d : string) : N := decimal_value (chars d).

(** The parts of a version of numbers joined by dots. *)
Fixpoint dotted_parts (vs : list N) : list part :=
  match vs with
  | [] => []
  | v :: vs' =>
      Number v :: match vs' with
                  | [] => []
                  | _ :: _ => Text "." :: dotted_parts vs'
                  end
  end.

End VersionVocabulary.

(** The tag and the page that [check_for_update] reads from the document
    of a release (lines 193 and 195). *)
Definition release_tag (d : list (string * builtins.object)) : builtins.object :=
  let tag_name := default builtins.ONone (os.entry "tag_name" d) in
  if builtins.truthy tag_name then tag_name
  else
    let name := default builtins.ONone (os.entry "name" d) in
    if builtins.truthy name then name else builtins.OStr "".
Definition release_page (d : list (string * builtins.object)) : builtins.object :=
  let url := default builtins.ONone (os.entry "html_url" d) in
  if builtins.truthy url then url else default builtins.ONone (os.entry "url" d).

(** * Properties *)

(** ** The effect of a call *)

Lemma bind_return {A B} (a : A) (f : A → M B) :
  (mret a ≫= f) = mkM (logged (f a)) (outcome (f a)).
Proof. reflexivity. Qed.

Lemma bind_raise {A B} (e : exn) (f : A → M B) : (raise e ≫= f) = raise e.
Proof. reflexivity. Qed.

Lemma M_eta {A} (m : M A) : mkM (logged m) (outcome m) = m.
Proof. by destruct m. Qed.

Lemma bind_return_id {A B} (a : A) (f : A → M B) : (mret a ≫= f) = f a.
Proof. rewrite bind_return. apply M_eta. Qed.

Lemma M_bind_return {A B} (a : A) (f : A → M B) :
  M_bind A B f (mkM [] (Return a)) = f a.
Proof. apply (bind_return_id a f). Qed.

Lemma outcome_bind_return {A B} (m : M A) (f : A → M B) a :
  outcome m = Return a → outcome (m ≫= f) = outcome (f a).
Proof. intros Hm. unfold mbind, M_bind. by rewrite Hm. Qed.

Lemma outcome_bind_raise {A B} (m : M A) (f : A → M B) e :
  outcome m = Raise e → outcome (m ≫= f) = Raise e.
Proof. intros Hm. unfold mbind, M_bind. by rewrite Hm. Qed.

Lemma outcome_bind_inv {A B} (m : M A) (f : A → M B) b :
  outcome (m ≫= f) = Return b →
  ∃ a, outcome m = Return a ∧ outcome (f a) = Return b.
Proof.
  unfold mbind, M_bind. destruct (outcome m) as [a|e]; simpl; [eauto | done].
Qed.

(** ** Truth values *)

Lemma truthy_nonempty (s : string) : PyStr.truthy s = true ↔ s ≠ "".
Proof. destruct s; simpl; split; congruence. Qed.

Lemma truthy_opt_Some (s : string) : s ≠ "" → PyObj.truthy_opt (Some s) = true.
Proof. intros. by apply truthy_nonempty. Qed.

(** ** What exists *)

Section FileSystemFacts.
Context (fs : FileSystem).

Lemma isdir_exists p : os.path.isdir fs p = true → os.path.exists_ fs p = true.
Proof.
  unfold os.path.isdir, os.path.exists_. by destruct (os.stat fs p) as [[]|].
Qed.

Lemma isfile_exists p : os.path.isfile fs p = true → os.path.exists_ fs p = true.
Proof.
  unfold os.path.isfile, os.path.exists_. by destruct (os.stat fs p) as [[]|].
Qed.

Lemma isfile_not_isdir p : os.path.isfile fs p = true → os.path.isdir fs p = false.
Proof.
  unfold os.path.isfile, os.path.isdir. by destruct (os.stat fs p) as [[]|].
Qed.

Lemma exists_nonempty p : os.path.exists_ fs p = true → p ≠ "".
Proof.
  unfold os.path.exists_, os.stat. by intros Hp ->.
Qed.
End FileSystemFacts.

Section UtilsFacts.
Context `{Externals}.

(** *** The two stages of [infer_spectrum_path] *)

Lemma infer_of_candidate fs configured_path run_name c :
  candidate fs configured_path run_name = mret c →
  infer_spectrum_path fs configured_path run_name = match_extension fs c.
Proof. intros Hc. unfold infer_spectrum_path. rewrite Hc. apply bind_return_id. Qed.

Lemma infer_of_candidate_raise fs configured_path run_name e :
  candidate fs configured_path run_name = raise e →
  infer_spectrum_path fs configured_path run_name = raise e.
Proof. intros Hc. unfold infer_spectrum_path. by rewrite Hc. Qed.

Lemma match_extension_as_is fs c :
  is_supported_file_type c = true → os.path.exists_ fs c = true →
  match_extension fs c = mret (pathlib.Path c).
Proof. intros Hs He. unfold match_extension. by rewrite Hs, He. Qed.

(** The loop returns the first supported name and leaves [resolved_path]
    as it was when there is none. *)
Lemma first_supported_find resolved_path filenames :
  first_supported resolved_path filenames =
  match list_find (λ f, is_supported_file_type f = true) filenames with
  | Some (_, f) => mret f
  | None => raise (MS2RescoreConfigurationError (no_extension_msg resolved_path))
  end.
Proof.
  induction filenames as [|f rest IH]; [done|]. simpl.
  destruct (is_supported_file_type f) eqn:Hf.
  - by rewrite decide_True.
  - rewrite decide_False by congruence. rewrite IH.
    by destruct (list_find _ rest) as [[]|].
Qed.

(** C3: with no configured path and no run name ([None], [None]) the call
    raises the configuration error; with no configured path and a run name
    [r] (a non-empty string) the candidate is [os.path.join(".", r)], that is
    [r] under the current directory ([./r] for a relative [r]), and the call
    goes on to match the extension of that candidate. *)
Theorem infer_without_configured_path (fs : FileSystem) (r : string) :
  infer_spectrum_path fs PyNone None
    = raise (MS2RescoreConfigurationError no_path_no_run_msg)
  ∧ (r ≠ "" →
     candidate fs PyNone (Some r) = mret (posixpath.join "." r)
     ∧ infer_spectrum_path fs PyNone (Some r)
         = match_extension fs (posixpath.join "." r)
     ∧ (PyStr.startswith r "/" = false → posixpath.join "." r = "./" +:+ r)).
Proof.
  split; [done|]. intros Hr.
  assert (candidate fs PyNone (Some r) = mret (posixpath.join "." r)) as Hc.
  { unfold candidate. simpl. by rewrite (proj2 (truthy_nonempty r) Hr). }
  split_and!; [done | by apply infer_of_candidate |].
  intros Hrel. unfold posixpath.join. by rewrite Hrel.
Qed.

(** C9: a [Path] object as configured path is truthy and has no [endswith]:
    whatever the file system and the run name, the call raises
    [AttributeError] at the instrument-directory test, having logged nothing;
    no configuration error is raised and no path is returned. *)
Theorem infer_path_object_attribute_error (fs : FileSystem) (p : PurePath)
    (run_name : option string) :
  PyObj.truthy (PyPath p) = true
  ∧ infer_spectrum_path fs (PyPath p) run_name
    = raise (AttributeError "'PosixPath' object has no attribute 'endswith'").
Proof. done. Qed.

(** C10: the empty string as configured path is falsy, as [None] is: for
    every run name the call behaves as with [None]; the candidate is the run
    name under the current directory when the run name is truthy, and the
    configuration error is raised otherwise. *)
Theorem infer_empty_string_as_none (fs : FileSystem) (run_name : option string) :
  infer_spectrum_path fs (PyStr "") run_name = infer_spectrum_path fs PyNone run_name
  ∧ candidate fs (PyStr "") run_name
    = (if PyObj.truthy_opt run_name
       then mret (posixpath.join "." (default "" run_name))
       else raise (MS2RescoreConfigurationError no_path_no_run_msg)).
Proof. done. Qed.

(** *** The branch of an existing file or instrument directory *)

Lemma candidate_configured_file fs cp run_name :
  os.path.isfile fs cp = true
  ∨ (os.path.isdir fs cp = true ∧ is_bruker_dir fs cp = true) →
  candidate fs (PyStr cp) run_name =
    ((if PyObj.truthy_opt run_name
         && bool_decide (pathlib.stem (pathlib.Path cp)
                         ≠ pathlib.stem (pathlib.Path (default "" run_name)))
      then warning stem_mismatch_fmt [cp; default "" run_name]
      else mret ());; mret cp).
Proof.
  intros Hcp.
  assert (cp ≠ "") as Hne%truthy_nonempty.
  { destruct Hcp as [?%isfile_exists|[?%isdir_exists _]]; by eapply exists_nonempty. }
  unfold candidate, is_bruker_dir in *. simpl. rewrite Hne. simpl.
  rewrite M_bind_return.
  destruct Hcp as [Hf|[Hd Hb]].
  - by rewrite (isfile_not_isdir _ _ Hf), Hf.
  - rewrite Hd, Hb. simpl. by rewrite orb_true_r.
Qed.

(** C8: a configured path with the instrument-directory extension [.d]
    that exists and is of a supported type is returned as it is when no run
    name is given, and nothing is logged; so [infer_spectrum_path("sample.d",
    None)] returns [sample.d]. *)
Theorem infer_bruker_dir_without_run_name (fs : FileSystem) (p : string) :
  PyStr.endswith p ".d" = true →
  os.path.isdir fs p = true →
  is_supported_file_type p = true →
  infer_spectrum_path fs (PyStr p) None = mret (pathlib.Path p).
Proof.
  intros Hd Hdir Hs.
  rewrite (infer_of_candidate _ _ _ p).
  - apply match_extension_as_is; [done | by apply isdir_exists].
  - rewrite candidate_configured_file; [done|].
    right. split; [done|]. unfold is_bruker_dir. by rewrite Hd.
Qed.

(** C6: for a configured path that is an existing file, or an existing
    instrument directory, and a run name whose stem differs from the stem of
    the configured path, the mismatch raises nothing: exactly one warning is
    logged, the candidate is the configured path unchanged, and the call
    goes on as it does without a run name; it returns the configured path
    when that is of a supported type. *)
Theorem stem_mismatch_only_warns (fs : FileSystem) (cp rn : string) :
  os.path.isfile fs cp = true
  ∨ (os.path.isdir fs cp = true ∧ is_bruker_dir fs cp = true) →
  rn ≠ "" →
  pathlib.stem (pathlib.Path cp) ≠ pathlib.stem (pathlib.Path rn) →
  candidate fs (PyStr cp) (Some rn) = mkM [stem_warning cp rn] (Return cp)
  ∧ infer_spectrum_path fs (PyStr cp) None = match_extension fs cp
  ∧ logged (infer_spectrum_path fs (PyStr cp) (Some rn))
    = stem_warning cp rn :: logged (infer_spectrum_path fs (PyStr cp) None)
  ∧ outcome (infer_spectrum_path fs (PyStr cp) (Some rn))
    = outcome (infer_spectrum_path fs (PyStr cp) None)
  ∧ (is_supported_file_type cp = true →
     infer_spectrum_path fs (PyStr cp) (Some rn)
       = mkM [stem_warning cp rn] (Return (pathlib.Path cp))).
Proof.
  intros Hcp Hrn Hstem.
  assert (candidate fs (PyStr cp) (Some rn) = mkM [stem_warning cp rn] (Return cp)) as Hc.
  { rewrite candidate_configured_file by done.
    rewrite truthy_opt_Some by done. simpl. by rewrite bool_decide_true. }
  assert (infer_spectrum_path fs (PyStr cp) None = match_extension fs cp) as Hn.
  { apply infer_of_candidate. by rewrite candidate_configured_file. }
  split_and!; [done..| | |].
  - rewrite Hn. unfold infer_spectrum_path. by rewrite Hc.
  - rewrite Hn. unfold infer_spectrum_path. by rewrite Hc.
  - intros Hs.
    assert (match_extension fs cp = mret (pathlib.Path cp)) as Hm.
    { apply match_extension_as_is; [done|].
      by destruct Hcp as [?%isfile_exists|[?%isdir_exists _]]. }
    unfold infer_spectrum_path, mbind at 1, M_bind at 1.
    rewrite Hc. simpl. by rewrite Hm.
Qed.

(** X2: a configured path that is a non-empty string and neither an existing
    file nor an existing directory raises the configuration error of lines
    68-72, whatever the run name, when it ends in [.d], so that line 45 does
    not look it up, or keeps within the limits of the operating system on
    names, on a file system whose directories can all be searched: there
    [Path.glob] in [_is_minitdf] finds the path missing and yields nothing.
    (For a longer name, or below a directory that cannot be searched,
    [Path.glob] raises [OSError] instead; the trees of the model have
    neither.) *)
Theorem infer_configured_path_not_existing (fs : FileSystem) (cp : string)
    (run_name : option string) :
  cp ≠ "" →
  PyStr.endswith cp ".d" = true ∨ within_limits cp = true →
  os.path.isfile fs cp = false →
  os.path.isdir fs cp = false →
  infer_spectrum_path fs (PyStr cp) run_name
    = raise (MS2RescoreConfigurationError not_existing_msg).
Proof.
  intros Hne%truthy_nonempty _ Hf Hd. apply infer_of_candidate_raise.
  unfold candidate. simpl. rewrite Hne. simpl.
  rewrite M_bind_return. by rewrite Hd, Hf.
Qed.

(** *** Matching the extension *)

Lemma no_extension_msg_names resolved_path :
  ∃ before after, no_extension_msg resolved_path = before +:+ resolved_path +:+ after.
Proof. by eexists _, _. Qed.

(** C7: when the candidate is not both of a supported type and existing,
    the call globs [candidate*] and returns the first match, in the order of
    the glob, that is of a supported type; when no match is, it raises the
    configuration error whose message quotes the candidate. What was logged
    while the candidate was computed stays logged. *)
Theorem infer_globs_unresolved_candidate (fs : FileSystem)
    (configured_path : path_like) (run_name : option string) (c : string) :
  outcome (candidate fs configured_path run_name) = Return c →
  is_supported_file_type c && os.path.exists_ fs c = false →
  infer_spectrum_path fs configured_path run_name =
    mkM (logged (candidate fs configured_path run_name))
      match list_find (λ f, is_supported_file_type f = true)
                      (glob_.glob fs (c +:+ "*")) with
      | Some (_, f) => Return (pathlib.Path f)
      | None => Raise (MS2RescoreConfigurationError
                  ("Resolved spectrum filename ('" +:+ c +:+
                   "') does not contain a supported file extension (mzML, MGF, or .d) and could not find any matching existing files."))
      end.
Proof.
  intros Hc Hun.
  unfold infer_spectrum_path, mbind at 1, M_bind at 1. rewrite Hc.
  unfold match_extension.
  rewrite <- negb_andb, Hun. simpl. rewrite first_supported_find.
  destruct (list_find _ _) as [[i f]|]; simpl; by rewrite app_nil_r.
Qed.

End UtilsFacts.

(** ** Strings as lists of characters *)

Section StringFacts.
Import PyStr.

Lemma chars_app (a b : string) : chars (a +:+ b) = chars a ++ chars b.
Proof. induction a as [|x a IH]; simpl; [done|]. unfold chars in *. simpl. by f_equal. Qed.

Lemma of_chars_chars (s : string) : of_chars (chars s) = s.
Proof. apply string_of_list_ascii_of_string. Qed.

Lemma chars_of_chars (l : list ascii) : chars (of_chars l) = l.
Proof. apply list_ascii_of_string_of_list_ascii. Qed.

Lemma chars_inj (a b : string) : chars a = chars b → a = b.
Proof. intros E. by rewrite <- (of_chars_chars a), <- (of_chars_chars b), E. Qed.

Lemma length_chars (s : string) : length (chars s) = String.length s.
Proof. induction s; simpl; unfold chars in *; simpl; by f_equal. Qed.

Lemma truthy_chars (s : string) : truthy s = true ↔ chars s ≠ [].
Proof. by destruct s. Qed.

Lemma prefixb_spec (p l : list ascii) : prefixb p l = true ↔ p `prefix_of` l.
Proof.
  revert l. induction p as [|a p IH]; intros l; simpl.
  - split; [intros _; apply prefix_nil | done].
  - destruct l as [|b l].
    + split; [done | intros Hp; by apply prefix_nil_inv in Hp].
    + case_decide as Hab; subst.
      * rewrite IH. split; [apply prefix_cons | apply prefix_cons_inv_2].
      * split; [done | intros Hp; by apply prefix_cons_inv_1 in Hp].
Qed.

Lemma prefixb_app (p l : list ascii) : prefixb p (p ++ l) = true.
Proof. apply prefixb_spec. by apply prefix_app_r. Qed.



Lemma drop_run_suffix f (l : list ascii) : drop_run f l `suffix_of` l.
Proof.
  induction l as [|x l IH]; simpl; [done|]. destruct (f x); [|done].
  by apply suffix_cons_r.
Qed.

Lemma forallb_reverse {A} (f : A → bool) (l : list A) :
  forallb f (reverse l) = forallb f l.
Proof.
  apply eq_true_iff_eq. rewrite !forallb_forall.
  split; intros Hl x Hx; apply Hl; apply list_elem_of_In;
    apply list_elem_of_In in Hx; by apply elem_of_reverse.
Qed.




Lemma no_sep_not_absolute r : r ≠ "" → no_sep r = true → startswith r "/" = false.
Proof.
  unfold no_sep, startswith. destruct r as [|a r]; [done|]. intros _. simpl.
  intros [Ha _]%andb_prop. case_decide; [subst|done]. done.
Qed.


Lemma has_magic_app a b :
  glob_.has_magic (a +:+ b) = glob_.has_magic a || glob_.has_magic b.
Proof. unfold glob_.has_magic. by rewrite chars_app, existsb_app. Qed.


End StringFacts.

(** ** [glob] *)

Section GlobFacts.
Context `{Externals}.
Import PyStr.

Lemma split_head_prefix p : chars (posixpath.split p).1 `prefix_of` chars p.
Proof.
  unfold posixpath.split. simpl. rewrite chars_of_chars.
  set (head := reverse (drop_run _ (reverse (chars p)))).
  assert (head `prefix_of` chars p) as Hhead.
  { apply prefix_suffix_reverse. unfold head. rewrite reverse_involutive.
    apply drop_run_suffix. }
  destruct (forallb is_sep head); [done|].
  etrans; [|exact Hhead]. apply prefix_suffix_reverse.
  unfold rstrip_sep. rewrite reverse_involutive. apply drop_run_suffix.
Qed.

Lemma split_head_shorter p :
  (posixpath.split p).1 ≠ p →
  String.length (posixpath.split p).1 < String.length p.
Proof.
  intros Hne. rewrite <- !length_chars.
  pose proof (split_head_prefix p) as Hp.
  pose proof (prefix_length _ _ Hp) as Hle.
  destruct (decide (length (chars (posixpath.split p).1) = length (chars p))) as [E|]; [|lia].
  destruct Hne. apply chars_inj. apply prefix_length_eq; [done | lia].
Qed.

Lemma iglob_step fuel fs pathname dironly :
  glob_.iglob (S fuel) fs pathname dironly =
    let '(dirname, basename) := posixpath.split pathname in
    if negb (glob_.has_magic pathname) then
      if truthy basename then
        (if os.path.exists_ fs pathname then [pathname] else [])
      else
        (if os.path.isdir fs dirname then [pathname] else [])
    else if negb (truthy dirname) then
      glob_.glob1 fs "" basename dironly
    else
      let dirs :=
        if bool_decide (dirname ≠ pathname) && glob_.has_magic dirname
        then glob_.iglob fuel fs dirname true
        else [dirname] in
      let glob_in_dir :=
        if glob_.has_magic basename then glob_.glob1 else glob_.glob0 in
      d ← dirs;
      posixpath.join d <$> glob_in_dir fs d basename dironly.
Proof. reflexivity. Qed.

(** The fuel of [glob] is never used up: any larger amount gives the same
    matches. *)
Lemma iglob_fuel_enough n m fs p dironly :
  String.length p < n → String.length p < m →
  glob_.iglob n fs p dironly = glob_.iglob m fs p dironly.
Proof.
  revert m p dironly. induction n as [|n IH]; intros [|m] p dironly Hn Hm; try lia.
  rewrite !iglob_step.
  destruct (posixpath.split p) as [dirname basename] eqn:Hsplit.
  destruct (negb (glob_.has_magic p)); [done|].
  destruct (negb (truthy dirname)); [done|].
  destruct (bool_decide (dirname ≠ p)) eqn:Hne; simpl; [|done].
  destruct (glob_.has_magic dirname); simpl; [|done].
  apply bool_decide_eq_true in Hne.
  pose proof (split_head_shorter p) as Hlt. rewrite Hsplit in Hlt. simpl in Hlt.
  specialize (Hlt Hne). by rewrite (IH m) by lia.
Qed.

Lemma glob_fuel fs p n :
  String.length p < n → glob_.glob fs p = glob_.iglob n fs p false.
Proof. intros. apply iglob_fuel_enough; lia. Qed.


Lemma elem_of_glob1 `{!FnmatchLaws} fs d r x :
  glob_.has_magic r = false →
  x ∈ glob_.glob1 fs d (r +:+ "*") false →
  x ∈ glob_.listdir fs d false ∧ startswith x r = true.
Proof.
  intros Hr. unfold glob_.glob1.
  rewrite list_elem_of_filter, fnmatch_literal_star by done.
  intros [Hx Hin]. split; [|done].
  destruct (glob_.ishidden _); [done|]. by apply list_elem_of_filter in Hin as [_ ?].
Qed.

End GlobFacts.

(** ** The directory that [Path(d)] denotes *)

Section PathDenotes.
Import PyStr.

Lemma split_sep_go_plain cur l :
  forallb (λ a, negb (is_sep a)) l = true →
  split_sep_go cur l = [of_chars (reverse cur ++ l)].
Proof.
  revert cur. induction l as [|a l IH]; intros cur Hl; simpl in *.
  { by rewrite app_nil_r. }
  apply andb_prop in Hl as [Ha Hl]. apply negb_true_iff in Ha. rewrite Ha.
  rewrite IH by done. by rewrite reverse_cons, <- app_assoc.
Qed.

Lemma split_sep_go_sep cur l1 l2 :
  split_sep_go cur (l1 ++ "/"%char :: l2) = split_sep_go cur l1 ++ split_sep_go [] l2.
Proof.
  revert cur. induction l1 as [|a l1 IH]; intros cur; simpl; [done|].
  destruct (is_sep a); simpl; by rewrite IH.
Qed.

Lemma split_sep_plain x : no_sep x = true → split_sep x = [x].
Proof.
  intros Hx. unfold split_sep. rewrite split_sep_go_plain by done.
  simpl. by rewrite of_chars_chars.
Qed.

Lemma split_sep_app a b : split_sep (a +:+ "/" +:+ b) = split_sep a ++ split_sep b.
Proof. unfold split_sep. rewrite !chars_app. apply split_sep_go_sep. Qed.

Lemma split_sep_go_no_sep cur l :
  forallb (λ a, negb (is_sep a)) cur = true →
  Forall (λ x, no_sep x = true) (split_sep_go cur l).
Proof.
  revert cur. induction l as [|a l IH]; intros cur Hcur; simpl.
  - constructor; [|done]. unfold no_sep. by rewrite chars_of_chars, forallb_reverse.
  - destruct (is_sep a) eqn:Ha.
    + constructor; [|by apply IH].
      unfold no_sep. by rewrite chars_of_chars, forallb_reverse.
    + apply IH. simpl. by rewrite Ha.
Qed.

Lemma split_sep_no_sep s : Forall (λ x, no_sep x = true) (split_sep s).
Proof. by apply split_sep_go_no_sep. Qed.

Lemma split_sep_joined c cs :
  Forall (λ x, no_sep x = true) (c :: cs) →
  split_sep (foldl (λ acc x, acc +:+ "/" +:+ x) c cs) = c :: cs.
Proof.
  revert c. induction cs as [|x cs IH] using rev_ind; intros c Hall.
  { simpl. apply split_sep_plain. by inversion Hall. }
  rewrite foldl_app. simpl. rewrite split_sep_app.
  apply Forall_cons in Hall as [Hc Hall]. apply Forall_app in Hall as [Hcs Hx].
  rewrite IH by (by constructor).
  rewrite split_sep_plain; [done | by inversion Hx].
Qed.

(** Steps through [.] and empty components leave the walk where it is. *)
Lemma walk_filtered stack comps stack' :
  os.walk stack comps = Some stack' →
  os.walk stack (filter (λ c, c ≠ "" ∧ c ≠ ".") comps) = Some stack'.
Proof.
  revert stack. induction comps as [|c comps IH]; intros stack; [done|].
  simpl. destruct stack as [|[|es] up]; try done.
  rewrite filter_cons. destruct (decide (c = "" ∨ c = ".")) as [Hc|Hc].
  - rewrite (decide_False (P := c ≠ "" ∧ c ≠ ".")) by naive_solver. apply IH.
  - rewrite (decide_True (P := c ≠ "" ∧ c ≠ ".")) by naive_solver.
    simpl. destruct (decide (c = "" ∨ c = ".")) as [?|_]; [done|].
    destruct (decide (c = "..")); [apply IH|].
    destruct (os.entry c es); [apply IH | done].
Qed.

Lemma walk_dot es up : os.walk (Dir es :: up) ["."] = Some (Dir es :: up).
Proof. done. Qed.

Lemma startswith_sep_split d :
  startswith d "/" = true → ∃ rest, split_sep d = "" :: rest.
Proof.
  unfold startswith, split_sep. destruct (chars d) as [|a l]; [done|].
  simpl. case_decide; [subst|done]. intros _. simpl. eauto.
Qed.

Lemma startswith_sep d :
  startswith d "/" = match chars d with a :: _ => is_sep a | [] => false end.
Proof.
  unfold startswith, is_sep. destruct (chars d) as [|a l]; [done|]. simpl.
  case_decide; subst; [done|]. by rewrite bool_decide_false by congruence.
Qed.

Lemma splitroot_startswith d :
  (startswith d "/" = false → pathlib.splitroot d = "")
  ∧ (startswith d "/" = true →
     pathlib.splitroot d = "/" ∨ pathlib.splitroot d = "//").
Proof.
  rewrite startswith_sep. unfold pathlib.splitroot.
  destruct (chars d) as [|a l]; simpl; [by split|].
  destruct (is_sep a); simpl; split; try done. intros _.
  destruct (take_run is_sep l) as [|b [|c k]]; auto.
Qed.

Lemma joined_head c cs :
  ∃ rest, foldl (λ acc x, acc +:+ "/" +:+ x) c cs = c +:+ rest.
Proof.
  revert c. induction cs as [|x cs IH]; intros c; simpl.
  - exists "". apply chars_inj. by rewrite chars_app, app_nil_r.
  - destruct (IH (c +:+ "/" +:+ x)) as [rest ->]. exists ("/" +:+ x +:+ rest).
    apply chars_inj. by rewrite !chars_app, <- !app_assoc.
Qed.

Lemma joined_relative c cs :
  c ≠ "" → no_sep c = true →
  truthy (foldl (λ acc x, acc +:+ "/" +:+ x) c cs) = true
  ∧ startswith (foldl (λ acc x, acc +:+ "/" +:+ x) c cs) "/" = false.
Proof.
  intros Hc Hs. destruct (joined_head c cs) as [rest ->].
  pose proof (no_sep_not_absolute c Hc Hs) as Hrel.
  destruct c as [|a c]; [done|]. split; [done|].
  unfold startswith in *. by rewrite chars_app.
Qed.

(** A directory is listed under the spelling that [Path] gives it. *)
Lemma stat_Path fs d es :
  os.stat fs d = Some (Dir es) →
  os.stat fs (pathlib.to_str (pathlib.Path d)) = Some (Dir es).
Proof.
  unfold os.stat. destruct (truthy d) eqn:Hd; [|done].
  destruct (splitroot_startswith d) as [Hrel Hanchor].
  unfold pathlib.Path, pathlib.to_str. simpl.
  set (parts := filter _ (split_sep d)).
  assert (Forall (λ x, no_sep x = true) parts) as Hparts.
  { apply Forall_forall. intros x [_ Hx]%list_elem_of_filter.
    by apply (proj1 (Forall_forall _ _) (split_sep_no_sep d)). }
  assert (Forall (λ x, x ≠ "") parts) as Hne.
  { apply Forall_forall. by intros x [[? _] _]%list_elem_of_filter. }
  destruct (startswith d "/") eqn:Habs.
  - (* an absolute path *)
    destruct (startswith_sep_split d Habs) as [rest Hsplit].
    simpl. rewrite Hsplit. simpl.
    destruct (root fs) as [|res] eqn:Hr; [done|]. simpl.
    intros Hw.
    assert (os.walk [Dir res] parts ≫= head = Some (Dir es)) as Hw'.
    { destruct (os.walk [Dir res] rest) as [st|] eqn:Hst; [|done].
      unfold parts. rewrite Hsplit, filter_cons, decide_False by naive_solver.
      by rewrite (walk_filtered _ _ _ Hst). }
    destruct (Hanchor eq_refl) as [-> | ->].
    all: destruct parts as [|c cs]; simpl; [exact Hw'|].
    all: change (split_sep_go [] (chars ("" +:+ ?x))) with (split_sep x).
    all: rewrite split_sep_joined by done; exact Hw'.
  - (* a relative path *)
    rewrite (Hrel eq_refl). simpl. destruct (os.walk [root fs] (cwd fs)) as [start|]; [|done]. simpl.
    destruct (os.walk start (split_sep d)) as [st|] eqn:Hst; [|done].
    intros Hhead. apply walk_filtered in Hst. fold parts in Hst.
    destruct parts as [|c cs]; simpl.
    + simpl in Hst. injection Hst as ->.
      by destruct st as [|[|es'] up].
    + apply Forall_cons in Hne as [Hc _].
      change ("" +:+ ?x) with x.
      destruct (joined_relative c cs Hc) as [-> ->]; [by inversion Hparts|].
      rewrite split_sep_joined by done.
      change (os.walk start (c :: cs) ≫= head = Some (Dir es)). by rewrite Hst.
Qed.

Lemma dir_names_scandir fs d es :
  os.scandir fs d = Some es → dir_names fs d = es.*1.
Proof.
  unfold dir_names, os.scandir.
  destruct (os.stat fs d) as [[|es']|] eqn:Hd; try done.
  intros [= ->]. by rewrite (stat_Path _ _ _ Hd).
Qed.

End PathDenotes.

(** ** The miniTDF classifier *)

Lemma size_ge_2 `{Countable A} (X : gset A) :
  2 ≤ size X ↔ ∃ x y, x ≠ y ∧ x ∈ X ∧ y ∈ X.
Proof.
  split.
  - intros Hsize.
    destruct (size_pos_elem_of X) as [x Hx]; [lia|].
    destruct (size_pos_elem_of (X ∖ {[x]})) as [y Hy].
    { rewrite size_difference by set_solver. rewrite size_singleton. lia. }
    exists x, y. set_solver.
  - intros (x & y & Hxy & Hx & Hy).
    trans (size ({[x; y]} : gset A)).
    + rewrite size_union by set_solver. by rewrite !size_singleton.
    + apply subseteq_size. set_solver.
Qed.

Section MinitdfFacts.
Context `{Externals}.
Import PyStr.

Lemma is_minitdf_size fs d : _is_minitdf fs d = bool_decide (2 ≤ size (minitdf_files fs d)).
Proof. reflexivity. Qed.

Lemma child_inj p : Inj (=) (=) (pathlib.child p).
Proof. intros x y [= E]. by apply app_inv_head in E as [= ->]. Qed.

Lemma elem_of_Path_glob fs d pattern q :
  q ∈ Path_glob fs (pathlib.Path d) pattern ↔
  ∃ x, q = pathlib.child (pathlib.Path d) x ∧ x ∈ dir_names fs d
       ∧ fnmatchcase x pattern = true.
Proof.
  unfold Path_glob, dir_names. destruct (os.scandir _ _) as [es|].
  - rewrite list_elem_of_fmap. setoid_rewrite list_elem_of_filter. naive_solver.
  - split; [by intros ?%elem_of_nil | by intros (? & _ & ?%elem_of_nil & _)].
Qed.

Lemma elem_of_minitdf_files fs d q :
  q ∈ minitdf_files fs d ↔
  ∃ x, q = pathlib.child (pathlib.Path d) x ∧ x ∈ dir_names fs d ∧ minitdf_name x.
Proof.
  unfold minitdf_files, minitdf_name.
  rewrite elem_of_union, !elem_of_list_to_set, !elem_of_Path_glob. naive_solver.
Qed.

Lemma is_minitdf_two_names fs d :
  _is_minitdf fs d = true ↔
  ∃ a b, a ≠ b ∧ a ∈ dir_names fs d ∧ b ∈ dir_names fs d
         ∧ minitdf_name a ∧ minitdf_name b.
Proof.
  rewrite is_minitdf_size, bool_decide_eq_true, size_ge_2. split.
  - intros (p & q & Hpq & (a & -> & ? & ?)%elem_of_minitdf_files
                        & (b & -> & ? & ?)%elem_of_minitdf_files).
    exists a, b. split_and!; try done. congruence.
  - intros (a & b & Hab & ? & ? & ? & ?).
    exists (pathlib.child (pathlib.Path d) a), (pathlib.child (pathlib.Path d) b).
    split_and!.
    + intros E. by apply child_inj in E.
    + apply elem_of_minitdf_files. eauto.
    + apply elem_of_minitdf_files. eauto.
Qed.

Lemma prefixb_head c p a l : prefixb (c :: p) (a :: l) = true → c = a.
Proof. simpl. by case_decide. Qed.

Lemma bin_not_parquet x :
  endswith x "ms2spectrum.bin" = true → endswith x "ms2spectrum.parquet" = true → False.
Proof.
  unfold endswith.
  vm_compute (reverse (chars "ms2spectrum.bin")).
  vm_compute (reverse (chars "ms2spectrum.parquet")).
  destruct (reverse (chars x)) as [|a l]; [done|].
  by intros <-%prefixb_head ?%prefixb_head.
Qed.

(** C5: [_is_minitdf] is true exactly when the files of the directory that
    match [*ms2spectrum.bin] or [*ms2spectrum.parquet], taken together,
    are at least two. Hence one file of each pattern makes a bundle, a single
    matching file does not, and two files of one and the same pattern do.
    The files are the entries of [d] when [d] is a directory. *)
Theorem is_minitdf_counts_matches `{!FnmatchLaws} (fs : FileSystem) (d : string) :
  (∀ es, os.scandir fs d = Some es → dir_names fs d = es.*1)
  ∧ (_is_minitdf fs d = true ↔
     ∃ a b, a ≠ b ∧ a ∈ dir_names fs d ∧ b ∈ dir_names fs d
            ∧ minitdf_name a ∧ minitdf_name b)
  ∧ (∀ a b, a ∈ dir_names fs d → b ∈ dir_names fs d →
       endswith a "ms2spectrum.bin" = true →
       endswith b "ms2spectrum.parquet" = true →
       _is_minitdf fs d = true)
  ∧ (∀ a, (∀ x, x ∈ dir_names fs d → minitdf_name x → x = a) →
       _is_minitdf fs d = false)
  ∧ (∀ a b, a ≠ b → a ∈ dir_names fs d → b ∈ dir_names fs d →
       endswith a "ms2spectrum.bin" = true →
       endswith b "ms2spectrum.bin" = true →
       _is_minitdf fs d = true).
Proof.
  assert (∀ x, endswith x "ms2spectrum.bin" = true → minitdf_name x) as Hbin.
  { intros x Hx. left. by rewrite (fnmatch_star_literal x "ms2spectrum.bin"). }
  assert (∀ x, endswith x "ms2spectrum.parquet" = true → minitdf_name x) as Hpar.
  { intros x Hx. right. by rewrite (fnmatch_star_literal x "ms2spectrum.parquet"). }
  split_and!.
  - apply dir_names_scandir.
  - apply is_minitdf_two_names.
  - intros a b Ha Hb Ea Eb. apply is_minitdf_two_names.
    exists a, b. split_and!; auto. intros ->. by eapply bin_not_parquet.
  - intros a Hone. apply not_true_is_false.
    intros (x & y & Hxy & Hx & Hy & Mx & My)%is_minitdf_two_names.
    apply Hxy. by rewrite (Hone x), (Hone y).
  - intros a b Hab Ha Hb Ea Eb. apply is_minitdf_two_names.
    exists a, b. split_and!; auto.
Qed.

End MinitdfFacts.

(** ** A configured plain directory *)

Section PlainDirectory.
Context `{Externals}.
Import PyStr.

Lemma append_assoc (a b c : string) : (a +:+ b) +:+ c = a +:+ b +:+ c.
Proof. apply chars_inj. by rewrite !chars_app, app_assoc. Qed.

Lemma match_extension_returns fs c p :
  outcome (match_extension fs c) = Return p →
  ∃ f, p = pathlib.Path f ∧ is_supported_file_type f = true
       ∧ (f = c ∧ os.path.exists_ fs c = true ∨ f ∈ glob_.glob fs (c +:+ "*")).
Proof.
  unfold match_extension.
  destruct (is_supported_file_type c) eqn:Hs, (os.path.exists_ fs c) eqn:He;
    cbn [negb orb].
  { rewrite bind_return_id. intros [= <-]. exists c. auto. }
  all: rewrite first_supported_find;
    destruct (list_find _ _) as [[i f]|] eqn:Hfind; [|done];
    rewrite bind_return_id; intros [= <-];
    apply list_find_Some in Hfind as (Hi & Hf & _);
    exists f; split_and!; [done..|]; right; by eapply list_elem_of_lookup_2.
Qed.

Lemma candidate_plain_directory fs d run_name :
  os.path.isdir fs d = true → is_bruker_dir fs d = false →
  candidate fs (PyStr d) run_name =
    if PyObj.truthy_opt run_name
    then mret (posixpath.join d (default "" run_name))
    else raise (MS2RescoreConfigurationError dir_no_run_msg).
Proof.
  intros Hd Hb.
  assert (truthy d = true) as Hne.
  { apply truthy_nonempty. eapply exists_nonempty. by apply isdir_exists. }
  unfold candidate, is_bruker_dir in *. simpl. rewrite Hne. simpl.
  rewrite M_bind_return. by rewrite Hd, Hb.
Qed.



End PlainDirectory.

(** ** What [glob] finds exists *)

Section GlobExists.
Context `{Externals}.
Import PyStr.

Lemma wf_entries_elem es k v :
  wf_entries wf_node es = true → (k, v) ∈ es → valid_name k = true ∧ wf_node v = true.
Proof.
  induction es as [|[k' v'] es IH]; simpl; [by intros _ ?%elem_of_nil|].
  intros [[Hk Hv]%andb_prop Hes]%andb_prop [[= -> ->]|Hin]%elem_of_cons; auto.
Qed.

Lemma wf_node_Dir es : wf_node (Dir es) = wf_entries wf_node es.
Proof. induction es as [|[k v] es IH]; simpl in *; [done|]. by rewrite IH. Qed.

Lemma entry_elem {A} k (es : list (string * A)) v : os.entry k es = Some v → (k, v) ∈ es.
Proof.
  induction es as [|[k' v'] es IH]; simpl; [done|].
  case_decide; subst.
  - intros [= ->]. apply list_elem_of_here.
  - intros ?. apply list_elem_of_further. auto.
Qed.

Lemma entry_listed {A} k (es : list (string * A)) : k ∈ es.*1 → is_Some (os.entry k es).
Proof.
  induction es as [|[k' v'] es IH]; simpl; [by intros ?%elem_of_nil|].
  intros [->|Hin]%elem_of_cons; [by rewrite decide_True|].
  case_decide; eauto.
Qed.

Lemma walk_wf stack comps stack' :
  Forall (λ n, wf_node n = true) stack →
  os.walk stack comps = Some stack' →
  Forall (λ n, wf_node n = true) stack'.
Proof.
  revert stack. induction comps as [|c comps IH]; intros stack Hwf; simpl.
  { by intros [= <-]. }
  destruct stack as [|[|es] up]; try done.
  destruct (decide (c = "" ∨ c = ".")); [by apply IH|].
  destruct (decide (c = "..")).
  { apply IH. destruct up; [done|]. by apply Forall_cons in Hwf as [_ ?]. }
  destruct (os.entry c es) as [v|] eqn:Hv; [|done].
  apply IH. constructor; [|done].
  apply Forall_cons in Hwf as [Hdir _]. rewrite wf_node_Dir in Hdir.
  by destruct (wf_entries_elem es c v Hdir (entry_elem _ _ _ Hv)).
Qed.

Lemma walk_app stack l1 l2 :
  os.walk stack (l1 ++ l2) = os.walk stack l1 ≫= λ st, os.walk st l2.
Proof.
  revert stack. induction l1 as [|c l1 IH]; intros stack; simpl; [done|].
  destruct stack as [|[|es] up]; try done.
  repeat case_decide; try apply IH. destruct (os.entry c es); [apply IH | done].
Qed.

Lemma stat_locate fs p : os.stat fs p = locate fs p ≫= head.
Proof.
  unfold os.stat, locate, start. destruct (truthy p); [|done].
  by destruct (if startswith p "/" then _ else _).
Qed.

Lemma start_wf fs p st :
  wf_fs fs = true → start fs p = Some st → Forall (λ n, wf_node n = true) st.
Proof.
  unfold start, wf_fs. intros Hwf. destruct (startswith p "/").
  - intros [= <-]. by constructor.
  - apply walk_wf. by constructor.
Qed.

Lemma locate_wf fs p st :
  wf_fs fs = true → locate fs p = Some st → Forall (λ n, wf_node n = true) st.
Proof.
  unfold locate. intros Hwf. destruct (truthy p); [|done].
  destruct (start fs p) as [st0|] eqn:Hst0; [|done]. simpl.
  apply walk_wf. by eapply start_wf.
Qed.

Lemma scandir_locate fs d es :
  os.scandir fs d = Some es ↔ ∃ up, locate fs d = Some (Dir es :: up).
Proof.
  unfold os.scandir. rewrite stat_locate.
  destruct (locate fs d) as [[|[|es'] up]|]; simpl.
  - split; [done | by intros (? & [=])].
  - split; [done | by intros (? & [=])].
  - split; [intros [= ->]; eauto | by intros (? & [= ->])].
  - split; [done | by intros (? & [=])].
Qed.

Lemma exists_locate fs p :
  os.path.exists_ fs p = true ↔ ∃ n st, locate fs p = Some (n :: st).
Proof.
  unfold os.path.exists_. rewrite bool_decide_eq_true, stat_locate.
  destruct (locate fs p) as [[|n st]|]; simpl.
  - split; [by intros [? [=]] | by intros (? & ? & [=])].
  - split; eauto.
  - split; [by intros [? [=]] | by intros (? & ? & [=])].
Qed.

Lemma startswith_app d x : d ≠ "" → startswith (d +:+ x) "/" = startswith d "/".
Proof.
  destruct d as [|a d]; [done|]. intros _. unfold startswith. by rewrite chars_app.
Qed.

Lemma truthy_app d x : d ≠ "" → truthy (d +:+ x) = true.
Proof. by destruct d. Qed.

Lemma start_app fs d x : d ≠ "" → start fs (d +:+ x) = start fs d.
Proof. intros Hd. unfold start. by rewrite startswith_app. Qed.

(** One more component after a located directory. *)
Lemma locate_child fs d es up k :
  locate fs d = Some (Dir es :: up) → no_sep k = true →
  locate fs (d +:+ "/" +:+ k) = os.walk (Dir es :: up) [k].
Proof.
  unfold locate. destruct (truthy d) eqn:Hd; [|done].
  apply truthy_nonempty in Hd. rewrite truthy_app, start_app by done.
  destruct (start fs d) as [st|]; [|done]. simpl. intros Hw Hk.
  by rewrite split_sep_app, walk_app, Hw, split_sep_plain.
Qed.

Lemma endswith_sep_inv d : endswith d "/" = true → ∃ d', d = d' +:+ "/".
Proof.
  unfold endswith. change (reverse (chars "/")) with ["/"%char].
  destruct (reverse (chars d)) as [|a l] eqn:Hr; [done|]. simpl.
  case_decide; [subst|done]. intros _. exists (of_chars (reverse l)).
  apply chars_inj. rewrite chars_app, chars_of_chars.
  apply (inj reverse). by rewrite reverse_app, reverse_involutive, Hr.
Qed.

Lemma locate_trailing_sep fs d' es up :
  locate fs (d' +:+ "/") = Some (Dir es :: up) →
  ∀ k, no_sep k = true →
    locate fs (d' +:+ "/" +:+ k) = os.walk (Dir es :: up) [k].
Proof.
  intros Hloc k Hk. destruct d' as [|a d'].
  { (* the root *)
    assert (split_sep ("/" +:+ k) = [""; k]) as Hs.
    { change (split_sep ("/" +:+ k)) with ("" :: split_sep k).
      by rewrite split_sep_plain. }
    revert Hloc. unfold locate, start.
    change ("" +:+ "/" +:+ k) with ("/" +:+ k). change ("" +:+ "/") with "/".
    rewrite Hs.
    change (truthy ("/" +:+ k)) with true.
    change (startswith ("/" +:+ k) "/") with true.
    simpl. destruct (root fs) as [|res]; [done|]. by intros [= -> <-]. }
  revert Hloc. unfold locate.
  rewrite !truthy_app, !start_app by done.
  destruct (start fs (String a d')) as [st|]; [|done]. simpl.
  change (String a d' +:+ "/") with (String a d' +:+ "/" +:+ "").
  rewrite !split_sep_app, !walk_app, split_sep_plain by done.
  destruct (os.walk st (split_sep (String a d'))) as [st'|]; [|done]. simpl.
  change (split_sep "") with [""]. simpl.
  destruct st' as [|[|es'] up']; try done.
  intros [= -> ->]. by rewrite split_sep_plain.
Qed.

(** An entry of a listed directory exists under the joined name, in a tree
    whose entries have proper names. *)
Lemma listed_exists fs d es k :
  wf_fs fs = true → os.scandir fs d = Some es → k ∈ es.*1 →
  os.path.exists_ fs (posixpath.join d k) = true.
Proof.
  intros Hwf (up & Hloc)%scandir_locate Hk.
  pose proof (locate_wf _ _ _ Hwf Hloc) as [Hd _]%Forall_cons.
  rewrite wf_node_Dir in Hd.
  destruct (entry_listed _ _ Hk) as [v Hv].
  destruct (wf_entries_elem _ _ _ Hd (entry_elem _ _ _ Hv)) as [Hvalid _].
  unfold valid_name in Hvalid.
  apply andb_prop in Hvalid as [[Hne Hsep]%andb_prop Hdots%bool_decide_eq_true].
  apply truthy_nonempty in Hne.
  assert (os.walk (Dir es :: up) [k] = Some (v :: Dir es :: up)) as Hwalk.
  { simpl. rewrite decide_False by naive_solver.
    rewrite decide_False by naive_solver. by rewrite Hv. }
  apply exists_locate. exists v, (Dir es :: up).
  unfold posixpath.join. rewrite no_sep_not_absolute by done.
  assert (truthy d = true) as ->.
  { unfold locate in Hloc. by destruct (truthy d). }
  simpl. destruct (endswith d "/") eqn:Hend.
  - apply endswith_sep_inv in Hend as [d' ->]. rewrite append_assoc.
    by rewrite (locate_trailing_sep _ _ _ _ Hloc).
  - by rewrite (locate_child _ _ _ _ _ Hloc).
Qed.

Lemma listed_here_exists fs es k :
  wf_fs fs = true → os.scandir fs "." = Some es → k ∈ es.*1 →
  os.path.exists_ fs k = true.
Proof.
  intros Hwf (up & Hloc)%scandir_locate Hk.
  pose proof (locate_wf _ _ _ Hwf Hloc) as [Hd _]%Forall_cons.
  rewrite wf_node_Dir in Hd.
  destruct (entry_listed _ _ Hk) as [v Hv].
  destruct (wf_entries_elem _ _ _ Hd (entry_elem _ _ _ Hv)) as [Hvalid _].
  unfold valid_name in Hvalid.
  apply andb_prop in Hvalid as [[Hne Hsep]%andb_prop Hdots%bool_decide_eq_true].
  apply exists_locate. exists v, (Dir es :: up).
  revert Hloc. unfold locate, start. rewrite Hne.
  change (truthy ".") with true. change (startswith "." "/") with false.
  destruct (os.walk [root fs] (cwd fs)) as [st|]; [|done]. simpl.
  change (split_sep ".") with ["."]. rewrite split_sep_plain by done.
  destruct st as [|[|es'] up']; try done. simpl. intros [= -> ->].
  rewrite no_sep_not_absolute by (by try apply truthy_nonempty). simpl.
  rewrite decide_False by naive_solver.
  rewrite decide_False by naive_solver. by rewrite Hv.
Qed.

Lemma elem_of_listdir fs d dironly x :
  x ∈ glob_.listdir fs d dironly →
  ∃ es, os.scandir fs (if truthy d then d else ".") = Some es ∧ x ∈ es.*1.
Proof.
  unfold glob_.listdir. destruct (os.scandir _ _) as [es|]; [|by intros ?%elem_of_nil].
  intros (e & -> & He)%list_elem_of_fmap. apply list_elem_of_filter in He as [_ He].
  exists es. split; [done|]. apply list_elem_of_fmap. eauto.
Qed.

(** The trees of the model list no name that does not exist. *)
Lemma wf_entries_exist fs : wf_fs fs = true → entries_exist fs.
Proof.
  intros Hwf d x (es & Hes & Hxes)%elem_of_listdir.
  destruct (truthy d); [by eapply listed_exists | by eapply listed_here_exists].
Qed.

Lemma listdir_dironly fs d dironly x :
  x ∈ glob_.listdir fs d dironly → x ∈ glob_.listdir fs d false.
Proof.
  unfold glob_.listdir. destruct (os.scandir _ _) as [es|]; [|done].
  intros (e & -> & [_ He]%list_elem_of_filter)%list_elem_of_fmap.
  apply list_elem_of_fmap. exists e. split; [done|].
  apply list_elem_of_filter. auto.
Qed.

Lemma glob1_exists fs d pattern dironly x :
  entries_exist fs → x ∈ glob_.glob1 fs d pattern dironly →
  os.path.exists_ fs (if truthy d then posixpath.join d x else x) = true.
Proof.
  intros Hall. unfold glob_.glob1. intros [_ Hx]%list_elem_of_filter.
  assert (x ∈ glob_.listdir fs d dironly) as Hin.
  { destruct (glob_.ishidden pattern); [done|]. by apply list_elem_of_filter in Hx as [_ ?]. }
  by eapply Hall, listdir_dironly.
Qed.

Lemma append_empty d : d +:+ "" = d.
Proof. apply chars_inj. by rewrite chars_app, app_nil_r. Qed.

Lemma isdir_scandir fs d : os.path.isdir fs d = true → ∃ es, os.scandir fs d = Some es.
Proof.
  unfold os.path.isdir, os.scandir. destruct (os.stat fs d) as [[|es]|]; eauto; done.
Qed.

Lemma glob0_exists fs d basename dironly x :
  truthy d = true → x ∈ glob_.glob0 fs d basename dironly →
  os.path.exists_ fs (posixpath.join d x) = true.
Proof.
  intros Hd. unfold glob_.glob0, glob_.join_. rewrite Hd.
  destruct (truthy basename) eqn:Hb; simpl.
  - destruct (os.path.exists_ fs _) eqn:He; [|by intros ?%elem_of_nil].
    by intros ->%list_elem_of_singleton.
  - destruct (os.path.isdir fs d) eqn:Hdir; [|by intros ?%elem_of_nil].
    destruct basename; [|done]. intros ->%list_elem_of_singleton.
    unfold posixpath.join. change (startswith "" "/") with false. rewrite Hd. simpl.
    destruct (endswith d "/").
    + rewrite append_empty. by apply isdir_exists.
    + apply isdir_scandir in Hdir as (es & (up & Hloc)%scandir_locate).
      apply exists_locate. exists (Dir es), up.
      by rewrite (locate_child _ _ _ _ _ Hloc).
Qed.

(** Every match of a pattern exists. *)
Lemma iglob_exists fuel fs pathname dironly f :
  entries_exist fs → glob_.has_magic pathname = true →
  f ∈ glob_.iglob fuel fs pathname dironly → os.path.exists_ fs f = true.
Proof.
  intros Hwf. revert pathname dironly f.
  induction fuel as [|fuel IH]; intros pathname dironly f Hmagic; [by intros ?%elem_of_nil|].
  rewrite iglob_step. destruct (posixpath.split pathname) as [dirname basename].
  rewrite Hmagic. simpl.
  destruct (truthy dirname) eqn:Hdir; simpl.
  2: { intros Hf. by apply (glob1_exists _ "") in Hf. }
  intros (d & Hf & Hd)%list_elem_of_bind.
  apply list_elem_of_fmap in Hf as (x & -> & Hx).
  assert (truthy d = true) as Htd.
  { destruct (bool_decide (dirname ≠ pathname) && glob_.has_magic dirname) eqn:Hrec.
    - apply andb_prop in Hrec as [_ Hm]. apply IH in Hd; [|done].
      apply truthy_nonempty. by eapply exists_nonempty.
    - by apply list_elem_of_singleton in Hd as ->. }
  destruct (glob_.has_magic basename).
  - apply glob1_exists in Hx; [|done]. by rewrite Htd in Hx.
  - by eapply glob0_exists.
Qed.

Lemma match_extension_returns_existing fs c p :
  entries_exist fs →
  outcome (match_extension fs c) = Return p →
  ∃ f, p = pathlib.Path f
       ∧ is_supported_file_type f = true
       ∧ os.path.exists_ fs f = true.
Proof.
  intros Hwf (f & -> & Hf & [[-> He]|Hglob])%match_extension_returns.
  { exists c. auto. }
  exists f. split_and!; [done..|].
  eapply iglob_exists; [done| |exact Hglob].
  by rewrite has_magic_app, orb_true_r.
Qed.

(** X1: on a file system in which every name that a directory lists exists
    for [os.path.exists] (no entry is a symbolic link without a target),
    whatever [infer_spectrum_path] returns is [Path(f)] for a string [f] of a
    supported type that exists. Lines 76-79 test a glob match for its type
    only, and [glob] lists a dangling link: without the hypothesis the match
    need not exist. The trees of the model have no links and meet the
    hypothesis when their entries have proper names. *)
Theorem infer_returns_existing_supported (fs : FileSystem)
    (configured_path : path_like) (run_name : option string) (p : PurePath) :
  entries_exist fs →
  outcome (infer_spectrum_path fs configured_path run_name) = Return p →
  ∃ f, p = pathlib.Path f
       ∧ is_supported_file_type f = true
       ∧ os.path.exists_ fs f = true.
Proof.
  intros Hwf (c & _ & Hp)%outcome_bind_inv.
  by apply (match_extension_returns_existing fs c).
Qed.

End GlobExists.

(** ** The result for a configured plain directory *)

Section PlainDirectoryResult.
Context `{Externals}.
Import PyStr.



End PlainDirectoryResult.

(** ** The concrete matcher obeys the laws *)

Section SampleFacts.
Import PyStr.

Lemma has_magic_literal s : glob_.has_magic s = false → literal (chars s).
Proof.
  unfold glob_.has_magic, literal. induction (chars s) as [|a l IH]; simpl; [done|].
  intros [Ha Hl]%orb_false_elim. constructor; [|by auto].
  apply bool_decide_eq_false in Ha. naive_solver.
Qed.

Lemma wildcard_cons_literal c pat name :
  c ≠ "*"%char → c ≠ "?"%char →
  Sample.wildcard (c :: pat) name =
    match name with
    | [] => false
    | a :: name' => bool_decide (a = c) && Sample.wildcard pat name'
    end.
Proof. intros ??. simpl. rewrite !decide_False by done. by destruct name. Qed.

Lemma wildcard_star pat name :
  Sample.wildcard ("*"%char :: pat) name =
    Sample.wildcard pat name
    || match name with
       | [] => false
       | _ :: name' => Sample.wildcard ("*"%char :: pat) name'
       end.
Proof. by destruct name. Qed.

Lemma wildcard_only_star name : Sample.wildcard ["*"%char] name = true.
Proof.
  induction name as [|a name IH]; [done|].
  rewrite wildcard_star, IH. apply orb_true_r.
Qed.

Lemma wildcard_literal_star lit name :
  literal lit → Sample.wildcard (lit ++ ["*"%char]) name = prefixb lit name.
Proof.
  intros Hlit. revert name.
  induction Hlit as [|c lit (? & ? & ?) _ IH]; intros name; simpl app.
  - apply wildcard_only_star.
  - rewrite wildcard_cons_literal by done. destruct name as [|a name]; [done|].
    simpl. rewrite IH. case_decide; subst.
    + by rewrite bool_decide_true.
    + by rewrite bool_decide_false by congruence.
Qed.

Lemma wildcard_literal lit name :
  literal lit → Sample.wildcard lit name = true ↔ name = lit.
Proof.
  intros Hlit. revert name.
  induction Hlit as [|c lit (? & ? & ?) _ IH]; intros name.
  - by destruct name.
  - rewrite wildcard_cons_literal by done. destruct name as [|a name]; [done|].
    rewrite andb_true_iff, bool_decide_eq_true, IH. naive_solver.
Qed.

Lemma wildcard_star_literal lit name :
  literal lit → Sample.wildcard ("*"%char :: lit) name = true ↔ lit `suffix_of` name.
Proof.
  intros Hlit. induction name as [|a name IH]; rewrite wildcard_star, orb_true_iff.
  - rewrite wildcard_literal by done. split.
    + by intros [<-|?].
    + intros ->%suffix_nil_inv. by left.
  - rewrite wildcard_literal by done. rewrite IH. split.
    + intros [<-|?]; [done | by apply suffix_cons_r].
    + intros Hs. destruct lit as [|c lit]; [right; apply suffix_nil|].
      apply suffix_cons_inv in Hs as [->|?]; auto.
Qed.

Lemma sample_laws : @FnmatchLaws Sample.externals.
Proof.
  split; intros name lit Hlit%has_magic_literal.
  - change (Sample.wildcard (chars (lit +:+ "*")) (chars name) = startswith name lit).
    rewrite chars_app. by apply wildcard_literal_star.
  - change (Sample.wildcard (chars ("*" +:+ lit)) (chars name) = endswith name lit).
    rewrite chars_app. change (chars "*" ++ chars lit) with ("*"%char :: chars lit).
    apply eq_true_iff_eq. rewrite wildcard_star_literal by done.
    unfold endswith. rewrite prefixb_spec. apply suffix_prefix_reverse.
Qed.

End SampleFacts.

(** ** The properties at work on the fixture file system *)

Section Witnesses.
Import PyStr Fixtures.
#[local] Existing Instance Sample.externals.
#[local] Existing Instance sample_laws.

Lemma infer_without_configured_path_witness :
  "run1" ≠ ""
  ∧ infer_spectrum_path fs PyNone None
      = raise (MS2RescoreConfigurationError no_path_no_run_msg)
  ∧ candidate fs PyNone (Some "run1") = mret "./run1"
  ∧ infer_spectrum_path fs PyNone (Some "run1") = mret (pathlib.Path "./run1.mgf").
Proof.
  destruct (infer_without_configured_path fs "run1") as [Hnone Hrun].
  destruct (Hrun ltac:(done)) as (Hc & Hi & Hj).
  split_and!; [done | exact Hnone | | ].
  - rewrite Hc. by rewrite Hj.
  - rewrite Hi. reflexivity.
Defined.

Lemma infer_configured_path_not_existing_witness :
  infer_spectrum_path fs (PyStr "nowhere") (Some "run1")
    = raise (MS2RescoreConfigurationError not_existing_msg)
  ∧ infer_spectrum_path fs (PyStr "gone.d") None
    = raise (MS2RescoreConfigurationError not_existing_msg).
Proof.
  split.
  - apply infer_configured_path_not_existing; [done | right | ..]; reflexivity.
  - apply infer_configured_path_not_existing; [done | left | ..]; reflexivity.
Defined.

Lemma infer_bruker_dir_without_run_name_witness :
  infer_spectrum_path fs (PyStr "sample.d") None = mret (pathlib.Path "sample.d").
Proof. apply infer_bruker_dir_without_run_name; reflexivity. Defined.

Lemma stem_mismatch_only_warns_witness :
  candidate fs (PyStr "run1.mgf") (Some "other")
    = mkM [stem_warning "run1.mgf" "other"] (Return "run1.mgf")
  ∧ logged (infer_spectrum_path fs (PyStr "run1.mgf") (Some "other"))
    = [stem_warning "run1.mgf" "other"]
  ∧ outcome (infer_spectrum_path fs (PyStr "run1.mgf") (Some "other"))
    = Return (pathlib.Path "run1.mgf").
Proof.
  destruct (stem_mismatch_only_warns fs "run1.mgf" "other") as (Hc & Hn & Hl & Ho & Hs).
  - left. reflexivity.
  - done.
  - done.
  - split_and!; [exact Hc | rewrite Hl | rewrite Ho]; reflexivity.
Defined.

Lemma infer_globs_unresolved_candidate_witness :
  infer_spectrum_path fs (PyStr "dir") (Some "run1")
    = mret (pathlib.Path "dir/run1.mzML")
  ∧ infer_spectrum_path fs (PyStr "data.txt") None
    = raise (MS2RescoreConfigurationError
        "Resolved spectrum filename ('data.txt') does not contain a supported file extension (mzML, MGF, or .d) and could not find any matching existing files.").
Proof.
  split.
  - rewrite (infer_globs_unresolved_candidate fs _ _ "dir/run1"); reflexivity.
  - rewrite (infer_globs_unresolved_candidate fs _ _ "data.txt"); reflexivity.
Defined.

Lemma is_minitdf_counts_matches_witness :
  _is_minitdf fs "tdf" = true
  ∧ _is_minitdf fs "half" = false
  ∧ _is_minitdf fs "twice" = true.
Proof.
  split_and!.
  - destruct (is_minitdf_counts_matches fs "tdf") as (Hnames & _ & Hboth & _).
    rewrite (Hnames _ eq_refl) in Hboth.
    apply (Hboth "a.ms2spectrum.bin" "a.ms2spectrum.parquet");
      [set_solver | set_solver | reflexivity..].
  - destruct (is_minitdf_counts_matches fs "half") as (Hnames & _ & _ & Hone & _).
    rewrite (Hnames _ eq_refl) in Hone.
    apply (Hone "a.ms2spectrum.bin").
    intros x [->|[->|[]%elem_of_nil]%elem_of_cons]%elem_of_cons; [done|].
    by intros [?|?].
  - destruct (is_minitdf_counts_matches fs "twice") as (Hnames & _ & _ & _ & Htwo).
    rewrite (Hnames _ eq_refl) in Htwo.
    apply (Htwo "a.ms2spectrum.bin" "b.ms2spectrum.bin");
      [done | set_solver | set_solver | reflexivity..].
Defined.

Lemma infer_returns_existing_supported_witness :
  entries_exist fs
  ∧ ∃ f, pathlib.Path "dir/run1.mzML" = pathlib.Path f
         ∧ is_supported_file_type f = true
         ∧ os.path.exists_ fs f = true.
Proof.
  assert (entries_exist fs) as Hall by (apply wf_entries_exist; reflexivity).
  split; [exact Hall|].
  apply (infer_returns_existing_supported fs (PyStr "dir") (Some "run1"));
    [exact Hall | reflexivity].
Defined.



End Witnesses.

(** ** Precursor extraction *)

Section ExtractionFacts.
Context `{Externals} `{Reader} `{Grouping}.

Lemma store_aligned n i p a : aligned n a → aligned n (store i p a).
Proof. unfold aligned, store. simpl. by rewrite !length_insert. Qed.

(** The look-ups of one run log nothing; they end with the arrays or with the
    error for the first PSM of the run that the map lacks. *)
Lemma lookup_run_cases precursors run_name i psms a :
  (∃ a', lookup_run precursors run_name i psms a = mret a'
         ∧ (∀ n, aligned n a → aligned n a')
         ∧ ∀ psm, psm ∈ psms → run psm = run_name →
             is_Some (precursors !! spectrum_id psm))
  ∨ (∃ psm, psm ∈ psms ∧ run psm = run_name
            ∧ precursors !! spectrum_id psm = None
            ∧ lookup_run precursors run_name i psms a
              = raise (SpectrumParsingError
                         (missing_spectrum_msg (spectrum_id psm) run_name))).
Proof.
  revert i a. induction psms as [|psm psms IH]; intros i a; simpl.
  { left. exists a. split_and!; [done..|]. by intros ? ?%elem_of_nil. }
  destruct (decide (run psm = run_name)) as [Hrun|Hrun].
  - destruct (precursors !! spectrum_id psm) as [p|] eqn:Hp.
    + destruct (IH (S i) (store i p a)) as [(a' & -> & Hal & Hall)|(q & ? & ? & ? & ->)].
      * left. exists a'. split_and!; [done| |].
        -- intros n Hn. by apply Hal, store_aligned.
        -- intros q [->|?]%elem_of_cons ?; eauto.
      * right. exists q. split_and!; try done. by apply list_elem_of_further.
    + right. exists psm. split_and!; try done. apply list_elem_of_here.
  - destruct (IH (S i) a) as [(a' & -> & Hal & Hall)|(q & ? & ? & ? & ->)].
    + left. exists a'. split_and!; [done..|].
      intros q [->|?]%elem_of_cons ?; [done | eauto].
    + right. exists q. split_and!; try done. by apply list_elem_of_further.
Qed.

(** A batch whose runs all succeed: every visited run resolved and its map
    holds the identifiers of all its PSMs. *)
Lemma extract_runs_returns fs psms spectrum_root runs a a' :
  outcome (extract_runs fs psms spectrum_root runs a) = Return a' →
  (∀ n, aligned n a → aligned n a')
  ∧ ∀ psm, psm ∈ psms → run psm ∈ runs → ¬ lacks fs spectrum_root psm.
Proof.
  revert a. induction runs as [|r runs IH]; intros a; simpl.
  { intros [= <-]. split; [done|]. by intros ? _ ?%elem_of_nil. }
  intros (source & Hsrc & Hrest)%outcome_bind_inv.
  destruct (lookup_run_cases (get_precursor_info source r) r 0 psms a)
    as [(a1 & Hlook & Hal & Hall)|(q & _ & _ & _ & Hlook)]; rewrite Hlook in Hrest.
  - rewrite bind_return_id in Hrest. apply IH in Hrest as [Hal' Hrest].
    split; [by auto|].
    intros psm Hpsm [<-|Hin]%elem_of_cons; [|by auto].
    intros (source' & Hsrc' & Hnone). rewrite Hsrc in Hsrc'. injection Hsrc' as <-.
    destruct (Hall psm Hpsm eq_refl) as [p Hp]. congruence.
  - by rewrite bind_raise in Hrest.
Qed.

(** With every run resolving, a batch that holds a PSM whose identifier its
    source lacks ends with the error for such a PSM. *)
Lemma extract_runs_raises fs psms spectrum_root runs a :
  (∀ r, r ∈ runs → resolves fs spectrum_root r) →
  (∃ psm, psm ∈ psms ∧ run psm ∈ runs ∧ lacks fs spectrum_root psm) →
  ∃ psm, psm ∈ psms ∧ lacks fs spectrum_root psm
    ∧ outcome (extract_runs fs psms spectrum_root runs a)
      = Raise (SpectrumParsingError
                 (missing_spectrum_msg (spectrum_id psm) (run psm))).
Proof.
  revert a. induction runs as [|r runs IH]; intros a Hres (psm & Hpsm & Hrun & Hlacks).
  { by apply elem_of_nil in Hrun. }
  destruct (Hres r) as [source Hsrc]; [apply list_elem_of_here|].
  simpl. rewrite (outcome_bind_return _ _ _ Hsrc).
  destruct (lookup_run_cases (get_precursor_info source r) r 0 psms a)
    as [(a1 & Hlook & _ & Hall)|(q & Hq & Hqr & Hnone & Hlook)]; rewrite Hlook.
  - rewrite bind_return_id. apply IH.
    { intros r' ?. apply Hres. by apply list_elem_of_further. }
    exists psm. split_and!; [done| |done].
    apply elem_of_cons in Hrun as [<-|?]; [|done].
    destruct Hlacks as (source' & Hsrc' & Hnone'). rewrite Hsrc in Hsrc'.
    injection Hsrc' as <-. destruct (Hall psm Hpsm eq_refl) as [p Hp]. congruence.
  - exists q. rewrite bind_raise. subst r. split_and!; [done| |done].
    by exists source.
Qed.

(** C2: extraction is fail-fast. When a PSM of the batch has a spectrum
    identifier that the precursor map of its run lacks, the call returns no
    arrays at all; and when the source of every run of the batch resolves, it
    raises [SpectrumParsingError] for such a PSM, naming its identifier and
    its run. *)
Theorem get_precursor_values_fail_fast (fs : FileSystem) (psm_list : list PSM)
    (spectrum_root : path_like) (override : option string) :
  (∃ psm, psm ∈ psm_list ∧ lacks fs spectrum_root psm) →
  (∀ values,
     outcome (_get_precursor_values fs psm_list spectrum_root override)
       ≠ Return values)
  ∧ ((∀ psm, psm ∈ psm_list → resolves fs spectrum_root (run psm)) →
     ∃ psm, psm ∈ psm_list ∧ lacks fs spectrum_root psm
       ∧ outcome (_get_precursor_values fs psm_list spectrum_root override)
         = Raise (SpectrumParsingError
                    (missing_spectrum_msg (spectrum_id psm) (run psm)))).
Proof.
  intros (psm & Hpsm & Hlacks).
  assert (run psm ∈ run_order (run <$> psm_list)) as Hrun.
  { apply run_order_elem, list_elem_of_fmap. eauto. }
  unfold _get_precursor_values. split.
  - intros values (a & Ha & _)%outcome_bind_inv.
    apply extract_runs_returns in Ha as [_ Ha]. by eapply Ha.
  - intros Hres.
    edestruct (extract_runs_raises fs psm_list spectrum_root
                 (run_order (run <$> psm_list))) as (q & Hq & Hql & Hraise).
    + intros r Hr. apply (proj1 (run_order_elem _ _)) in Hr.
      apply list_elem_of_fmap in Hr as (q & -> & Hq). by apply Hres.
    + exists psm. eauto.
    + exists q. split_and!; [done..|]. by apply outcome_bind_raise.
Qed.

End ExtractionFacts.

(** ** The arrays follow the order of the batch *)

Section BatchOrder.
Context `{Externals} `{Reader} `{Grouping}.

Lemma row_store_eq n i p a :
  aligned n a → i < n → row (store i p a) i = Some p.
Proof.
  intros (Hm & Hr & Hi) Hlt. unfold row, store. simpl.
  rewrite !list_lookup_insert_eq by lia. simpl. by destruct p.
Qed.

Lemma row_store_ne i j p a : i ≠ j → row (store i p a) j = row a j.
Proof.
  intros Hij. unfold row, store. simpl. by rewrite !list_lookup_insert_ne.
Qed.

(** The look-ups of one run write the records of its PSMs from position [i]
    on and leave every other position as it is. *)
Lemma lookup_run_rows precursors run_name n i psms a a' :
  aligned n a → i + length psms = n →
  lookup_run precursors run_name i psms a = mret a' →
  ∀ j,
    (j < i → row a' j = row a j)
    ∧ ∀ psm, psms !! j = Some psm →
        if decide (run psm = run_name)
        then ∃ p, precursors !! spectrum_id psm = Some p ∧ row a' (i + j) = Some p
        else row a' (i + j) = row a (i + j).
Proof.
  revert i a. induction psms as [|q psms IH]; intros i a Hal Hlen; simpl.
  { intros [= <-] j. split; [done|]. by intros psm ?. }
  assert (S i + length psms = n) as Hlen' by (simpl in Hlen; lia).
  destruct (decide (run q = run_name)) as [Hq|Hq].
  - destruct (precursors !! spectrum_id q) as [p|] eqn:Hp; [|done].
    intros Hrec j.
    pose proof (IH (S i) (store i p a) (store_aligned _ _ _ _ Hal) Hlen' Hrec) as HIH.
    split.
    + intros Hj. destruct (HIH j) as [Hlt _]. rewrite Hlt by lia.
      apply row_store_ne. lia.
    + intros psm Hpsm. destruct j as [|j]; simpl in Hpsm.
      * injection Hpsm as <-. rewrite decide_True by done.
        exists p. split; [done|]. rewrite Nat.add_0_r.
        destruct (HIH i) as [Hlt _]. rewrite Hlt by lia.
        apply (row_store_eq n); [done | lia].
      * destruct (HIH j) as [_ Hj]. specialize (Hj psm Hpsm).
        replace (i + S j) with (S i + j) by lia.
        destruct (decide (run psm = run_name)); [done|].
        rewrite Hj. apply row_store_ne. lia.
  - intros Hrec j. pose proof (IH (S i) a Hal Hlen' Hrec) as HIH. split.
    + intros Hj. destruct (HIH j) as [Hlt _]. by rewrite Hlt by lia.
    + intros psm Hpsm. destruct j as [|j]; simpl in Hpsm.
      * injection Hpsm as <-. rewrite decide_False by done. rewrite Nat.add_0_r.
        destruct (HIH i) as [Hlt _]. by rewrite Hlt by lia.
      * destruct (HIH j) as [_ Hj]. specialize (Hj psm Hpsm).
        by replace (i + S j) with (S i + j) by lia.
Qed.

Lemma extract_runs_rows fs psm_list spectrum_root runs visited a a' :
  aligned (length psm_list) a →
  (∀ i psm, psm_list !! i = Some psm → run psm ∈ visited →
     filled fs spectrum_root a i psm) →
  outcome (extract_runs fs psm_list spectrum_root runs a) = Return a' →
  ∀ i psm, psm_list !! i = Some psm → run psm ∈ visited ++ runs →
    filled fs spectrum_root a' i psm.
Proof.
  revert visited a. induction runs as [|r runs IH]; intros visited a Hal Hinv; simpl.
  { intros [= <-] i psm Hpsm. rewrite app_nil_r. by apply Hinv. }
  intros (source & Hsrc & Hrest)%outcome_bind_inv.
  destruct (lookup_run_cases (get_precursor_info source r) r 0 psm_list a)
    as [(a1 & Hlook & Hal1 & _)|(q & _ & _ & _ & Hlook)]; rewrite Hlook in Hrest;
    [|by rewrite bind_raise in Hrest].
  rewrite bind_return_id in Hrest.
  pose proof (lookup_run_rows (get_precursor_info source r) r (length psm_list)
                0 psm_list a a1 Hal eq_refl Hlook) as Hrows.
  intros i psm Hpsm Hin.
  apply (IH (visited ++ [r]) a1); [by apply Hal1 | | done | done |].
  - intros j q Hq Hqv. destruct (Hrows j) as [_ Hj]. specialize (Hj q Hq).
    simpl in Hj. destruct (decide (run q = r)) as [Hqr|Hqr].
    + destruct Hj as (p & Hp & Hrow). exists source, p. by rewrite Hqr.
    + apply elem_of_app in Hqv as [Hqv|Hqv%list_elem_of_singleton]; [|done].
      destruct (Hinv j q Hq Hqv) as (s & p & ? & ? & ?).
      exists s, p. by rewrite Hj.
  - by rewrite <- app_assoc.
Qed.

(** X3: when the extraction returns, the three arrays hold, at the position
    of each PSM of the batch, the values of the record that the source of the
    PSM's run gives for its spectrum identifier: the order of the batch is
    kept, whatever the order in which the runs are visited. *)
Theorem get_precursor_values_in_batch_order (fs : FileSystem) (psm_list : list PSM)
    (spectrum_root : path_like) (override : option string)
    (mzs rts ims : list float) :
  outcome (_get_precursor_values fs psm_list spectrum_root override)
    = Return (mzs, rts, ims) →
  ∀ i psm, psm_list !! i = Some psm →
    ∃ source p,
      outcome (infer_spectrum_path fs spectrum_root (Some (run psm))) = Return source
      ∧ get_precursor_info source (run psm) !! spectrum_id psm = Some p
      ∧ mzs !! i = Some (mz p) ∧ rts !! i = Some (rt p) ∧ ims !! i = Some (im p).
Proof.
  unfold _get_precursor_values. intros (a & Ha & [= <- <- <-])%outcome_bind_inv i psm Hpsm.
  set (blank := replicate (length psm_list) nan) in Ha.
  assert (filled fs spectrum_root a i psm) as (source & p & Hsrc & Hp & Hrow).
  { apply (extract_runs_rows fs psm_list spectrum_root
             (run_order (run <$> psm_list)) [] (mkArrays blank blank blank) a).
    - unfold aligned, blank. simpl. by rewrite length_replicate.
    - by intros ? ? _ ?%elem_of_nil.
    - exact Ha.
    - exact Hpsm.
    - simpl. apply run_order_elem, list_elem_of_fmap. exists psm.
      split; [done|]. by eapply list_elem_of_lookup_2. }
  exists source, p. unfold row in Hrow.
  destruct (mzs a !! i), (rts a !! i), (ims a !! i); simplify_eq/=; done.
Qed.

End BatchOrder.

(** ** Enrichment *)

Section EnrichmentFacts.
Context `{Externals} `{Reader} `{Grouping}.

Lemma get_precursor_values_aligned fs psm_list spectrum_root override mzs rts ims :
  outcome (_get_precursor_values fs psm_list spectrum_root override)
    = Return (mzs, rts, ims) →
  length mzs = length psm_list ∧ length rts = length psm_list
  ∧ length ims = length psm_list.
Proof.
  unfold _get_precursor_values. intros (a & Ha & [= <- <- <-])%outcome_bind_inv.
  apply extract_runs_returns in Ha as [Hal _]. apply Hal.
  unfold aligned. simpl. by rewrite length_replicate.
Qed.

Lemma assign_ion_mobility psm_list mzs rts ims :
  length mzs = length psm_list → length rts = length psm_list →
  length ims = length psm_list →
  length (assign psm_list mzs rts ims) = length psm_list
  ∧ ion_mobility <$> assign psm_list mzs rts ims = Some <$> ims
  ∧ retention_time <$> assign psm_list mzs rts ims = Some <$> rts
  ∧ precursor_mz <$> assign psm_list mzs rts ims = Some <$> mzs.
Proof.
  revert mzs rts ims. induction psm_list as [|psm psms IH];
    intros [|m mzs] [|r rts] [|i ims]; try done.
  intros [= Hm] [= Hr] [= Hi].
  destruct (IH mzs rts ims) as (E1 & E2 & E3 & E4); [done..|].
  csimpl. by rewrite E1, E2, E3, E4.
Qed.

Lemma cleared_ion_mobility (psm_list : list PSM) psm :
  psm ∈ clear_ion_mobility <$> psm_list → ion_mobility psm = None.
Proof. by intros (q & -> & _)%list_elem_of_fmap. Qed.

Lemma all_sentinel_spec (ims : list float) :
  forallb is_sentinel ims = true ↔ Forall (λ x, is_sentinel x = true) ims.
Proof.
  induction ims as [|x ims IH]; simpl; [done|].
  rewrite andb_true_iff, Forall_cons, IH. done.
Qed.

Lemma some_measured_spec (ims : list float) :
  forallb is_sentinel ims = false ↔ Exists (λ x, is_sentinel x = false) ims.
Proof.
  induction ims as [|x ims IH]; simpl.
  - split; [done | by intros ?%Exists_nil].
  - rewrite andb_false_iff, Exists_cons, IH. done.
Qed.

(** C1: after an extraction that succeeded, [add_precursor_values] returns.
    When every extracted ion mobility equals the sentinel [0.0], the returned
    set leaves [ion_mobility] out and every PSM has its [ion_mobility] set to
    null; when some extracted value is not the sentinel, the PSMs carry the
    extracted values and the set holds [ion_mobility]. *)
Theorem add_precursor_values_ion_mobility (fs : FileSystem) (psm_list : list PSM)
    (required : gset MSDataType.t) (spectrum_path : path_like)
    (mzs rts ims : list float) :
  ¬ required ⊆ already_available psm_list →
  supplied spectrum_path = true →
  outcome (_get_precursor_values fs psm_list spectrum_path None)
    = Return (mzs, rts, ims) →
  ∃ available psm_list',
    outcome (add_precursor_values fs psm_list required spectrum_path)
      = Return (available, psm_list')
    ∧ length psm_list' = length psm_list
    ∧ (Forall (λ x, is_sentinel x = true) ims →
         (MSDataType.ion_mobility ∉ available)
         ∧ Forall (λ psm, ion_mobility psm = None) psm_list')
    ∧ (Exists (λ x, is_sentinel x = false) ims →
         MSDataType.ion_mobility ∈ available
         ∧ ion_mobility <$> psm_list' = Some <$> ims).
Proof.
  intros Hreq Hsup Hex.
  destruct (get_precursor_values_aligned _ _ _ _ _ _ _ Hex) as (Hm & Hr & Hi).
  destruct (assign_ion_mobility psm_list mzs rts ims Hm Hr Hi) as (Hlen & Him & _ & _).
  unfold add_precursor_values.
  rewrite bool_decide_false by done. rewrite Hsup. cbn [negb].
  rewrite (outcome_bind_return _ _ _ Hex).
  destruct (forallb is_sentinel ims) eqn:Hall.
  - eexists _, _. split; [reflexivity|]. split; [by rewrite length_fmap|]. split.
    + intros _. split.
      * unfold only_if. destruct (supplied spectrum_path); set_solver.
      * apply Forall_forall. intros psm. apply cleared_ion_mobility.
    + intros Hsome%some_measured_spec. congruence.
  - eexists _, _. split; [reflexivity|]. split; [done|]. split.
    + intros Hall'%all_sentinel_spec. congruence.
    + intros _. split; [set_solver | done].
Qed.

End EnrichmentFacts.

Section ExtractionWitnesses.
Import Fixtures.
#[local] Existing Instance Sample.externals.
#[local] Existing Instance grouping.

(** [test_get_precursor_values]: the arrays follow the order of the batch. *)
Example test_get_precursor_values :
  outcome (_get_precursor_values (H0 := reader mock_precursor_info)
             fs mock_psm_list (PyStr "test_data") None)
  = Return ([529.7935187324%float; 651.83%float],
            [10.5%float; 12.3%float],
            [1.0%float; 1.2%float]).
Proof. reflexivity. Qed.

(** [test_get_precursor_values_missing_spectrum_id]. *)
Example test_get_precursor_values_missing_spectrum_id :
  outcome (_get_precursor_values (H0 := reader mock_precursor_info_incomplete)
             fs mock_psm_list (PyStr "test_data") None)
  = Raise (SpectrumParsingError "Spectrum 'spectrum2' not found in run 'run1'").
Proof. reflexivity. Qed.

Lemma mock_runs_resolve psm :
  psm ∈ mock_psm_list → resolves fs (PyStr "test_data") (run psm).
Proof.
  intros Hpsm. exists (pathlib.Path "test_data/run1.mgf").
  unfold mock_psm_list in Hpsm.
  repeat (apply elem_of_cons in Hpsm as [->|Hpsm]); [reflexivity..|].
  by apply elem_of_nil in Hpsm.
Defined.

Lemma get_precursor_values_fail_fast_witness :
  (∀ values,
     outcome (_get_precursor_values (H0 := reader mock_precursor_info_incomplete)
                fs mock_psm_list (PyStr "test_data") None) ≠ Return values)
  ∧ ∃ psm, psm ∈ mock_psm_list
      ∧ lacks (H0 := reader mock_precursor_info_incomplete) fs (PyStr "test_data") psm
      ∧ outcome (_get_precursor_values (H0 := reader mock_precursor_info_incomplete)
                   fs mock_psm_list (PyStr "test_data") None)
        = Raise (SpectrumParsingError
                   (missing_spectrum_msg (spectrum_id psm) (run psm))).
Proof.
  destruct (get_precursor_values_fail_fast (H0 := reader mock_precursor_info_incomplete)
              fs mock_psm_list (PyStr "test_data") None) as [Hnone Hraise].
  - exists (mkPSM "run1" "spectrum2" None None None). split.
    + unfold mock_psm_list. set_solver.
    + exists (pathlib.Path "test_data/run1.mgf"). split; reflexivity.
  - split; [exact Hnone|]. apply Hraise, mock_runs_resolve.
Defined.

Lemma get_precursor_values_in_batch_order_witness :
  ∃ source p,
    outcome (infer_spectrum_path fs (PyStr "test_data") (Some "run1")) = Return source
    ∧ mock_precursor_info !! "spectrum2" = Some p
    ∧ [529.7935187324%float; 651.83%float] !! 1 = Some (mz p)
    ∧ [10.5%float; 12.3%float] !! 1 = Some (rt p)
    ∧ [1.0%float; 1.2%float] !! 1 = Some (im p).
Proof.
  pose proof (get_precursor_values_in_batch_order (H0 := reader mock_precursor_info)
                fs mock_psm_list (PyStr "test_data") None
                [529.7935187324%float; 651.83%float]
                [10.5%float; 12.3%float]
                [1.0%float; 1.2%float]) as Horder.
  apply (Horder ltac:(reflexivity) 1 (mkPSM "run1" "spectrum2" None None None)).
  reflexivity.
Defined.

Lemma mock_batch_needs_extraction : ¬ all_precursor_types ⊆ already_available mock_psm_list.
Proof.
  intros Hsub. specialize (Hsub MSDataType.retention_time).
  unfold all_precursor_types, already_available, mock_psm_list, only_if in Hsub.
  simpl in Hsub. set_solver.
Defined.

(** [test_add_precursor_values_missing_im] and [test_add_precursor_values]. *)
Lemma add_precursor_values_ion_mobility_witness :
  (∃ available psm_list',
     outcome (add_precursor_values (H0 := reader mock_precursor_info_missing_im)
                fs mock_psm_list all_precursor_types (PyStr "test_data"))
       = Return (available, psm_list')
     ∧ (MSDataType.ion_mobility ∉ available)
     ∧ Forall (λ psm, ion_mobility psm = None) psm_list')
  ∧ (∃ available psm_list',
       outcome (add_precursor_values (H0 := reader mock_precursor_info)
                  fs mock_psm_list all_precursor_types (PyStr "test_data"))
         = Return (available, psm_list')
       ∧ MSDataType.ion_mobility ∈ available
       ∧ ion_mobility <$> psm_list' = [Some 1.0%float; Some 1.2%float]).
Proof.
  split.
  - destruct (add_precursor_values_ion_mobility
                (H0 := reader mock_precursor_info_missing_im)
                fs mock_psm_list all_precursor_types (PyStr "test_data")
                [529.7935187324%float; 651.83%float]
                [10.5%float; 12.3%float]
                [0.0%float; 0.0%float])
      as (available & psm_list' & Hout & _ & Hall & _).
    + apply mock_batch_needs_extraction.
    + reflexivity.
    + reflexivity.
    + exists available, psm_list'. split; [exact Hout|]. apply Hall.
      repeat constructor.
  - destruct (add_precursor_values_ion_mobility
                (H0 := reader mock_precursor_info)
                fs mock_psm_list all_precursor_types (PyStr "test_data")
                [529.7935187324%float; 651.83%float]
                [10.5%float; 12.3%float]
                [1.0%float; 1.2%float])
      as (available & psm_list' & Hout & _ & _ & Hsome).
    + apply mock_batch_needs_extraction.
    + reflexivity.
    + reflexivity.
    + exists available, psm_list'. split; [exact Hout|]. apply Hsome.
      by apply Exists_cons_hd.
Defined.

End ExtractionWitnesses.

(** ** The remaining tests of [tests/test_parse_spectra.py] *)

Section EnrichmentTests.
Import Fixtures.
#[local] Existing Instance Sample.externals.
#[local] Existing Instance grouping.

(** [test_add_precursor_values_no_missing_data]: nothing is extracted and the
    batch is left as it is. *)
Example test_add_precursor_values_no_missing_data :
  add_precursor_values (H0 := reader ∅) fs populated_psm_list
    {[ MSDataType.retention_time; MSDataType.ion_mobility ]} PyNone
  = mret ({[ MSDataType.retention_time; MSDataType.ion_mobility;
             MSDataType.precursor_mz ]}, populated_psm_list).
Proof. vm_compute. reflexivity. Qed.

(** [test_add_precursor_values_no_spectrum_path_error]. *)
Example test_add_precursor_values_no_spectrum_path_error :
  add_precursor_values (H0 := reader ∅) fs [mkPSM "run1" "spectrum1" None None None]
    {[ MSDataType.retention_time ]} PyNone
  = raise (SpectrumParsingError "Spectrum path must be provided").
Proof. vm_compute. reflexivity. Qed.

(** [test_add_precursor_values_ms2_spectra_availability]. *)
Example test_add_precursor_values_ms2_spectra_availability :
  ∃ available,
    outcome (add_precursor_values (H0 := reader ∅) fs populated_psm_list
               {[ MSDataType.retention_time ]} PyNone)
    = Return (available, populated_psm_list)
    ∧ MSDataType.ms2_spectra ∉ available.
Proof.
  eexists. split; [reflexivity|].
  refine (bool_decide_unpack _ _). vm_compute. exact I.
Qed.

End EnrichmentTests.

(** ** What [infer_spectrum_path] logs and raises *)

Section InferOutcomes.
Context `{Externals}.

Lemma first_supported_logs_nothing resolved_path filenames :
  logged (first_supported resolved_path filenames) = [].
Proof.
  induction filenames as [|f rest IH]; [done|]. simpl.
  by destruct (is_supported_file_type f).
Qed.

Lemma match_extension_logs_nothing fs c : logged (match_extension fs c) = [].
Proof.
  unfold match_extension, mbind, M_bind.
  destruct (negb _ || negb _); [|done].
  pose proof (first_supported_logs_nothing c (glob_.glob fs (c +:+ "*"))) as Hl.
  destruct (first_supported _ _) as [l [f|e]]; simpl in *; subst; done.
Qed.

Lemma infer_logs_of_candidate fs cp rn :
  logged (infer_spectrum_path fs cp rn) = logged (candidate fs cp rn).
Proof.
  unfold infer_spectrum_path, mbind, M_bind.
  destruct (outcome (candidate fs cp rn)); simpl; [|done].
  by rewrite match_extension_logs_nothing, app_nil_r.
Qed.

(** The five ways through lines 34-72. *)
Lemma candidate_cases fs cp rn :
  (PyObj.truthy cp = false ∧ PyObj.truthy_opt rn = false
     ∧ candidate fs cp rn = raise (MS2RescoreConfigurationError no_path_no_run_msg))
  ∨ (PyObj.truthy cp = false ∧ PyObj.truthy_opt rn = true
     ∧ candidate fs cp rn = mret (posixpath.join "." (default "" rn)))
  ∨ (∃ p, cp = PyPath p
     ∧ candidate fs cp rn
       = raise (AttributeError "'PosixPath' object has no attribute 'endswith'"))
  ∨ (∃ s, cp = PyStr s ∧ s ≠ ""
     ∧ ((os.path.isdir fs s = true ∧ is_bruker_dir fs s = false
         ∧ candidate fs cp rn
           = if PyObj.truthy_opt rn then mret (posixpath.join s (default "" rn))
             else raise (MS2RescoreConfigurationError dir_no_run_msg))
        ∨ ((os.path.isfile fs s = true
            ∨ os.path.isdir fs s = true ∧ is_bruker_dir fs s = true)
           ∧ candidate fs cp rn
             = ((if PyObj.truthy_opt rn
                    && bool_decide (pathlib.stem (pathlib.Path s)
                                    ≠ pathlib.stem (pathlib.Path (default "" rn)))
                 then warning stem_mismatch_fmt [s; default "" rn]
                 else mret ());; mret s))
        ∨ (os.path.isfile fs s = false ∧ os.path.isdir fs s = false
           ∧ candidate fs cp rn = raise (MS2RescoreConfigurationError not_existing_msg)))).
Proof.
  destruct cp as [|s|p].
  - destruct (PyObj.truthy_opt rn) eqn:Hr.
    + right. left. unfold candidate. simpl. by rewrite Hr.
    + left. unfold candidate. simpl. by rewrite Hr.
  - destruct (PyStr.truthy s) eqn:Hs.
    2: { destruct (PyObj.truthy_opt rn) eqn:Hr.
         - right. left. unfold candidate. simpl. by rewrite Hs, Hr.
         - left. unfold candidate. simpl. by rewrite Hs, Hr. }
    right. right. right. exists s. split; [done|].
    split; [by apply truthy_nonempty|].
    destruct (os.path.isdir fs s) eqn:Hd.
    + destruct (is_bruker_dir fs s) eqn:Hb.
      * right. left. split; [auto|]. by apply candidate_configured_file; auto.
      * left. split; [done|]. split; [done|]. by apply candidate_plain_directory.
    + destruct (os.path.isfile fs s) eqn:Hf.
      * right. left. split; [auto|]. by apply candidate_configured_file; auto.
      * right. right. split; [done|]. split; [done|].
        unfold candidate. simpl. rewrite Hs. simpl.
        rewrite M_bind_return. by rewrite Hd, Hf.
  - right. right. left. by exists p.
Qed.

(** X19: [infer_spectrum_path] logs nothing, or the one warning of the
    stem mismatch; it logs the warning only for a configured [str] that is an
    existing file or instrument directory and a non-empty run name with
    another stem. *)
Theorem infer_logs_only_stem_warning (fs : FileSystem) (cp : path_like)
    (rn : option string) :
  logged (infer_spectrum_path fs cp rn) = []
  ∨ ∃ s r, cp = PyStr s ∧ rn = Some r ∧ r ≠ ""
      ∧ pathlib.stem (pathlib.Path s) ≠ pathlib.stem (pathlib.Path r)
      ∧ (os.path.isfile fs s = true
         ∨ os.path.isdir fs s = true ∧ is_bruker_dir fs s = true)
      ∧ logged (infer_spectrum_path fs cp rn) = [stem_warning s r].
Proof.
  rewrite infer_logs_of_candidate.
  destruct (candidate_cases fs cp rn)
    as [(_ & _ & ->)|[(_ & _ & ->)|[(p & _ & ->)
       |(s & -> & Hs & [(_ & _ & ->)|[(Hex & ->)|(_ & _ & ->)]])]]]; try by left.
  - left. by destruct (PyObj.truthy_opt rn).
  - destruct (PyObj.truthy_opt rn) eqn:Hr; [|by left].
    case_bool_decide as Hstem; [|by left].
    right. destruct rn as [r|]; [|done]. exists s, r.
    repeat split; try done. by apply truthy_nonempty.
Qed.

(** X20: for a configured path without a pattern character that ends in
    [.d] or keeps within the limits of the operating system on names, and a
    run name without a separator, on a file system whose directories can all
    be searched, [infer_spectrum_path] raises [AttributeError] for a [Path]
    object and otherwise only [MS2RescoreConfigurationError], with one of
    four messages: no path and no run name; a plain directory and no run
    name; a configured [str] that is neither a file nor a directory; or a
    candidate that is not a supported existing path and that no supported
    match of the glob replaces. (Outside these bounds the library calls
    raise errors of their own, which [exn] does not have: [OSError] from
    [Path.glob] for a name that is too long or cannot be reached,
    [ValueError] from [glob] for a NUL in the directory part of the run
    name, [RecursionError] for a pattern many directories deep.) *)
Theorem infer_raises_only (fs : FileSystem) (cp : path_like)
    (rn : option string) (e : exn) :
  spelled_out cp = true →
  file_name rn = true →
  outcome (infer_spectrum_path fs cp rn) = Raise e →
  (∃ p, cp = PyPath p
        ∧ e = AttributeError "'PosixPath' object has no attribute 'endswith'")
  ∨ (PyObj.truthy cp = false ∧ PyObj.truthy_opt rn = false
     ∧ e = MS2RescoreConfigurationError no_path_no_run_msg)
  ∨ (∃ s, cp = PyStr s ∧ os.path.isdir fs s = true ∧ PyObj.truthy_opt rn = false
          ∧ e = MS2RescoreConfigurationError dir_no_run_msg)
  ∨ (∃ s, cp = PyStr s ∧ os.path.isfile fs s = false ∧ os.path.isdir fs s = false
          ∧ e = MS2RescoreConfigurationError not_existing_msg)
  ∨ (∃ c, outcome (candidate fs cp rn) = Return c
          ∧ is_supported_file_type c && os.path.exists_ fs c = false
          ∧ list_find (λ f, is_supported_file_type f = true)
                      (glob_.glob fs (c +:+ "*")) = None
          ∧ e = MS2RescoreConfigurationError (no_extension_msg c)).
Proof.
  intros _ _ He.
  destruct (outcome (candidate fs cp rn)) as [c|e'] eqn:Hc.
  - do 4 right. exists c. split; [done|].
    unfold infer_spectrum_path in He. rewrite (outcome_bind_return _ _ _ Hc) in He.
    unfold match_extension in He. rewrite <- negb_andb in He.
    destruct (is_supported_file_type c && os.path.exists_ fs c); cbn [negb] in He.
    { by rewrite bind_return_id in He. }
    split; [done|]. rewrite first_supported_find in He.
    destruct (list_find _ _) as [[i f]|]; [by rewrite bind_return_id in He|].
    split; [done|]. by injection He as <-.
  - unfold infer_spectrum_path in He. rewrite (outcome_bind_raise _ _ _ Hc) in He.
    injection He as <-.
    destruct (candidate_cases fs cp rn)
      as [(Hcp & Hrn & E)|[(_ & _ & E)|[(p & -> & E)
         |(s & -> & Hs & [(Hd & _ & E)|[(Hex & E)|(Hf & Hd & E)]])]]];
      rewrite E in Hc.
    + right. left. by injection Hc as <-.
    + done.
    + left. exists p. by injection Hc as <-.
    + destruct (PyObj.truthy_opt rn) eqn:Hr; [done|].
      right. right. left. exists s. by injection Hc as <-.
    + exfalso. by destruct (_ && _).
    + right. right. right. left. exists s. by injection Hc as <-.
Qed.

(** X21: for a configured path that is an existing file or instrument
    directory the run name takes part in the warning only: the call returns
    or raises as it does without a run name, and returns the configured path
    when that is of a supported type. *)
Theorem infer_run_name_only_logged (fs : FileSystem) (cp : string)
    (rn : option string) :
  os.path.isfile fs cp = true
  ∨ os.path.isdir fs cp = true ∧ is_bruker_dir fs cp = true →
  outcome (infer_spectrum_path fs (PyStr cp) rn)
  = outcome (infer_spectrum_path fs (PyStr cp) None)
  ∧ (is_supported_file_type cp = true →
     outcome (infer_spectrum_path fs (PyStr cp) rn) = Return (pathlib.Path cp)).
Proof.
  intros Hcp.
  assert (∀ rn', outcome (infer_spectrum_path fs (PyStr cp) rn')
                 = outcome (match_extension fs cp)) as Hrn.
  { intros rn'. unfold infer_spectrum_path. apply outcome_bind_return.
    rewrite candidate_configured_file by done. by destruct (_ && _). }
  split; [by rewrite !Hrn|]. intros Hs. rewrite Hrn.
  rewrite match_extension_as_is; [done..|].
  by destruct Hcp as [?%isfile_exists|[?%isdir_exists _]].
Qed.

(** X23: without a configured path the call behaves as with the current
    directory [.] as configured path, when that is a directory and no
    miniTDF folder itself. *)
Theorem infer_without_path_as_dot (fs : FileSystem) (r : string) :
  r ≠ "" →
  os.path.isdir fs "." = true →
  _is_minitdf fs "." = false →
  infer_spectrum_path fs PyNone (Some r) = infer_spectrum_path fs (PyStr ".") (Some r).
Proof.
  intros Hr Hd Hm. unfold infer_spectrum_path. f_equal.
  rewrite candidate_plain_directory; [|done|by unfold is_bruker_dir; rewrite Hm].
  unfold candidate. cbn [PyObj.truthy negb]. by rewrite (truthy_opt_Some r Hr).
Qed.

End InferOutcomes.

(** ** What [Path] denotes, conversely *)

Section PathDenotesBack.
Context `{Externals}.
Import PyStr.

Lemma walk_top_dir stack comps es up :
  comps ≠ [] ∨ stack = Dir es :: up →
  os.walk stack comps = Some (Dir es :: up) →
  ∃ es' up', stack = Dir es' :: up'.
Proof.
  destruct comps as [|c comps]; simpl.
  - intros [?| ->]; [done|]. eauto.
  - intros _. destruct stack as [|[|es'] up']; try done. eauto.
Qed.

(** Steps through [.] and empty components can be put back when the walk
    ends in a directory. *)
Lemma walk_unfiltered stack comps es up :
  os.walk stack (filter (λ c, c ≠ "" ∧ c ≠ ".") comps) = Some (Dir es :: up) →
  os.walk stack comps = Some (Dir es :: up).
Proof.
  revert stack. induction comps as [|c comps IH]; intros stack; [done|].
  rewrite filter_cons. destruct (decide (c = "" ∨ c = ".")) as [Hc|Hc].
  - rewrite (decide_False (P := c ≠ "" ∧ c ≠ ".")) by naive_solver.
    intros Hw. pose proof (IH _ Hw) as Hw'.
    assert (∃ es' up', stack = Dir es' :: up') as (es' & up' & ->).
    { destruct comps as [|c' comps].
      - simpl in Hw'. injection Hw' as ->. eauto.
      - apply (walk_top_dir stack (c' :: comps) es up); [by left|done]. }
    simpl. by rewrite decide_True.
  - rewrite (decide_True (P := c ≠ "" ∧ c ≠ ".")) by naive_solver.
    simpl. destruct stack as [|[|es'] up']; try done.
    destruct (decide (c = "" ∨ c = ".")) as [?|_]; [done|].
    destruct (decide (c = "..")); [apply IH|].
    destruct (os.entry c es'); [apply IH | done].
Qed.

Lemma filter_components_idemp (comps : list string) :
  filter (λ c, c ≠ "" ∧ c ≠ ".") (filter (λ c, c ≠ "" ∧ c ≠ ".") comps)
  = filter (λ c, c ≠ "" ∧ c ≠ ".") comps.
Proof.
  induction comps as [|c comps IH]; [done|]. rewrite filter_cons.
  case_decide; [|done]. rewrite filter_cons, decide_True by done. by f_equal.
Qed.

Lemma split_sep_root x : split_sep ("/" +:+ x) = "" :: split_sep x.
Proof. change ("/" +:+ x) with ("" +:+ "/" +:+ x). by rewrite split_sep_app. Qed.

(** [str(Path(d))] is absolute when [d] is, and has the components of [d]
    that are neither empty nor [.]. *)
Lemma to_str_Path_components d :
  truthy d = true →
  truthy (pathlib.to_str (pathlib.Path d)) = true
  ∧ startswith (pathlib.to_str (pathlib.Path d)) "/" = startswith d "/"
  ∧ filter (λ c, c ≠ "" ∧ c ≠ ".") (split_sep (pathlib.to_str (pathlib.Path d)))
    = filter (λ c, c ≠ "" ∧ c ≠ ".") (split_sep d).
Proof.
  intros Hd. destruct (splitroot_startswith d) as [Hrel Hanchor].
  unfold pathlib.Path, pathlib.to_str. simpl.
  pose proof (filter_components_idemp (split_sep d)) as Hidem.
  set (parts := filter _ (split_sep d)) in *.
  assert (Forall (λ x, no_sep x = true) parts) as Hparts.
  { apply Forall_forall. intros x [_ Hx]%list_elem_of_filter.
    by apply (proj1 (Forall_forall _ _) (split_sep_no_sep d)). }
  assert (Forall (λ x, x ≠ "") parts) as Hne.
  { apply Forall_forall. by intros x [[? _] _]%list_elem_of_filter. }
  destruct (startswith d "/") eqn:Habs.
  - destruct (Hanchor eq_refl) as [-> | ->]; destruct parts as [|c cs]; simpl;
      try done.
    all: split; [done|]; split; [done|].
    all: try change ("//" +:+ ?x) with ("/" +:+ ("/" +:+ x)).
    all: rewrite !split_sep_root, split_sep_joined by done.
    all: by rewrite !(filter_cons _ ""), !decide_False by naive_solver.
  - rewrite (Hrel eq_refl). simpl. destruct parts as [|c cs]; simpl; [done|].
    apply Forall_cons in Hne as [Hc _]. change ("" +:+ ?x) with x.
    destruct (joined_relative c cs Hc) as [-> ->]; [by inversion Hparts|].
    by rewrite split_sep_joined.
Qed.

Lemma stat_Path_back fs d es :
  truthy d = true →
  os.stat fs (pathlib.to_str (pathlib.Path d)) = Some (Dir es) →
  os.stat fs d = Some (Dir es).
Proof.
  intros Hd. destruct (to_str_Path_components d Hd) as (Ht & Habs & Hf).
  unfold os.stat. rewrite Ht, Hd, Habs.
  destruct (if startswith d "/" then Some [root fs] else os.walk [root fs] (cwd fs))
    as [start|]; [|done]. simpl.
  destruct (os.walk start (split_sep (pathlib.to_str (pathlib.Path d))))
    as [[|n up]|] eqn:Hw; try done.
  simpl. intros [= ->].
  apply walk_filtered in Hw. rewrite Hf in Hw.
  by rewrite (walk_unfiltered _ _ _ _ Hw).
Qed.

Lemma Path_glob_isdir fs d pattern q :
  truthy d = true → q ∈ Path_glob fs (pathlib.Path d) pattern →
  os.path.isdir fs d = true.
Proof.
  intros Hd. unfold Path_glob, os.scandir.
  destruct (os.stat fs (pathlib.to_str (pathlib.Path d))) as [[|es]|] eqn:Hs;
    try by intros ?%elem_of_nil.
  intros _. unfold os.path.isdir. by rewrite (stat_Path_back _ _ _ Hd Hs).
Qed.

(** X22: [_is_minitdf] is false for every existing path that is no
    directory: [Path(p)] denotes the file that [p] does, [Path.glob] yields
    nothing for it, and so a spectrum file is never taken for a miniTDF
    folder. *)
Theorem is_minitdf_only_directories (fs : FileSystem) (p : string) :
  os.path.exists_ fs p = true → os.path.isdir fs p = false →
  _is_minitdf fs p = false.
Proof.
  intros Hp%exists_nonempty%truthy_nonempty Hd. unfold _is_minitdf.
  apply bool_decide_eq_false. intros Hsize.
  set (files := _ ∪ _) in Hsize.
  destruct (set_choose_L files) as [q Hq].
  { intros E. rewrite E, size_empty in Hsize. lia. }
  assert (os.path.isdir fs p = true); [|congruence].
  apply elem_of_union in Hq as [Hq|Hq]; apply elem_of_list_to_set in Hq;
    by eapply Path_glob_isdir.
Qed.

End PathDenotesBack.

(** ** The order of normalised versions *)

Section OrderFacts.
Import builtins compare.

Lemma N_compare_trans (x y z : N) c :
  (x ?= y)%N = c → (y ?= z)%N = c → (x ?= z)%N = c.
Proof.
  destruct c; rewrite ?N.compare_eq_iff, ?N.compare_lt_iff, ?N.compare_gt_iff; lia.
Qed.

Lemma ascii_compare_eq a b : Ascii.compare a b = Eq ↔ a = b.
Proof.
  split; [apply Ascii.compare_eq_iff|]. intros ->. apply N.compare_refl.
Qed.

Lemma string_compare_chars s t :
  String.compare s t = list_compare Ascii.compare (PyStr.chars s) (PyStr.chars t).
Proof.
  revert t. induction s as [|a s IH]; intros [|b t]; simpl; try done.
  unfold PyStr.chars in *. simpl. by rewrite IH.
Qed.

Lemma string_compare_eq s t : String.compare s t = Eq ↔ s = t.
Proof.
  rewrite string_compare_chars, (list_compare_refl _ ascii_compare_eq).
  split; [apply chars_inj | by intros ->].
Qed.

Lemma string_compare_trans s t u c :
  String.compare s t = c → String.compare t u = c → String.compare s u = c.
Proof.
  rewrite !string_compare_chars.
  apply (list_compare_trans _ ascii_compare_eq).
  - intros x y z c'. apply N_compare_trans.
  - intros x y. apply Ascii.compare_antisym.
Qed.

Lemma part_compare_eq p q : part_compare p q = Eq ↔ p = q.
Proof.
  destruct p as [a|s], q as [b|t]; simpl; try (split; [done | congruence]).
  - rewrite N.compare_eq_iff. split; congruence.
  - rewrite string_compare_eq. split; congruence.
Qed.

Lemma part_compare_antisym p q : part_compare q p = CompOpp (part_compare p q).
Proof.
  destruct p as [a|s], q as [b|t]; simpl; try done.
  - apply N.compare_antisym.
  - apply String.compare_antisym.
Qed.

Lemma part_compare_trans p q r c :
  part_compare p q = c → part_compare q r = c → part_compare p r = c.
Proof.
  destruct p as [a|s], q as [b|t], r as [d|u]; simpl; try congruence.
  - apply N_compare_trans.
  - apply string_compare_trans.
Qed.

Lemma parts_compare_eq x y : list_compare part_compare x y = Eq ↔ x = y.
Proof. apply list_compare_refl, part_compare_eq. Qed.

Lemma parts_compare_antisym x y :
  list_compare part_compare y x = CompOpp (list_compare part_compare x y).
Proof.
  apply list_compare_antisym; [apply part_compare_eq|].
  intros p q. apply part_compare_antisym.
Qed.

Lemma parts_compare_trans x y z c :
  list_compare part_compare x y = c → list_compare part_compare y z = c →
  list_compare part_compare x z = c.
Proof.
  apply list_compare_trans; [apply part_compare_eq| |].
  - intros p q r c'. apply part_compare_trans.
  - intros p q. apply part_compare_antisym.
Qed.

Lemma item_eq_parts p q : tuple_eq atom_eq (item_of p) (item_of q) = bool_decide (p = q).
Proof.
  destruct p as [a|s], q as [b|t]; simpl; try done.
  - rewrite andb_true_r. destruct (Z.eqb_spec (Z.of_N a) (Z.of_N b)) as [E|E].
    + apply N2Z.inj in E as ->. by rewrite bool_decide_true.
    + rewrite bool_decide_false; [done|]. congruence.
  - rewrite andb_true_r. destruct (String.eqb_spec s t) as [->|E].
    + by rewrite bool_decide_true.
    + rewrite bool_decide_false; [done|]. congruence.
Qed.

Lemma item_lt_parts p q :
  tuple_lt atom_eq atom_lt (item_of p) (item_of q)
  = Returns (bool_decide (part_compare p q = Lt)).
Proof.
  destruct p as [a|s], q as [b|t]; simpl; try done.
  - destruct (Z.eqb_spec (Z.of_N a) (Z.of_N b)) as [E|E].
    + apply N2Z.inj in E as ->. by rewrite N.compare_refl.
    + f_equal. apply eq_true_iff_eq.
      rewrite Z.ltb_lt, bool_decide_eq_true, N.compare_lt_iff. lia.
  - destruct (String.eqb_spec s t) as [->|E].
    + by rewrite (proj2 (string_compare_eq t t)).
    + f_equal. unfold String.ltb. by destruct (String.compare s t).
Qed.

Lemma item_gt_parts p q :
  tuple_gt atom_eq atom_gt (item_of p) (item_of q)
  = Returns (bool_decide (part_compare p q = Gt)).
Proof.
  destruct p as [a|s], q as [b|t]; simpl; try done.
  - destruct (Z.eqb_spec (Z.of_N a) (Z.of_N b)) as [E|E].
    + apply N2Z.inj in E as ->. by rewrite N.compare_refl.
    + f_equal. apply eq_true_iff_eq.
      rewrite Z.gtb_gt, bool_decide_eq_true, N.compare_gt_iff. lia.
  - destruct (String.eqb_spec s t) as [->|E].
    + by rewrite (proj2 (string_compare_eq t t)).
    + f_equal. unfold String.ltb. rewrite (String.compare_antisym s t).
      by destruct (String.compare t s).
Qed.

Lemma lt_parts x y :
  lt (item_of <$> x) (item_of <$> y)
  = Returns (bool_decide (list_compare part_compare x y = Lt)).
Proof.
  unfold lt. revert y. induction x as [|p x IH]; intros [|q y]; simpl; try done.
  rewrite item_eq_parts. case_bool_decide as E.
  - subst. rewrite (proj2 (part_compare_eq q q)) by done. apply IH.
  - rewrite item_lt_parts. f_equal.
    destruct (part_compare p q) eqn:Hc; try done.
    by apply part_compare_eq in Hc.
Qed.

Lemma gt_parts x y :
  gt (item_of <$> x) (item_of <$> y)
  = Returns (bool_decide (list_compare part_compare x y = Gt)).
Proof.
  unfold gt. revert y. induction x as [|p x IH]; intros [|q y]; simpl; try done.
  rewrite item_eq_parts. case_bool_decide as E.
  - subst. rewrite (proj2 (part_compare_eq q q)) by done. apply IH.
  - rewrite item_gt_parts. f_equal.
    destruct (part_compare p q) eqn:Hc; try done.
    by apply part_compare_eq in Hc.
Qed.

(** The value of lines 140-141 on two normalised versions. *)
Lemma fallback_sign x y :
  (above ← gt (item_of <$> x) (item_of <$> y);
   below ← lt (item_of <$> x) (item_of <$> y);
   Returns (Z.b2z above - Z.b2z below)%Z)
  = Returns (sign (list_compare part_compare x y)).
Proof.
  rewrite gt_parts, lt_parts. simpl.
  by destruct (list_compare part_compare x y).
Qed.

Lemma sign_opp c : sign (CompOpp c) = (- sign c)%Z.
Proof. by destruct c. Qed.

Lemma sign_range c : (sign c = -1 ∨ sign c = 0 ∨ sign c = 1)%Z.
Proof. destruct c; simpl; auto. Qed.

End OrderFacts.

(** ** Stripping and chunking *)

Section ChunkFacts.
Import PyStr builtins.

Lemma take_drop_run f (l : list ascii) : take_run f l ++ drop_run f l = l.
Proof. induction l as [|a l IH]; simpl; [done|]. destruct (f a); simpl; by f_equal. Qed.

Lemma take_run_forallb f (l : list ascii) : forallb f (take_run f l) = true.
Proof. induction l as [|a l IH]; simpl; [done|]. destruct (f a) eqn:E; simpl; by rewrite ?E. Qed.

Lemma drop_run_head f (l : list ascii) a : head (drop_run f l) = Some a → f a = false.
Proof.
  induction l as [|b l IH]; simpl; [done|]. destruct (f b) eqn:E; [done|].
  simpl. by intros [= <-].
Qed.

Lemma take_run_nil f (l : list ascii) : take_run f l = [] → drop_run f l = l.
Proof. intros E. by rewrite <- (take_drop_run f l) at 2; rewrite E. Qed.

Lemma drop_run_all f (l : list ascii) : forallb f l = true → drop_run f l = [].
Proof.
  induction l as [|a l IH]; simpl; [done|]. by intros [-> ?]%andb_prop; auto.
Qed.

Lemma drop_run_app f (l l' : list ascii) :
  forallb f l = true → drop_run f (l ++ l') = drop_run f l'.
Proof.
  induction l as [|a l IH]; simpl; [done|]. by intros [-> ?]%andb_prop; auto.
Qed.

Lemma rstrip_split f (l : list ascii) :
  rstrip f l ++ reverse (take_run f (reverse l)) = l.
Proof.
  unfold rstrip. rewrite <- reverse_app, take_drop_run. apply reverse_involutive.
Qed.

Lemma rstrip_last f (l : list ascii) a : last (rstrip f l) = Some a → f a = false.
Proof. unfold rstrip. rewrite last_reverse. apply drop_run_head. Qed.

Lemma rstrip_head f (l : list ascii) a b :
  head (rstrip f l) = Some a → head l = Some b → a = b.
Proof.
  intros Ha Hb. rewrite <- (rstrip_split f l) in Hb.
  destruct (rstrip f l); simpl in *; congruence.
Qed.

Lemma find_alternative a :
  List.find (λ f, f a) re.alternatives
  = Some (if re.digit a then re.digit else if re.alpha a then re.alpha else re.other).
Proof.
  unfold re.alternatives. simpl.
  destruct (re.digit a) eqn:Hd; [done|]. destruct (re.alpha a) eqn:Ha; [done|].
  unfold re.other. unfold re.digit, isdecimal in Hd. by rewrite Ha, Hd.
Qed.

Lemma find_alternative_Some a f :
  List.find (λ f, f a) re.alternatives = Some f → f ∈ re.alternatives ∧ f a = true.
Proof.
  intros Hf. apply find_some in Hf as [Hin Hfa]. split; [|done].
  by apply list_elem_of_In.
Qed.

(** The chunks are runs of one alternative each. *)
Lemma findall_chunks l : Forall chunk_ok (re.findall_chars l).
Proof.
  funelim (re.findall_chars l); [constructor| |].
  - clear Heqcall. apply find_alternative_Some in Heq as [Hin Hfa].
    constructor; [|done]. split; [done|]. exists f. split; [done|].
    rewrite chars_of_chars. simpl. by rewrite Hfa, take_run_forallb.
  - by rewrite find_alternative in Heq.
Qed.

Lemma findall_concat l : concat (chars <$> re.findall_chars l) = l.
Proof.
  funelim (re.findall_chars l); [done| |].
  - clear Heqcall. rewrite fmap_cons, concat_cons, H, chars_of_chars. simpl. f_equal.
    apply take_drop_run.
  - by rewrite find_alternative in Heq.
Qed.

Lemma chunk_ok_cases c :
  chunk_ok c →
  forallb re.digit (chars c) = true ∨ forallb re.alpha (chars c) = true
  ∨ forallb re.other (chars c) = true.
Proof.
  intros [_ (f & Hf & Hc)]. unfold re.alternatives in Hf.
  apply elem_of_cons in Hf as [->|Hf]; [auto|].
  apply elem_of_cons in Hf as [->|Hf]; [auto|].
  apply list_elem_of_singleton in Hf as ->. auto.
Qed.

End ChunkFacts.

(** ** [_strip_v], [_normalize_for_tuple] and [_compare_versions] *)

Section VersionFacts.
Context `{Interpreter}.
Import PyStr builtins.

Lemma strip_v_str s : _strip_v (OStr s) = OStr (stripped s).
Proof. reflexivity. Qed.

Lemma strip_v_not_str o : (∀ s, o ≠ OStr s) → _strip_v o = o.
Proof. destruct o; try done. intros Ho. by destruct (Ho s). Qed.

Lemma int_cases c :
  int c = Raises ValueError
  ∨ (int c = Returns (Z.of_N (value c)) ∧ PyStr.truthy c = true
     ∧ forallb isdecimal (chars c) = true).
Proof.
  unfold int.
  destruct (PyStr.truthy c && forallb isdecimal (chars c)) eqn:E; [|by left].
  apply andb_prop in E as [? ?]. case_bool_decide; [by left|by right].
Qed.

Lemma int_numeral d : numeral d → int d = Returns (Z.of_N (value d)).
Proof.
  intros (Ht & Hd & Hl). unfold int. rewrite Ht, Hd. simpl.
  rewrite bool_decide_false; [done|]. rewrite length_chars. lia.
Qed.

Lemma normalize_chunks_parts cs ps :
  normalize_chunks cs (item_of <$> ps)
  = match mapM part_of_chunk cs with
    | Some qs => Returns (item_of <$> (ps ++ qs))
    | None => Raises ValueError
    end.
Proof.
  revert ps. induction cs as [|c cs IH]; intros ps.
  { simpl. by rewrite app_nil_r. }
  cbn [normalize_chunks mapM].
  assert (part_of_chunk c
          = if isdigit c then
              match int c with
              | Returns n => Some (Number (Z.to_N n))
              | Raises _ => None
              end
            else Some (Text (if re.search_alpha c then c else "."))) as Hp
    by reflexivity.
  destruct (isdigit c).
  - destruct (int_cases c) as [Hi|(Hi & _)]; rewrite Hi in Hp |- *; rewrite Hp; simpl; [done|].
    change [[AInt 0; AInt (Z.of_N (value c))]] with (item_of <$> [Number (value c)]).
    rewrite <- fmap_app, IH, N2Z.id.
    destruct (mapM part_of_chunk cs); simpl; [|done].
    by rewrite <- app_assoc.
  - rewrite Hp. simpl.
    change [[AInt 1; AStr (if re.search_alpha c then c else ".")]]
      with (item_of <$> [Text (if re.search_alpha c then c else ".")]).
    rewrite <- fmap_app, IH.
    destruct (mapM part_of_chunk cs); simpl; [|done].
    by rewrite <- app_assoc.
Qed.

Lemma normalize_for_tuple_str s :
  _normalize_for_tuple (OStr s)
  = match normal_form s with
    | Some ps => Returns (item_of <$> ps)
    | None => Raises ValueError
    end.
Proof.
  unfold _normalize_for_tuple, normal_form. rewrite strip_v_str.
  apply (normalize_chunks_parts _ []).
Qed.

Lemma normalize_for_tuple_not_str o :
  (∀ s, o ≠ OStr s) → _normalize_for_tuple o = Raises TypeError.
Proof.
  intros Ho. unfold _normalize_for_tuple. rewrite (strip_v_not_str o Ho).
  destruct o; try done. by destruct (Ho s).
Qed.

Lemma part_of_chunk_ok c p : chunk_ok c → part_of_chunk c = Some p → part_ok p = true.
Proof.
  intros Hc. unfold part_of_chunk. destruct (isdigit c) eqn:Hd.
  { destruct (int c); [|done]. by intros [= <-]. }
  intros [= <-]. simpl. unfold text_ok.
  destruct (re.search_alpha c) eqn:Ha; [|done].
  apply orb_true_iff. right. destruct Hc as [Ht Hf]. rewrite Ht. simpl.
  destruct (chunk_ok_cases c (conj Ht Hf)) as [Hc|[Hc|Hc]]; [| done |].
  - exfalso. unfold isdigit in Hd. rewrite Ht in Hd. simpl in Hd.
    apply not_true_iff_false in Hd. apply Hd.
    rewrite forallb_forall in Hc |- *. intros a Ha'. unfold isdigit_char.
    specialize (Hc a Ha'). unfold re.digit in Hc. by rewrite Hc.
  - exfalso. unfold re.search_alpha in Ha.
    apply existsb_exists in Ha as (a & Hin & Ha).
    rewrite forallb_forall in Hc. specialize (Hc a Hin).
    unfold re.other in Hc. by rewrite Ha in Hc.
Qed.

Lemma normal_form_ok s ps : normal_form s = Some ps → forallb part_ok ps = true.
Proof.
  unfold normal_form, re.findall. intros Hm.
  pose proof (findall_chunks (chars (stripped s))) as Hc.
  revert ps Hm. induction Hc as [|c cs Hc Hcs IH]; intros ps.
  { by intros [= <-]. }
  cbn [mapM]. destruct (part_of_chunk c) as [p|] eqn:Hp; [|done]. simpl.
  destruct (mapM part_of_chunk cs) as [qs|]; [|done]. simpl. intros [= <-].
  simpl. rewrite (part_of_chunk_ok c p Hc Hp). by apply IH.
Qed.

(** How [_compare_versions] comes to its value: from [packaging] when it is
    installed and parses both versions, from the tuples otherwise. *)
Lemma compare_versions_packaging a b va vb :
  packaging_installed = true →
  Version_of (_strip_v a) = Returns va → Version_of (_strip_v b) = Returns vb →
  _compare_versions a b = Returns (Z.b2z (Version_gt va vb) - Z.b2z (Version_lt va vb))%Z.
Proof. intros Hi Ha Hb. unfold _compare_versions. by rewrite Hi, Ha, Hb. Qed.

Lemma Version_of_raises o e : Version_of o = Raises e → isinstance e cls.Exception = true.
Proof.
  destruct o; simpl; try by intros [= <-].
  destruct (Version s); [done|]. by intros [= <-].
Qed.

Lemma compare_versions_fallback a b :
  packaging_installed = false
  ∨ (∃ e, Version_of (_strip_v a) = Raises e) ∨ (∃ e, Version_of (_strip_v b) = Raises e) →
  _compare_versions a b
  = (ta ← _normalize_for_tuple (_strip_v a);
     tb ← _normalize_for_tuple (_strip_v b);
     above ← compare.gt ta tb;
     below ← compare.lt ta tb;
     Returns (Z.b2z above - Z.b2z below)%Z).
Proof.
  intros Hf. unfold _compare_versions.
  destruct packaging_installed; [|done].
  destruct Hf as [?|[[e He]|[e He]]]; [done| |].
  - rewrite He. unfold try_except. cbn [mbind completion_bind].
    by rewrite (Version_of_raises _ _ He).
  - rewrite He. unfold try_except.
    destruct (Version_of (_strip_v a)) as [va|e'] eqn:Ha; cbn [mbind completion_bind].
    + by rewrite (Version_of_raises _ _ He).
    + by rewrite (Version_of_raises _ _ Ha).
Qed.

Lemma compare_versions_cases a b :
  (∃ va vb, packaging_installed = true
     ∧ Version_of (_strip_v a) = Returns va ∧ Version_of (_strip_v b) = Returns vb
     ∧ _compare_versions a b
       = Returns (Z.b2z (Version_gt va vb) - Z.b2z (Version_lt va vb))%Z)
  ∨ ((packaging_installed = false
      ∨ (∃ e, Version_of (_strip_v a) = Raises e) ∨ (∃ e, Version_of (_strip_v b) = Raises e))
     ∧ _compare_versions a b
       = (ta ← _normalize_for_tuple (_strip_v a);
          tb ← _normalize_for_tuple (_strip_v b);
          above ← compare.gt ta tb;
          below ← compare.lt ta tb;
          Returns (Z.b2z above - Z.b2z below)%Z)).
Proof.
  destruct packaging_installed eqn:Hi;
    [|right; split; [|apply compare_versions_fallback]; auto].
  destruct (Version_of (_strip_v a)) as [va|e] eqn:Ha;
    [|right; split; [|apply compare_versions_fallback]; eauto].
  destruct (Version_of (_strip_v b)) as [vb|e] eqn:Hb;
    [|right; split; [|apply compare_versions_fallback]; eauto].
  left. exists va, vb. repeat split; try done. by apply compare_versions_packaging.
Qed.

(** The value of the fallback on two [str] values. *)
Lemma fallback_strs a b :
  (ta ← _normalize_for_tuple (OStr a);
   tb ← _normalize_for_tuple (OStr b);
   above ← compare.gt ta tb;
   below ← compare.lt ta tb;
   Returns (Z.b2z above - Z.b2z below)%Z)
  = match normal_form a, normal_form b with
    | Some x, Some y => Returns (sign (list_compare part_compare x y))
    | _, _ => Raises ValueError
    end.
Proof.
  rewrite !normalize_for_tuple_str.
  destruct (normal_form a) as [x|]; [|done].
  destruct (normal_form b) as [y|]; [|done].
  apply fallback_sign.
Qed.

Lemma fallback_not_str a b :
  (∀ s, a ≠ OStr s) ∨ (∀ s, b ≠ OStr s) →
  ∃ e, (ta ← _normalize_for_tuple (_strip_v a);
        tb ← _normalize_for_tuple (_strip_v b);
        above ← compare.gt ta tb;
        below ← compare.lt ta tb;
        Returns (Z.b2z above - Z.b2z below)%Z) = Raises e
       ∧ (e = TypeError ∨ e = ValueError).
Proof.
  intros [Ha|Hb].
  - rewrite (strip_v_not_str a Ha), (normalize_for_tuple_not_str a Ha). eauto.
  - rewrite (strip_v_not_str b Hb), (normalize_for_tuple_not_str b Hb).
    destruct a; try (rewrite normalize_for_tuple_not_str by done; eauto).
    rewrite strip_v_str, normalize_for_tuple_str.
    destruct (normal_form _); simpl; eauto.
Qed.

Lemma object_str_or_not (o : object) : (∃ s, o = OStr s) ∨ (∀ s, o ≠ OStr s).
Proof. destruct o; eauto. Qed.

Lemma Version_of_Returns o v : Version_of o = Returns v → ∃ s, o = OStr s.
Proof. destruct o; try done. eauto. Qed.

Lemma item_of_inj (x y : list part) : item_of <$> x = item_of <$> y → x = y.
Proof.
  revert y. induction x as [|p x IH]; intros [|q y]; try done.
  rewrite !fmap_cons. intros [= Hpq Hxy]. f_equal; [|by apply IH].
  destruct p, q; simpl in Hpq; try done.
  - injection Hpq as Hn. apply N2Z.inj in Hn. by subst.
  - by injection Hpq as ->.
Qed.

(** The value of [_compare_versions] without [packaging], by the parts of
    its arguments. *)
Lemma compare_versions_parts a b c :
  packaging_installed = false →
  _compare_versions a b = Returns c ↔
  ∃ s t x y, a = OStr s ∧ b = OStr t
    ∧ normal_form (stripped s) = Some x ∧ normal_form (stripped t) = Some y
    ∧ c = sign (list_compare part_compare x y).
Proof.
  intros Hi. rewrite compare_versions_fallback by auto.
  destruct (object_str_or_not a) as [[s ->]|Ha].
  2: { destruct (fallback_not_str a b (or_introl Ha)) as (e & -> & _).
       split; [done|]. intros (s & ? & ? & ? & -> & _). by destruct (Ha s). }
  destruct (object_str_or_not b) as [[t ->]|Hb].
  2: { destruct (fallback_not_str (OStr s) b (or_intror Hb)) as (e & -> & _).
       split; [done|]. intros (? & t & ? & ? & _ & -> & _). by destruct (Hb t). }
  rewrite !strip_v_str, fallback_strs.
  destruct (normal_form (stripped s)) as [x|] eqn:Hx.
  2: { split; [done|]. intros (? & ? & ? & ? & [= <-] & _ & ? & _). congruence. }
  destruct (normal_form (stripped t)) as [y|] eqn:Hy.
  2: { split; [done|]. intros (? & ? & ? & ? & _ & [= <-] & _ & ? & _). congruence. }
  split.
  - intros [= <-]. by exists s, t, x, y.
  - intros (? & ? & ? & ? & [= <-] & [= <-] & Hx' & Hy' & ->). congruence.
Qed.

(** What a call of [_compare_versions] comes to. *)
Lemma compare_versions_result (a b : object) :
  match _compare_versions a b with
  | Returns c =>
      (∃ s t, a = OStr s ∧ b = OStr t) ∧ (c = -1 ∨ c = 0 ∨ c = 1)%Z
  | Raises e =>
      e = ValueError
      ∨ (e = TypeError ∧ ((∀ s, a ≠ OStr s) ∨ (∀ s, b ≠ OStr s)))
  end.
Proof.
  destruct (compare_versions_cases a b)
    as [(va & vb & _ & Ha & Hb & ->)|[_ ->]].
  { apply Version_of_Returns in Ha as [s Ha], Hb as [t Hb].
    split.
    - destruct a, b; try done. eauto.
    - destruct (Version_gt va vb), (Version_lt va vb); simpl; auto. }
  destruct (object_str_or_not a) as [[s ->]|Ha].
  2: { destruct (fallback_not_str a b (or_introl Ha)) as (e & -> & [-> | ->]); auto. }
  destruct (object_str_or_not b) as [[t ->]|Hb].
  2: { destruct (fallback_not_str (OStr s) b (or_intror Hb)) as (e & -> & [-> | ->]); auto. }
  rewrite !strip_v_str, fallback_strs.
  destruct (normal_form (stripped s)); [|auto].
  destruct (normal_form (stripped t)); [|auto].
  split; [eauto|]. apply sign_range.
Qed.

End VersionFacts.

(** ** Runs of one class *)

Section ChunkRuns.
Import PyStr builtins.

Lemma findall_chars_cons a l :
  re.findall_chars (a :: l)
  = of_chars (a :: take_run (class_of a) l) :: re.findall_chars (drop_run (class_of a) l).
Proof. simp findall_chars. by rewrite find_alternative. Qed.

Lemma class_of_self a : class_of a a = true.
Proof.
  unfold class_of. destruct (re.digit a) eqn:Hd; [done|].
  destruct (re.alpha a) eqn:Ha; [done|].
  unfold re.other. unfold re.digit, isdecimal in Hd. by rewrite Ha, Hd.
Qed.

Lemma digit_not_alpha a : re.digit a = true → re.alpha a = false.
Proof.
  unfold re.digit, re.alpha, isdecimal, between.
  intros [_ Hhi%N.leb_le]%andb_prop.
  apply orb_false_iff. split; apply andb_false_iff; left; apply N.leb_gt; lia.
Qed.

(** An alternative that matches a character is the class of the character. *)
Lemma alternative_class f a b :
  f ∈ re.alternatives → f a = true → f b = class_of a b.
Proof.
  unfold re.alternatives, class_of. intros Hf Hfa.
  apply elem_of_cons in Hf as [->|Hf].
  { by rewrite Hfa. }
  apply elem_of_cons in Hf as [->|Hf].
  { destruct (re.digit a) eqn:Hd; [|by rewrite Hfa].
    apply digit_not_alpha in Hd. congruence. }
  apply list_elem_of_singleton in Hf as ->.
  unfold re.other in Hfa. apply negb_true_iff, orb_false_iff in Hfa as [Ha Hd].
  unfold re.digit, isdecimal. by rewrite Hd, Ha.
Qed.

Lemma same_class_false a b : class_of a b = false → same_class a b = false.
Proof.
  intros Hb. unfold same_class. apply not_true_iff_false.
  intros (f & Hf & [Hfa Hfb]%andb_prop)%existsb_exists.
  apply list_elem_of_In in Hf.
  rewrite (alternative_class f a b Hf Hfa) in Hfb. congruence.
Qed.

Lemma class_of_run a b : class_of a b = true → class_of b = class_of a.
Proof.
  unfold class_of at 1 3.
  destruct (re.digit a) eqn:Hd.
  { intros Hb. unfold class_of. by rewrite Hb. }
  destruct (re.alpha a) eqn:Ha.
  { intros Hb. unfold class_of. rewrite Hb.
    destruct (re.digit b) eqn:Hdb; [|done].
    apply digit_not_alpha in Hdb. congruence. }
  unfold re.other at 1. intros [Hab Hdb]%negb_true_iff%orb_false_iff.
  unfold class_of, re.digit, isdecimal. by rewrite Hdb, Hab.
Qed.

Lemma findall_head l c :
  head (re.findall_chars l) = Some c → head (chars c) = head l.
Proof.
  destruct l as [|a l]; [by simp findall_chars|].
  rewrite findall_chars_cons. simpl. intros [= <-].
  change (chars (String a ?s)) with (a :: chars s). done.
Qed.

Lemma take_run_last f a (l : list ascii) x :
  f a = true → last (a :: take_run f l) = Some x → f x = true.
Proof.
  intros Ha Hx. pose proof (take_run_forallb f l) as Hl.
  assert (forallb f (a :: take_run f l) = true) as Hall by (simpl; by rewrite Ha, Hl).
  rewrite forallb_forall in Hall. apply Hall, list_elem_of_In.
  apply last_Some in Hx as [l' ->]. set_solver.
Qed.

Lemma findall_adjacent l i c1 c2 a b :
  re.findall_chars l !! i = Some c1 → re.findall_chars l !! S i = Some c2 →
  last (chars c1) = Some a → head (chars c2) = Some b → same_class a b = false.
Proof.
  remember (length l) as n eqn:Hn. revert l Hn i c1 c2 a b.
  induction (lt_wf n) as [n _ IH]. intros l -> i c1 c2 a b.
  destruct l as [|x l]; [by simp findall_chars|].
  rewrite findall_chars_cons. destruct i as [|i]; simpl.
  - intros [= <-] H2 Ha Hb. change (chars (String x ?s)) with (x :: chars s) in Ha.
    rewrite chars_of_chars in Ha.
    apply (take_run_last _ _ _ _ (class_of_self x)) in Ha.
    apply same_class_false. rewrite (class_of_run x a Ha).
    assert (head (re.findall_chars (drop_run (class_of x) l)) = Some c2) as Hh.
    { by destruct (re.findall_chars (drop_run (class_of x) l)); simplify_eq/=. }
    apply findall_head in Hh. rewrite Hb in Hh. symmetry in Hh.
    by apply drop_run_head in Hh.
  - apply (IH (length (drop_run (class_of x) l))); [|done].
    pose proof (suffix_length _ _ (drop_run_suffix (class_of x) l)). simpl. lia.
Qed.

Lemma elem_of_concat_length {A} (c : list A) (ls : list (list A)) :
  c ∈ ls → length c ≤ length (concat ls).
Proof.
  induction 1 as [c ls|c c' ls _ IH]; simpl; rewrite length_app; lia.
Qed.

Lemma findall_chunk_within l c :
  c ∈ re.findall_chars l → length (chars c) ≤ length l ∧ chars c ⊆ l.
Proof.
  intros Hc. pose proof (findall_concat l) as Hl. split.
  - rewrite <- Hl at 1. apply elem_of_concat_length. by apply list_elem_of_fmap_2.
  - intros a Ha. rewrite <- Hl. apply list_elem_of_In, in_concat.
    exists (chars c). split; apply list_elem_of_In; [|done].
    by apply list_elem_of_fmap_2.
Qed.

End ChunkRuns.

(** ** Versions of numbers joined by dots *)

Section DottedFacts.
Context `{Interpreter}.
Import PyStr builtins.

Lemma stripped_split s :
  ∃ pre post, chars s = pre ++ chars (stripped s) ++ post.
Proof.
  unfold stripped, strip, lstrip. rewrite chars_of_chars.
  set (l1 := drop_run (one_of "vV") (chars s)).
  set (l2 := drop_run isspace l1).
  exists (take_run (one_of "vV") (chars s) ++ take_run isspace l1),
    (reverse (take_run isspace (reverse l2))).
  rewrite rstrip_split. unfold l2. rewrite <- app_assoc, take_drop_run.
  unfold l1. by rewrite take_drop_run.
Qed.

Lemma stripped_within s :
  String.length (stripped s) ≤ String.length s ∧ chars (stripped s) ⊆ chars s.
Proof.
  destruct (stripped_split s) as (pre & post & E). split.
  - rewrite <- !length_chars, E, !length_app. lia.
  - rewrite E. set_solver.
Qed.

Lemma strip_nothing f (l : list ascii) :
  (∀ a, head l = Some a → f a = false) → (∀ a, last l = Some a → f a = false) →
  strip f l = l.
Proof.
  intros Hh Hl. unfold strip, lstrip, rstrip.
  assert (drop_run f l = l) as ->.
  { destruct l as [|a l]; [done|]. simpl. by rewrite (Hh a). }
  rewrite <- (reverse_involutive l) at 2. f_equal.
  destruct (reverse l) as [|a r] eqn:Hr; [done|]. simpl.
  rewrite (Hl a); [done|]. by rewrite <- (reverse_involutive l), Hr, last_reverse.
Qed.

Lemma stripped_fixed s :
  (∀ a, head (chars s) = Some a → one_of "vV" a = false ∧ isspace a = false) →
  (∀ a, last (chars s) = Some a → isspace a = false) →
  stripped s = s.
Proof.
  intros Hh Hl. unfold stripped, lstrip.
  assert (drop_run (one_of "vV") (chars s) = chars s) as ->.
  { destruct (chars s) as [|a l]; [done|]. simpl. by destruct (Hh a) as [-> _]. }
  rewrite strip_nothing; [apply of_chars_chars| |done].
  intros a Ha. by apply Hh.
Qed.

Lemma isdecimal_plain a :
  isdecimal a = true → one_of "vV" a = false ∧ isspace a = false ∧ re.other a = false
  ∧ class_of a = re.digit ∧ isdigit_char a = true.
Proof.
  intros Ha. repeat split.
  - unfold one_of. apply bool_decide_eq_false. intros Hin.
    apply elem_of_cons in Hin as [->|Hin]; [done|].
    apply list_elem_of_singleton in Hin as ->. done.
  - unfold isdecimal, isspace, between in *.
    apply andb_prop in Ha as [Hlo%N.leb_le Hhi%N.leb_le].
    repeat (apply orb_false_iff; split);
      rewrite ?andb_false_iff, ?N.leb_gt, ?N.eqb_neq; lia.
  - unfold re.other. unfold isdecimal in Ha. rewrite Ha. by rewrite orb_true_r.
  - unfold class_of, re.digit. by rewrite Ha.
  - unfold isdigit_char. by rewrite Ha.
Qed.

Lemma truthy_cons d : PyStr.truthy d = true → ∃ a l, chars d = a :: l.
Proof. destruct d as [|a d]; [done|]. intros _. by exists a, (chars d). Qed.

Lemma run_app_stop f (l rest : list ascii) :
  forallb f l = true → (∀ b, head rest = Some b → f b = false) →
  take_run f (l ++ rest) = l ∧ drop_run f (l ++ rest) = rest.
Proof.
  intros Hl Hr. induction l as [|a l IH]; simpl in *.
  - destruct rest as [|b rest]; [done|]. simpl. by rewrite (Hr b).
  - apply andb_prop in Hl as [-> Hl]. destruct (IH Hl) as [-> ->]. done.
Qed.

Lemma findall_numeral d rest :
  PyStr.truthy d = true → forallb isdecimal (chars d) = true →
  (∀ b, head rest = Some b → isdecimal b = false) →
  re.findall_chars (chars d ++ rest) = d :: re.findall_chars rest.
Proof.
  intros Ht Hd Hr. rewrite <- (of_chars_chars d) at 2.
  destruct (truthy_cons d Ht) as (a & l & Hc). rewrite Hc in *.
  simpl in Hd. apply andb_prop in Hd as [Ha Hl].
  rewrite <- app_comm_cons, findall_chars_cons.
  destruct (isdecimal_plain a Ha) as (_ & _ & _ & -> & _).
  by destruct (run_app_stop re.digit l rest Hl Hr) as [-> ->].
Qed.

Lemma findall_dot rest :
  (∀ b, head rest = Some b → isdecimal b = true) →
  re.findall_chars ("."%char :: rest) = "." :: re.findall_chars rest.
Proof.
  intros Hr. rewrite findall_chars_cons.
  change (class_of ".") with re.other.
  assert (∀ b, head rest = Some b → re.other b = false) as Hr'.
  { intros b Hb. by destruct (isdecimal_plain b (Hr b Hb)) as (_ & _ & -> & _). }
  destruct (run_app_stop re.other [] rest eq_refl Hr') as [E1 E2].
  simpl in E1, E2. by rewrite E1, E2.
Qed.

Lemma part_of_numeral d : numeral d → part_of_chunk d = Some (Number (value d)).
Proof.
  intros Hd. unfold part_of_chunk. rewrite (int_numeral d Hd), N2Z.id.
  destruct Hd as (Ht & Hd & _). unfold isdigit. rewrite Ht. simpl.
  assert (forallb isdigit_char (chars d) = true) as ->; [|done].
  rewrite forallb_forall in Hd |- *. intros a Ha.
  by destruct (isdecimal_plain a (Hd a Ha)) as (_ & _ & _ & _ & ->).
Qed.

Lemma chars_dotted_cons d d' l :
  chars (dotted (d :: d' :: l)) = chars d ++ "."%char :: chars (dotted (d' :: l)).
Proof.
  unfold dotted. cbn [String.concat]. by rewrite !chars_app.
Qed.

Lemma numeral_head d rest a :
  numeral d → head (chars d ++ rest) = Some a → isdecimal a = true.
Proof.
  intros (Ht & Hd & _). destruct (truthy_cons d Ht) as (b & l & Hc). rewrite Hc in *.
  simpl in *. intros [= <-]. by apply andb_prop in Hd as [-> _].
Qed.

Lemma dotted_head l a :
  Forall numeral l → head (chars (dotted l)) = Some a → isdecimal a = true.
Proof.
  intros Hl. destruct Hl as [|d l Hd Hl]; [done|].
  destruct l as [|d' l].
  - rewrite <- (app_nil_r (chars (dotted [d]))). by apply numeral_head.
  - rewrite chars_dotted_cons. by apply numeral_head.
Qed.

Lemma dotted_last l a :
  Forall numeral l → last (chars (dotted l)) = Some a → isdecimal a = true.
Proof.
  induction 1 as [|d l Hd Hl IH]; [done|].
  destruct l as [|d' l].
  - destruct Hd as (_ & Hd & _). intros Ha. rewrite forallb_forall in Hd.
    apply Hd, list_elem_of_In. apply last_Some in Ha as [l' Ha].
    change (dotted [d]) with d in Ha. rewrite Ha. set_solver.
  - rewrite chars_dotted_cons. intros Ha. apply IH.
    inversion Hl as [|? ? (Ht & _) _]; subst.
    destruct (truthy_cons d' Ht) as (b & r' & Hc).
    destruct (chars (dotted (d' :: l))) as [|x r] eqn:Hx.
    { exfalso. destruct l as [|d'' l].
      - change (dotted [d']) with d' in Hx. congruence.
      - rewrite chars_dotted_cons, Hc in Hx. done. }
    by rewrite last_app_cons, last_cons_cons in Ha.
Qed.

Lemma stripped_dotted l : Forall numeral l → stripped (dotted l) = dotted l.
Proof.
  intros Hl. apply stripped_fixed.
  - intros a Ha. apply (dotted_head l a Hl) in Ha.
    by destruct (isdecimal_plain a Ha) as (-> & -> & _).
  - intros a Ha. apply (dotted_last l a Hl) in Ha.
    by destruct (isdecimal_plain a Ha) as (_ & -> & _).
Qed.

Lemma parts_of_dotted l :
  Forall numeral l →
  mapM part_of_chunk (re.findall (dotted l)) = Some (dotted_parts (value <$> l)).
Proof.
  unfold re.findall. induction 1 as [|d l Hd Hl IH]; [by simp findall_chars|].
  destruct l as [|d' l].
  - change (dotted [d]) with d. rewrite <- (app_nil_r (chars d)).
    destruct Hd as (Ht & Hd' & Hlim).
    rewrite findall_numeral by done. simp findall_chars. cbn [mapM].
    by rewrite (part_of_numeral d (conj Ht (conj Hd' Hlim))).
  - rewrite chars_dotted_cons.
    pose proof Hd as (Ht & Hd' & Hlim).
    rewrite findall_numeral; [|done|done|by intros b [= <-]].
    rewrite findall_dot by (intros b; by apply dotted_head).
    cbn [mapM]. rewrite (part_of_numeral d Hd), IH. done.
Qed.

Lemma normal_form_dotted l :
  Forall numeral l →
  normal_form (stripped (dotted l)) = Some (dotted_parts (value <$> l)).
Proof.
  intros Hl. unfold normal_form. rewrite !(stripped_dotted l Hl).
  by apply parts_of_dotted.
Qed.

Lemma compare_dotted_parts (x y : list N) :
  list_compare part_compare (dotted_parts x) (dotted_parts y)
  = list_compare N.compare x y.
Proof.
  revert y. induction x as [|u x IH]; intros [|v y]; try done.
  cbn [dotted_parts list_compare part_compare].
  destruct (u ?= v)%N; try done.
  destruct x as [|u' x], y as [|v' y]; try done.
  cbn [list_compare part_compare]. change (String.compare "." ".") with Eq.
  cbv iota. apply IH.
Qed.

End DottedFacts.

Section VersionProperties.
Context `{Interpreter}.
Import PyStr builtins.

(** X4: [_strip_v] of a [str] removes the leading run of [v] and [V], then
    the white space on both sides, and nothing else: the argument is
    [vs ++ ws ++ t ++ ws'] with [t] the result, which neither starts nor ends
    with white space; a [v] that follows leading white space stays. Any other
    object is returned as it is. *)
Theorem strip_v_decomposition (s : string) :
  ∃ vs ws t ws',
    _strip_v (OStr s) = OStr t
    ∧ chars s = vs ++ ws ++ chars t ++ ws'
    ∧ forallb (one_of "vV") vs = true
    ∧ forallb isspace ws = true ∧ forallb isspace ws' = true
    ∧ (∀ a, head (chars t) = Some a → isspace a = false)
    ∧ (∀ a, last (chars t) = Some a → isspace a = false)
    ∧ (ws = [] → ∀ a, head (chars t) = Some a → one_of "vV" a = false).
Proof.
  set (l1 := lstrip (one_of "vV") (chars s)).
  set (l2 := lstrip isspace l1).
  exists (take_run (one_of "vV") (chars s)), (take_run isspace l1),
    (of_chars (rstrip isspace l2)), (reverse (take_run isspace (reverse l2))).
  rewrite chars_of_chars.
  split; [done|]. split.
  { rewrite rstrip_split. unfold l2, lstrip. rewrite take_drop_run.
    unfold l1, lstrip. by rewrite take_drop_run. }
  split; [apply take_run_forallb|]. split; [apply take_run_forallb|].
  split; [rewrite forallb_reverse; apply take_run_forallb|].
  assert (∀ a, head (rstrip isspace l2) = Some a → head l2 = Some a) as Hhead.
  { intros a Ha. rewrite <- (rstrip_split isspace l2) at 1.
    destruct (rstrip isspace l2); simpl in *; congruence. }
  split; [|split].
  - intros a Ha%Hhead. by apply drop_run_head in Ha.
  - apply rstrip_last.
  - intros Hws a Ha%Hhead. unfold l2, lstrip in Ha.
    rewrite (take_run_nil _ _ Hws) in Ha. by apply drop_run_head in Ha.
Qed.

(** X6: what [_normalize_for_tuple] returns for a [str] is a tuple of items
    [(0, n)] with [n] a natural number and [(1, txt)] with [txt] the
    separator [.] or a non-empty run of ASCII letters. *)
Theorem normalize_for_tuple_shape (s : string) t :
  _normalize_for_tuple (OStr s) = Returns t →
  ∃ ps, t = item_of <$> ps ∧ forallb part_ok ps = true.
Proof.
  rewrite normalize_for_tuple_str.
  destruct (normal_form s) as [ps|] eqn:Hs; [|done].
  intros [= <-]. exists ps. split; [done|]. by apply normal_form_ok in Hs.
Qed.

(** X8: [_compare_versions] returns only for two [str] arguments, and then
    -1, 0 or 1; it raises [ValueError], or [TypeError] when an argument is no
    [str]. The comparison of the tuples itself never fails: an [int] is never
    compared with a [str]. *)
Theorem compare_versions_outcome (a b : object) :
  match _compare_versions a b with
  | Returns c =>
      (∃ s t, a = OStr s ∧ b = OStr t) ∧ (c = -1 ∨ c = 0 ∨ c = 1)%Z
  | Raises e =>
      e = ValueError
      ∨ (e = TypeError ∧ ((∀ s, a ≠ OStr s) ∨ (∀ s, b ≠ OStr s)))
  end.
Proof. apply compare_versions_result. Qed.

(** X9: when the comparisons of [packaging] mirror each other, swapping the
    arguments of [_compare_versions] negates the value, whichever of the two
    ways the value comes from. *)
Theorem compare_versions_antisymmetric (a b : object) (c : Z) :
  (∀ x y, Version_gt x y = Version_lt y x) →
  _compare_versions a b = Returns c →
  _compare_versions b a = Returns (- c)%Z.
Proof.
  intros Hlaw.
  destruct (compare_versions_cases a b)
    as [(va & vb & Hi & Ha & Hb & ->)|[Hf ->]].
  { intros [= <-]. rewrite (compare_versions_packaging b a vb va Hi Hb Ha).
    f_equal. rewrite (Hlaw va vb), (Hlaw vb va).
    destruct (Version_lt va vb), (Version_lt vb va); simpl; lia. }
  rewrite (compare_versions_fallback b a) by (destruct Hf as [?|[?|?]]; auto).
  destruct (object_str_or_not a) as [[s ->]|Ha].
  2: { by destruct (fallback_not_str a b (or_introl Ha)) as (e & -> & _). }
  destruct (object_str_or_not b) as [[t ->]|Hb].
  2: { by destruct (fallback_not_str (OStr s) b (or_intror Hb)) as (e & -> & _). }
  rewrite !strip_v_str, !fallback_strs.
  destruct (normal_form (stripped s)) as [x|]; [|done].
  destruct (normal_form (stripped t)) as [y|]; [|done].
  intros [= <-]. by rewrite parts_compare_antisym, sign_opp.
Qed.

(** X10: without [packaging], [_compare_versions] gives 0 for two [str]
    values exactly when both normalise, after stripping, to the same tuple. *)
Theorem compare_versions_zero (a b : string) :
  packaging_installed = false →
  _compare_versions (OStr a) (OStr b) = Returns 0%Z ↔
  ∃ t, _normalize_for_tuple (_strip_v (OStr a)) = Returns t
       ∧ _normalize_for_tuple (_strip_v (OStr b)) = Returns t.
Proof.
  intros Hi. rewrite (compare_versions_parts _ _ _ Hi).
  rewrite !strip_v_str, !normalize_for_tuple_str. split.
  - intros (? & ? & x & y & [= <-] & [= <-] & -> & -> & Hc).
    exists (item_of <$> x). split; [done|]. do 2 f_equal.
    destruct (list_compare part_compare x y) eqn:E; try done.
    by apply parts_compare_eq in E.
  - intros (t & Hx & Hy).
    destruct (normal_form (stripped a)) as [x|] eqn:Ea; [|done].
    destruct (normal_form (stripped b)) as [y|] eqn:Eb; [|done].
    injection Hx as <-. injection Hy as Hy. apply item_of_inj in Hy as ->.
    exists a, b, x, x. repeat split; try done.
    by rewrite (proj2 (parts_compare_eq x x)).
Qed.

(** X11: without [packaging], the order that [_compare_versions] gives is
    transitive: newer than something newer is newer. *)
Theorem compare_versions_transitive (a b c : object) :
  packaging_installed = false →
  _compare_versions a b = Returns 1%Z →
  _compare_versions b c = Returns 1%Z →
  _compare_versions a c = Returns 1%Z.
Proof.
  intros Hi. rewrite !(compare_versions_parts _ _ _ Hi).
  intros (s & t & x & y & -> & -> & Hx & Hy & Hxy)
         (? & u & y' & z & [= <-] & -> & Hy' & Hz & Hyz).
  assert (y' = y) as -> by congruence.
  exists s, u, x, z. repeat split; try done.
  assert (list_compare part_compare x y = Gt) as Hxy'
    by (by destruct (list_compare part_compare x y)).
  assert (list_compare part_compare y z = Gt) as Hyz'
    by (by destruct (list_compare part_compare y z)).
  by rewrite (parts_compare_trans x y z Gt Hxy' Hyz').
Qed.

(** X13: a leading run of [v] and [V] in either argument never changes what
    [_compare_versions] gives. *)
Theorem compare_versions_ignores_v (p a : string) (b : object) :
  forallb (one_of "vV") (chars p) = true →
  _compare_versions (OStr (p +:+ a)) b = _compare_versions (OStr a) b
  ∧ _compare_versions b (OStr (p +:+ a)) = _compare_versions b (OStr a).
Proof.
  intros Hp.
  assert (_strip_v (OStr (p +:+ a)) = _strip_v (OStr a)) as E.
  { rewrite !strip_v_str. unfold stripped, lstrip.
    by rewrite chars_app, drop_run_app. }
  unfold _compare_versions. by rewrite E.
Qed.

End VersionProperties.

Section ChunkProperties.
Context `{Interpreter}.
Import PyStr builtins.

(** X5: the pattern of [_normalize_for_tuple] cuts a [str] of code points
    below 256 into the longest runs of digits, of ASCII letters and of other
    characters: the chunks are not empty and of one alternative each, put
    together they give the [str] back, and no alternative matches both the
    last character of a chunk and the first of the next. *)
Theorem findall_maximal_runs (s : string) :
  concat (chars <$> re.findall s) = chars s
  ∧ Forall chunk_ok (re.findall s)
  ∧ ∀ i c1 c2 a b,
      re.findall s !! i = Some c1 → re.findall s !! S i = Some c2 →
      last (chars c1) = Some a → head (chars c2) = Some b →
      same_class a b = false.
Proof.
  split; [apply findall_concat|]. split; [apply findall_chunks|].
  apply findall_adjacent.
Qed.

(** X7: [_normalize_for_tuple] returns for every [str] in which the only
    digits are the decimal ones (no superscript digit) and which is not
    longer than the limit of [int], if there is one. *)
Theorem normalize_for_tuple_returns (s : string) :
  (∀ a, a ∈ chars s → isdigit_char a = true → isdecimal a = true) →
  int_max_str_digits = 0 ∨ String.length s ≤ int_max_str_digits →
  ∃ t, _normalize_for_tuple (OStr s) = Returns t.
Proof.
  intros Hdigits Hlimit. rewrite normalize_for_tuple_str.
  assert (is_Some (normal_form s)) as [ps ->]; [|eauto].
  unfold normal_form. apply mapM_is_Some, Forall_forall. intros c Hc.
  apply findall_chunk_within in Hc as [Hlen Hsub].
  destruct (stripped_within s) as [Hlen' Hsub'].
  rewrite !length_chars in Hlen.
  unfold compose, part_of_chunk. destruct (isdigit c) eqn:Hd; [|by eexists].
  apply andb_prop in Hd as [Ht Hd]. unfold int. rewrite Ht.
  assert (forallb isdecimal (chars c) = true) as ->.
  { rewrite forallb_forall in Hd |- *. intros a Ha.
    apply Hdigits; [|by apply Hd]. apply list_elem_of_In in Ha. set_solver. }
  simpl. rewrite bool_decide_false; [by eexists|]. rewrite length_chars. lia.
Qed.

(** X12: without [packaging], two versions that are decimal numbers joined
    by dots compare as the lists of their numbers do: number by number, by
    value and not by spelling, a version that continues another one being the
    newer. *)
Theorem compare_versions_dotted (l1 l2 : list string) :
  packaging_installed = false →
  Forall numeral l1 → Forall numeral l2 →
  _compare_versions (OStr (dotted l1)) (OStr (dotted l2))
  = Returns (sign (list_compare N.compare (value <$> l1) (value <$> l2))).
Proof.
  intros Hi H1 H2. apply (compare_versions_parts _ _ _ Hi).
  exists (dotted l1), (dotted l2), (dotted_parts (value <$> l1)),
    (dotted_parts (value <$> l2)).
  repeat split; try by apply normal_form_dotted.
  by rewrite compare_dotted_parts.
Qed.

End ChunkProperties.

(** ** The update check *)

Section UpdateFacts.
Context `{Interpreter} `{Http}.
Import builtins.

Lemma isinstance_Exception e :
  e = TypeError ∨ e = ValueError ∨ e = AttributeError → isinstance e cls.Exception = true.
Proof. by intros [-> | [-> | ->]]. Qed.

Lemma try_block_cases result req t :
  (∃ e, latest_release req t = Raises e ∧ try_block result req t = (result, Raises e))
  ∨ (∃ latest url, latest_release req t = Returns (latest, url) ∧ truthy latest = false
       ∧ try_block result req t = (set_error no_tag_msg result, Returns ()))
  ∨ (∃ latest url e, latest_release req t = Returns (latest, url) ∧ truthy latest = true
       ∧ _compare_versions latest (OStr (current_version result)) = Raises e
       ∧ try_block result req t = (set_release latest url result, Raises e))
  ∨ (∃ latest url c, latest_release req t = Returns (latest, url) ∧ truthy latest = true
       ∧ _compare_versions latest (OStr (current_version result)) = Returns c
       ∧ try_block result req t
         = (set_is_update (bool_decide (c = 1%Z)) (set_release latest url result), Returns ())).
Proof.
  unfold try_block.
  destruct (latest_release req t) as [[latest url]|e]; [|left; eauto].
  right. destruct (truthy latest) eqn:Ht; simpl.
  - right.
    destruct (_compare_versions latest (OStr (current_version result))) as [c|e] eqn:Hc.
    + right. exists latest, url, c. by rewrite Hc.
    + left. exists latest, url, e. by rewrite Hc.
  - left. eauto.
Qed.

End UpdateFacts.

(** ** [check_for_update] *)

Section UpdateProperties.
Context `{Interpreter} `{Http}.
Import builtins.

Lemma handle_raises result e e' :
  handle result e = Raises e' → e' = e ∧ isinstance e cls.Exception = false.
Proof.
  unfold handle.
  destruct (isinstance e cls.HTTPError); [done|].
  destruct (isinstance e cls.URLError || isinstance e cls.socket_timeout); [done|].
  destruct (isinstance e cls.JSONDecodeError || isinstance e cls.ValueError); [done|].
  destruct (isinstance e cls.Exception); [done|]. by intros [= <-].
Qed.

Lemma handle_returns result e r :
  handle result e = Returns r →
  isinstance e cls.Exception = true
  ∧ ∃ msg, r = set_error msg result
      ∧ match e with
        | HTTPError code => msg = http_error_msg code
        | URLError | socket_timeout => msg = network_msg
        | JSONDecodeError | ValueError => msg = parse_msg
        | _ => msg = unexpected_msg
        end.
Proof. unfold handle. destruct e; simpl; intros [= <-]; eauto. Qed.

Lemma or_else_cases a b r :
  or_else a b = r → (truthy a = true ∧ r = Returns a) ∨ (truthy a = false ∧ r = b).
Proof. unfold or_else. destruct (truthy a); intros <-; auto. Qed.

Lemma get_raises data key e : get data key = Raises e → e = AttributeError.
Proof. destruct data; simpl; congruence. Qed.

(** Where an exception of the request for the latest release comes from. *)
Lemma latest_release_raises req t e :
  latest_release req t = Raises e →
  urlopen_read req t = Raises e
  ∨ (∃ raw, urlopen_read req t = Returns raw
            ∧ json_loads (decode_utf8_replace raw) = Raises e)
  ∨ e = AttributeError.
Proof.
  unfold latest_release.
  destruct (urlopen_read req t) as [raw|e0]; simpl; [|intros [= <-]; auto].
  intros He. right.
  assert (∀ data,
    (tag_name ← get data "tag_name";
     tag ← or_else tag_name (name ← get data "name"; or_else name (Returns (OStr "")));
     url ← get data "html_url";
     html_url ← or_else url (get data "url");
     Returns (_strip_v tag, html_url)) = Raises e → e = AttributeError) as Hdata.
  { intros [| | | | | |d]; simpl; try by intros [= <-].
    unfold or_else. simpl.
    by repeat (destruct (truthy _); simpl). }
  destruct raw as [|b raw]; [right; by apply (Hdata (ODict []))|].
  destruct (json_loads _) as [data|e0] eqn:Hj; simpl in He.
  - right. by apply (Hdata data).
  - injection He as <-. left. eauto.
Qed.

(** The four ways through [check_for_update]. *)
Lemma check_for_update_cases cur repo t ua :
  let req := release_request repo ua in
  let init := mkInfo false false cur ONone ONone None in
  (∃ e, latest_release req t = Raises e
        ∧ check_for_update cur repo t ua = handle init e)
  ∨ (∃ latest url, latest_release req t = Returns (latest, url)
        ∧ truthy latest = false
        ∧ check_for_update cur repo t ua = Returns (set_error no_tag_msg init))
  ∨ (∃ latest url e, latest_release req t = Returns (latest, url)
        ∧ truthy latest = true
        ∧ _compare_versions latest (OStr cur) = Raises e
        ∧ check_for_update cur repo t ua = handle (set_release latest url init) e)
  ∨ (∃ latest url c, latest_release req t = Returns (latest, url)
        ∧ truthy latest = true
        ∧ _compare_versions latest (OStr cur) = Returns c
        ∧ check_for_update cur repo t ua
          = Returns (set_is_update (bool_decide (c = 1%Z)) (set_release latest url init))).
Proof.
  intros req init. unfold check_for_update. fold req. fold init.
  destruct (try_block_cases init req t)
    as [(e & Hl & ->)|[(latest & url & Hl & Ht & ->)
       |[(latest & url & e & Hl & Ht & Hc & ->)|(latest & url & c & Hl & Ht & Hc & ->)]]].
  - left. eauto.
  - right. left. eauto.
  - right. right. left. exists latest, url, e. eauto.
  - right. right. right. exists latest, url, c. eauto.
Qed.

(** X14: an exception leaves [check_for_update] only when it is no instance
    of [Exception] (as [KeyboardInterrupt] is) and was raised by the request
    or by [json.loads]; every other failure is reported in the dictionary. *)
Theorem check_for_update_raises cur repo t ua e :
  check_for_update cur repo t ua = Raises e →
  isinstance e cls.Exception = false
  ∧ (urlopen_read (release_request repo ua) t = Raises e
     ∨ ∃ raw, urlopen_read (release_request repo ua) t = Returns raw
              ∧ json_loads (decode_utf8_replace raw) = Raises e).
Proof.
  destruct (check_for_update_cases cur repo t ua)
    as [(e' & Hl & ->)|[(latest & url & Hl & Ht & ->)
       |[(latest & url & e' & Hl & Ht & Hc & ->)|(latest & url & c & Hl & Ht & Hc & ->)]]];
    try done.
  - intros [-> Hi]%handle_raises. split; [done|].
    apply latest_release_raises in Hl as [?|[?| ->]]; auto. done.
  - intros [-> Hi]%handle_raises. exfalso.
    pose proof (compare_versions_result latest (OStr cur)) as Hr.
    rewrite Hc in Hr. by destruct Hr as [-> | [-> _]].
Qed.

(** X15: when [check_for_update] reports an update, the request and the
    parsing succeeded, no error is reported, and the reported latest version
    is a non-empty [str] that [_compare_versions] places above the current
    version. *)
Theorem check_for_update_is_update cur repo t ua r :
  check_for_update cur repo t ua = Returns r →
  is_update r = true →
  ok r = true ∧ error r = None ∧ current_version r = cur
  ∧ ∃ latest, latest_version r = OStr latest ∧ PyStr.truthy latest = true
      ∧ _compare_versions (OStr latest) (OStr cur) = Returns 1%Z.
Proof.
  destruct (check_for_update_cases cur repo t ua)
    as [(e' & Hl & ->)|[(latest & url & Hl & Ht & ->)
       |[(latest & url & e' & Hl & Ht & Hc & ->)|(latest & url & c & Hl & Ht & Hc & ->)]]].
  - by intros (_ & msg & -> & _)%handle_returns.
  - by intros [= <-].
  - by intros (_ & msg & -> & _)%handle_returns.
  - intros [= <-]. simpl. intros Hu%bool_decide_eq_true. subst c.
    repeat split; try done.
    pose proof (compare_versions_result latest (OStr cur)) as Hr.
    rewrite Hc in Hr. destruct Hr as [(s & ? & -> & _) _].
    exists s. by repeat split.
Qed.

(** X16: when [check_for_update] reports that the check did not succeed,
    it reports no update, no latest version and no page, echoes the current
    version, and gives the reason: the missing tag, or the message of the
    [except] clause. *)
Theorem check_for_update_not_ok cur repo t ua r :
  check_for_update cur repo t ua = Returns r →
  ok r = false →
  is_update r = false ∧ latest_version r = ONone ∧ html_url r = ONone
  ∧ current_version r = cur
  ∧ ∃ msg, error r = Some msg
      ∧ (msg = no_tag_msg ∨ msg = network_msg ∨ msg = parse_msg
         ∨ msg = unexpected_msg ∨ ∃ code, msg = http_error_msg code).
Proof.
  destruct (check_for_update_cases cur repo t ua)
    as [(e' & Hl & ->)|[(latest & url & Hl & Ht & ->)
       |[(latest & url & e' & Hl & Ht & Hc & ->)|(latest & url & c & Hl & Ht & Hc & ->)]]].
  - intros (_ & msg & -> & Hmsg)%handle_returns _. simpl.
    repeat split; try done. exists msg. split; [done|].
    destruct e'; subst; eauto 10.
  - intros [= <-] _. simpl. repeat split; try done. eauto 10.
  - by intros (_ & msg & -> & _)%handle_returns.
  - by intros [= <-].
Qed.

(** X17: a request that fails with an [HTTPError], another [URLError] or a
    timeout leaves the dictionary as it was set up, with the error: the code
    for an [HTTPError], whose clause comes first, and the network message
    otherwise. *)
Theorem check_for_update_offline cur repo t ua e :
  urlopen_read (release_request repo ua) t = Raises e →
  isinstance e cls.URLError || isinstance e cls.socket_timeout = true →
  check_for_update cur repo t ua
  = Returns (mkInfo false false cur ONone ONone
               (Some match e with
                     | HTTPError code => http_error_msg code
                     | _ => network_msg
                     end)).
Proof.
  intros Hu He. unfold check_for_update, try_block, latest_release.
  rewrite Hu. simpl. by destruct e.
Qed.

(** X18: [check_for_update] can report success and an error at once, and
    only because the comparison failed after the latest version was written:
    with the parse message for a [ValueError] of [int], with the unexpected
    message for a tag that is no [str]. No update is reported then. *)
Theorem check_for_update_ok_with_error cur repo t ua r msg :
  check_for_update cur repo t ua = Returns r →
  ok r = true → error r = Some msg →
  is_update r = false
  ∧ ((msg = parse_msg
      ∧ _compare_versions (latest_version r) (OStr cur) = Raises ValueError)
     ∨ (msg = unexpected_msg
        ∧ _compare_versions (latest_version r) (OStr cur) = Raises TypeError
        ∧ ∀ s, latest_version r ≠ OStr s)).
Proof.
  destruct (check_for_update_cases cur repo t ua)
    as [(e' & Hl & ->)|[(latest & url & Hl & Ht & ->)
       |[(latest & url & e' & Hl & Ht & Hc & ->)|(latest & url & c & Hl & Ht & Hc & ->)]]].
  - by intros (_ & m & -> & _)%handle_returns.
  - by intros [= <-].
  - intros (_ & m & -> & Hm)%handle_returns _. simpl. intros [= ->].
    split; [done|].
    pose proof (compare_versions_result latest (OStr cur)) as Hr.
    rewrite Hc in Hr. destruct Hr as [-> | [-> [Hs|Hs]]]; subst.
    + by left.
    + right. by repeat split.
    + by destruct (Hs cur).
  - by intros [= <-].
Qed.

End UpdateProperties.

(** ** The properties of the update check at work *)

Section UpdateWitnesses.
Import PyStr builtins Releases.

Lemma normalize_for_tuple_shape_witness :
  ∃ ps, [[AInt 0; AInt 1]; [AInt 1; AStr "."]; [AInt 0; AInt 2]; [AInt 1; AStr "rc"]]
        = item_of <$> ps
        ∧ forallb part_ok ps = true.
Proof.
  apply (normalize_for_tuple_shape (H := no_packaging) "v1.2rc "). reflexivity.
Defined.

Lemma normalize_for_tuple_returns_witness :
  ∃ t, _normalize_for_tuple (H := no_packaging) (OStr "1.2.3-rc1") = Returns t.
Proof.
  apply normalize_for_tuple_returns.
  - intros a Ha Hd.
    assert (forallb (λ a, negb (isdigit_char a) || isdecimal a) (chars "1.2.3-rc1")
            = true) as Hall by reflexivity.
    rewrite forallb_forall in Hall.
    specialize (Hall a (proj1 (list_elem_of_In _ _) Ha)).
    by rewrite Hd in Hall.
  - right. apply Nat.leb_le. reflexivity.
Defined.

Lemma compare_versions_antisymmetric_witness :
  _compare_versions (H := no_packaging) (OStr "1.10.0") (OStr "v1.2.3") = Returns 1%Z
  ∧ _compare_versions (H := plain_numbers) (OStr "10") (OStr "9") = Returns 1%Z.
Proof.
  split.
  - apply (compare_versions_antisymmetric (H := no_packaging)
             (OStr "v1.2.3") (OStr "1.10.0") (-1)); [done|reflexivity].
  - apply (compare_versions_antisymmetric (H := plain_numbers)
             (OStr "9") (OStr "10") (-1)); [|reflexivity].
    intros x y. reflexivity.
Defined.

Lemma compare_versions_zero_witness :
  _compare_versions (H := no_packaging) (OStr "v1.02") (OStr "1.2 ") = Returns 0%Z.
Proof.
  apply (compare_versions_zero (H := no_packaging)); [reflexivity|].
  exists [[AInt 0; AInt 1]; [AInt 1; AStr "."]; [AInt 0; AInt 2]].
  split; reflexivity.
Defined.

Lemma compare_versions_transitive_witness :
  _compare_versions (H := no_packaging) (OStr "2.0") (OStr "1.9") = Returns 1%Z.
Proof.
  apply (compare_versions_transitive (H := no_packaging) _ (OStr "1.10")); reflexivity.
Defined.

Lemma compare_versions_dotted_witness :
  _compare_versions (H := no_packaging) (OStr "1.10.0") (OStr "1.2.3") = Returns 1%Z
  ∧ _compare_versions (H := no_packaging) (OStr "1.2") (OStr "1.2.0") = Returns (-1)%Z.
Proof.
  assert (∀ l, l ⊆ ["0"; "1"; "2"; "3"; "10"] → Forall (numeral (H := no_packaging)) l)
    as Hnum.
  { intros l Hl. apply Forall_forall. intros d Hd%Hl.
    repeat (apply elem_of_cons in Hd as [->|Hd]);
      try (split_and!; [reflexivity..|right; apply Nat.leb_le; reflexivity]).
    by apply elem_of_nil in Hd. }
  split.
  - apply (compare_versions_dotted (H := no_packaging) ["1"; "10"; "0"] ["1"; "2"; "3"]);
      [reflexivity|apply Hnum; set_solver..].
  - apply (compare_versions_dotted (H := no_packaging) ["1"; "2"] ["1"; "2"; "0"]);
      [reflexivity|apply Hnum; set_solver..].
Defined.

Lemma compare_versions_ignores_v_witness :
  _compare_versions (H := no_packaging) (OStr "vV1.2") (OStr "1.3")
  = _compare_versions (H := no_packaging) (OStr "1.2") (OStr "1.3")
  ∧ _compare_versions (H := no_packaging) (OStr "1.3") (OStr "vV1.2")
    = _compare_versions (H := no_packaging) (OStr "1.3") (OStr "1.2").
Proof.
  apply (compare_versions_ignores_v (H := no_packaging) "vV" "1.2" (OStr "1.3")).
  reflexivity.
Defined.

Lemma check_for_update_raises_witness :
  isinstance KeyboardInterrupt cls.Exception = false
  ∧ (urlopen_read (Http := failing KeyboardInterrupt)
       (release_request default_repo default_user_agent) default_timeout_seconds
     = Raises KeyboardInterrupt
     ∨ ∃ raw,
         urlopen_read (Http := failing KeyboardInterrupt)
           (release_request default_repo default_user_agent) default_timeout_seconds
         = Returns raw
         ∧ json_loads (Http := failing KeyboardInterrupt)
             (decode_utf8_replace (Http := failing KeyboardInterrupt) raw)
           = Raises KeyboardInterrupt).
Proof.
  apply (check_for_update_raises (H := no_packaging) (H0 := failing KeyboardInterrupt)
           "1.0" default_repo default_timeout_seconds default_user_agent).
  reflexivity.
Defined.

Lemma check_for_update_is_update_witness :
  ∃ latest, OStr "999.0.0" = OStr latest ∧ PyStr.truthy latest = true
    ∧ _compare_versions (H := no_packaging) (OStr latest) (OStr "0.0.1") = Returns 1%Z.
Proof.
  apply (check_for_update_is_update (H := no_packaging) (H0 := answer release_999)
           "0.0.1" default_repo default_timeout_seconds default_user_agent
           (mkInfo true true "0.0.1" (OStr "999.0.0")
                   (OStr "https://example.org/release/999") None));
    reflexivity.
Defined.

Lemma check_for_update_not_ok_witness :
  ∃ msg, Some no_tag_msg = Some msg
    ∧ (msg = no_tag_msg ∨ msg = network_msg ∨ msg = parse_msg
       ∨ msg = unexpected_msg ∨ ∃ code, msg = http_error_msg code).
Proof.
  apply (check_for_update_not_ok (H := no_packaging) (H0 := answer (ODict []))
           "1.0.0" default_repo default_timeout_seconds default_user_agent
           (mkInfo false false "1.0.0" ONone ONone (Some no_tag_msg)));
    reflexivity.
Defined.

Lemma check_for_update_offline_witness :
  check_for_update (H := no_packaging) (H0 := failing (HTTPError 404))
    "1.0.0" default_repo default_timeout_seconds default_user_agent
  = Returns (mkInfo false false "1.0.0" ONone ONone (Some "HTTPError 404"))
  ∧ check_for_update (H := no_packaging) (H0 := failing socket_timeout)
      "1.0.0" default_repo default_timeout_seconds default_user_agent
    = Returns (mkInfo false false "1.0.0" ONone ONone
                 (Some "Network unavailable or timed out")).
Proof.
  split.
  - apply (check_for_update_offline (H := no_packaging) (H0 := failing (HTTPError 404))
             "1.0.0" default_repo default_timeout_seconds default_user_agent
             (HTTPError 404)); reflexivity.
  - apply (check_for_update_offline (H := no_packaging) (H0 := failing socket_timeout)
             "1.0.0" default_repo default_timeout_seconds default_user_agent
             socket_timeout); reflexivity.
Defined.

Lemma check_for_update_ok_with_error_witness :
  false = false
  ∧ ((unexpected_msg = parse_msg
      ∧ _compare_versions (H := no_packaging) (OInt 5) (OStr "1.0.0") = Raises ValueError)
     ∨ (unexpected_msg = unexpected_msg
        ∧ _compare_versions (H := no_packaging) (OInt 5) (OStr "1.0.0") = Raises TypeError
        ∧ ∀ s, OInt 5 ≠ OStr s)).
Proof.
  apply (check_for_update_ok_with_error (H := no_packaging)
           (H0 := answer (ODict [("tag_name", OInt 5)]))
           "1.0.0" default_repo default_timeout_seconds default_user_agent
           (mkInfo true false "1.0.0" (OInt 5) ONone (Some unexpected_msg)));
    reflexivity.
Defined.

End UpdateWitnesses.

Section InferWitnesses.
Import PyStr Fixtures.
#[local] Existing Instance Sample.externals.

Lemma infer_raises_only_witness :
  (∃ p, PyStr "dir" = PyPath p
        ∧ MS2RescoreConfigurationError dir_no_run_msg
          = AttributeError "'PosixPath' object has no attribute 'endswith'")
  ∨ (PyObj.truthy (PyStr "dir") = false ∧ PyObj.truthy_opt None = false
     ∧ MS2RescoreConfigurationError dir_no_run_msg
       = MS2RescoreConfigurationError no_path_no_run_msg)
  ∨ (∃ s, PyStr "dir" = PyStr s ∧ os.path.isdir fs s = true
          ∧ PyObj.truthy_opt None = false
          ∧ MS2RescoreConfigurationError dir_no_run_msg
            = MS2RescoreConfigurationError dir_no_run_msg)
  ∨ (∃ s, PyStr "dir" = PyStr s ∧ os.path.isfile fs s = false
          ∧ os.path.isdir fs s = false
          ∧ MS2RescoreConfigurationError dir_no_run_msg
            = MS2RescoreConfigurationError not_existing_msg)
  ∨ (∃ c, outcome (candidate fs (PyStr "dir") None) = Return c
          ∧ is_supported_file_type c && os.path.exists_ fs c = false
          ∧ list_find (λ f, is_supported_file_type f = true)
                      (glob_.glob fs (c +:+ "*")) = None
          ∧ MS2RescoreConfigurationError dir_no_run_msg
            = MS2RescoreConfigurationError (no_extension_msg c)).
Proof. apply (infer_raises_only fs (PyStr "dir") None); reflexivity. Defined.

Lemma infer_run_name_only_logged_witness :
  outcome (infer_spectrum_path fs (PyStr "run1.mgf") (Some "other"))
  = outcome (infer_spectrum_path fs (PyStr "run1.mgf") None)
  ∧ (is_supported_file_type "run1.mgf" = true →
     outcome (infer_spectrum_path fs (PyStr "run1.mgf") (Some "other"))
     = Return (pathlib.Path "run1.mgf")).
Proof.
  apply (infer_run_name_only_logged fs "run1.mgf" (Some "other")).
  left. reflexivity.
Defined.

Lemma is_minitdf_only_directories_witness :
  _is_minitdf fs "data.txt" = false ∧ _is_minitdf fs "dir/run1.mzML" = false.
Proof.
  split; apply is_minitdf_only_directories; reflexivity.
Defined.

Lemma infer_without_path_as_dot_witness :
  infer_spectrum_path fs PyNone (Some "run1")
  = infer_spectrum_path fs (PyStr ".") (Some "run1").
Proof. apply infer_without_path_as_dot; [done|reflexivity..]. Defined.

End InferWitnesses.

(** ** The update check on releases of dotted numbers *)

Section UpdateDotted.
Context `{Interpreter} `{Http}.
Import PyStr builtins.

Lemma stripped_v_prefix p a :
  forallb (one_of "vV") (chars p) = true → stripped (p +:+ a) = stripped a.
Proof. intros Hp. unfold stripped, lstrip. by rewrite chars_app, drop_run_app. Qed.

Lemma dotted_truthy l : Forall numeral l → l ≠ [] → PyStr.truthy (dotted l) = true.
Proof.
  intros Hl Hne. destruct Hl as [|d l (Ht & _) Hl]; [done|].
  destruct (truthy_cons d Ht) as (a & r & Hd). apply truthy_chars.
  destruct l as [|d' l].
  - change (dotted [d]) with d. by rewrite Hd.
  - by rewrite chars_dotted_cons, Hd.
Qed.

Lemma latest_release_of_dict req t raw d :
  urlopen_read req t = Returns raw → raw ≠ [] →
  json_loads (decode_utf8_replace raw) = Returns (ODict d) →
  latest_release req t = Returns (_strip_v (release_tag d), release_page d).
Proof.
  intros Hurl Hraw Hjson. unfold latest_release. rewrite Hurl.
  destruct raw as [|b raw]; [done|].
  cbn [mbind completion_bind]. rewrite Hjson.
  cbn [mbind completion_bind get]. unfold or_else, release_tag, release_page.
  by repeat (destruct (truthy _); cbn [mbind completion_bind]).
Qed.

(** X24: without [packaging], for a release whose tag is [v] followed by
    decimal numbers joined by dots and a current version of the same form,
    [check_for_update] succeeds, reports the tag without its [v] and the page
    of the release, and reports an update exactly when the list of the
    numbers of the tag is above that of the current version. *)
Theorem check_for_update_dotted (latest current : list string) repo t ua raw d :
  packaging_installed = false →
  Forall numeral latest → latest ≠ [] → Forall numeral current →
  urlopen_read (release_request repo ua) t = Returns raw → raw ≠ [] →
  json_loads (decode_utf8_replace raw) = Returns (ODict d) →
  os.entry "tag_name" d = Some (OStr ("v" +:+ dotted latest)) →
  check_for_update (dotted current) repo t ua
  = Returns
      (mkInfo true
         (bool_decide (list_compare N.compare (value <$> latest) (value <$> current) = Gt))
         (dotted current) (OStr (dotted latest)) (release_page d) None).
Proof.
  intros Hi Hl Hne Hc Hurl Hraw Hjson Htag.
  assert (_compare_versions (OStr (dotted latest)) (OStr (dotted current))
          = Returns (sign (list_compare N.compare (value <$> latest) (value <$> current))))
    as Hcmp.
  { apply (compare_versions_parts _ _ _ Hi).
    exists (dotted latest), (dotted current), (dotted_parts (value <$> latest)),
      (dotted_parts (value <$> current)).
    repeat split; try by apply normal_form_dotted.
    by rewrite compare_dotted_parts. }
  assert (latest_release (release_request repo ua) t
          = Returns (OStr (dotted latest), release_page d)) as Hrel.
  { rewrite (latest_release_of_dict _ _ raw d) by done.
    unfold release_tag. rewrite Htag.
    change (default ONone (Some ?x)) with x.
    change (truthy (OStr ("v" +:+ dotted latest))) with true. cbv iota.
    by rewrite strip_v_str, (stripped_v_prefix "v"), (stripped_dotted latest Hl). }
  assert (truthy (OStr (dotted latest)) = true) as Ht by (by apply dotted_truthy).
  destruct (check_for_update_cases (dotted current) repo t ua)
    as [(e' & Hl' & _)|[(l' & url & Hl' & Ht' & _)
       |[(l' & url & e' & Hl' & _ & Hc' & _)|(l' & url & c & Hl' & _ & Hc' & ->)]]];
    rewrite Hrel in Hl'; try done; injection Hl' as <- <-; try congruence.
  rewrite Hcmp in Hc'. injection Hc' as <-.
  unfold set_is_update, set_release. simpl. do 2 f_equal. apply bool_decide_ext.
  by destruct (list_compare N.compare (value <$> latest) (value <$> current)).
Qed.

End UpdateDotted.

Section UpdateDottedWitness.
Import PyStr builtins Releases.

Lemma check_for_update_dotted_witness :
  check_for_update (H := no_packaging)
    (H0 := answer (ODict [("tag_name", OStr "v3.1.0");
                          ("html_url", OStr "https://example.org/release/3.1.0")]))
    "3.0.12" default_repo default_timeout_seconds default_user_agent
  = Returns (mkInfo true true "3.0.12" (OStr "3.1.0")
               (OStr "https://example.org/release/3.1.0") None).
Proof.
  assert (∀ l, l ⊆ ["0"; "1"; "3"; "12"] → Forall (numeral (H := no_packaging)) l)
    as Hnum.
  { intros l Hl. apply Forall_forall. intros d Hd%Hl.
    repeat (apply elem_of_cons in Hd as [->|Hd]);
      try (split_and!; [reflexivity..|right; apply Nat.leb_le; reflexivity]).
    by apply elem_of_nil in Hd. }
  apply (check_for_update_dotted (H := no_packaging)
           (H0 := answer (ODict [("tag_name", OStr "v3.1.0");
                                 ("html_url", OStr "https://example.org/release/3.1.0")]))
           ["3"; "1"; "0"] ["3"; "0"; "12"] default_repo default_timeout_seconds
           default_user_agent [Byte.x7b; Byte.x7d]
           [("tag_name", OStr "v3.1.0");
            ("html_url", OStr "https://example.org/release/3.1.0")]);
    [reflexivity | apply Hnum; set_solver | done | apply Hnum; set_solver
    | reflexivity | done | reflexivity | reflexivity].
Defined.

End UpdateDottedWitness.
